(** * BlockchainDemoPY: a shallow embedding of the demonstration blockchain

    The development follows [BlockchainDemoPY.py]: the classes [Transaction],
    [Block] and [Chain] become the modules of the same names, a Python
    method becomes a function of the same name, and the objects that the
    program shares by reference (blocks and transaction lists) live in an
    explicit object store.  The two external libraries the program calls,
    [hashlib] and [cryptography], are an interface ([Crypto]); every theorem
    holds for each implementation of it.

    Conventions of the model:
    - a method is a function in the monad [M]: it ends by returning or by
      raising, and leaves a state behind in both cases;
    - the mining loop, which may run forever, takes a bound on its number of
      turns;
    - the clock read by [Block.__init__] is an argument, [now];
    - amounts are Python [int]s, text is made of code points below 256;
    - the functions of the model print every [int] and build every string,
      where the interpreter refuses to print an [int] of more than 4300
      digits and to build [s * n] for a huge [n]: the statements that say
      that a call does not fail, or how it fails, take the numbers they
      print and the difficulty within these bounds ([Py.printable],
      [Py.repeatable]);
    - what the methods print is left out; the demonstration at the end of
      the file returns the three values it prints last, and the keys that
      [generate_key_pair] draws are arguments. *)

From Stdlib Require Import ZArith String Ascii List Lia Bool DecimalString
  DecimalPos.
From Stdlib.Strings Require Import Byte.
From stdpp Require Import base list option.

Open Scope string_scope.
Open Scope list_scope.
Open Scope Z_scope.

(** ** Python values and built-in operations *)

Module Py.

(** Text is a sequence of code points; the model carries the code points
    below 256, one per character.  A byte string is a list of bytes. *)
Definition bytes := list byte.

Definition backslash : ascii := "092"%char.
Definition double_quote : ascii := "034"%char.
Definition single_quote : ascii := "039"%char.

Definition str2 (c d : ascii) : string := String c (String d EmptyString).

(** [str(n)] for an [int]. *)
Definition str_int (n : Z) : string := NilZero.string_of_int (Z.to_int n).

(** [f"{x}"] for an optional string: [None] prints as its name. *)
Definition str_optional (x : option string) : string :=
  match x with
  | None => "None"
  | Some s => s
  end.

(** Truth value of an optional string and of an optional byte string:
    [None] and the empty sequence are false. *)
Definition truthy_str (x : option string) : bool :=
  match x with
  | Some (String _ _) => true
  | _ => false
  end.

Definition truthy_bytes (x : option bytes) : bool :=
  match x with
  | Some (_ :: _) => true
  | _ => false
  end.

(** [s[:stop]]: a negative [stop] counts from the end, and the slice is
    clipped to the string. *)
Definition slice_to (s : string) (stop : Z) : string :=
  let n := Z.of_nat (String.length s) in
  let k := if stop <? 0 then Z.max 0 (n + stop) else Z.min stop n in
  substring 0 (Z.to_nat k) s.

(** [s * n]: the empty string when [n <= 0]. *)
Fixpoint repeat_nat (s : string) (n : nat) : string :=
  match n with
  | O => EmptyString
  | S n' => (s ++ repeat_nat s n')%string
  end.

Definition repeat (s : string) (n : Z) : string := repeat_nat s (Z.to_nat n).

(** [s.encode()]: UTF-8. *)
Definition encode_char (c : ascii) : bytes :=
  let n := N_of_ascii c in
  if (n <? 128)%N then [byte_of_ascii c]
  else
    match Byte.of_N (N.lor 192 (N.shiftr n 6)), Byte.of_N (N.lor 128 (N.land n 63)) with
    | Some hi, Some lo => [hi; lo]
    | _, _ => []
    end.

Fixpoint encode (s : string) : bytes :=
  match s with
  | EmptyString => []
  | String c s' => (encode_char c ++ encode s')%list
  end.

(** Hexadecimal digits. *)
Definition hex_digit (n : N) : ascii :=
  ascii_of_N (if (n <? 10)%N then 48 + n else 87 + n).

Definition hex_value (c : ascii) : option N :=
  let n := N_of_ascii c in
  if ((48 <=? n) && (n <=? 57))%N then Some (n - 48)%N
  else if ((97 <=? n) && (n <=? 102))%N then Some (n - 87)%N
  else if ((65 <=? n) && (n <=? 70))%N then Some (n - 55)%N
  else None.

(** [b.hex()]: two lower-case digits for each byte. *)
Definition hex (b : bytes) : string :=
  String.concat EmptyString
    (map (fun x => str2 (hex_digit (N.shiftr (Byte.to_N x) 4))
                        (hex_digit (N.land (Byte.to_N x) 15))) b).

(** [str(n)], an f-string, [json.dumps] and [print] raise [ValueError] on an
    [int] of more than 4300 digits, the limit the interpreter sets by
    default.  [str_int] writes the digits of every [int]; [printable] tells
    the ones that the interpreter prints. *)
Definition max_str_digits : Z := 4300.

Definition printable (n : Z) : bool := Z.abs n <? 10 ^ max_str_digits.



Definition is_space (c : ascii) : bool :=
  let n := N_of_ascii c in
  (((9 <=? n) && (n <=? 13)) || (n =? 32))%N.

(** [bytes.fromhex(s)]: two digits per byte, white space allowed between
    the bytes; [None] stands for the [ValueError] of a malformed string. *)
Fixpoint fromhex (s : string) : option bytes :=
  match s with
  | EmptyString => Some []
  | String c s' =>
      if is_space c then fromhex s'
      else
        match s' with
        | EmptyString => None
        | String d s'' =>
            match hex_value c, hex_value d with
            | Some hi, Some lo =>
                match Byte.of_N (16 * hi + lo), fromhex s'' with
                | Some b, Some rest => Some (b :: rest)
                | _, _ => None
                end
            | _, _ => None
            end
        end
  end.

(** [repr(b)] of a byte string, which is what [str(b)] returns. *)
Definition repr_byte (quote : ascii) (b : byte) : string :=
  let c := ascii_of_byte b in
  let n := Byte.to_N b in
  if (Ascii.eqb c quote || Ascii.eqb c backslash)%bool then str2 backslash c
  else if (n =? 9)%N then str2 backslash "t"
  else if (n =? 10)%N then str2 backslash "n"
  else if (n =? 13)%N then str2 backslash "r"
  else if ((n <? 32) || (127 <=? n))%N
       then (str2 backslash "x"
             ++ str2 (hex_digit (N.shiftr n 4)) (hex_digit (N.land n 15)))%string
  else String c EmptyString.

Definition has_byte (c : ascii) (b : bytes) : bool :=
  existsb (fun x => Ascii.eqb (ascii_of_byte x) c) b.

Definition repr_bytes (b : bytes) : string :=
  let quote : ascii :=
    if (has_byte single_quote b && negb (has_byte double_quote b))%bool
    then double_quote else single_quote in
  String "b" (String quote
    (String.concat EmptyString (map (repr_byte quote) b)
     ++ String quote EmptyString)%string).

(** A string as [json.dumps] writes it with [ensure_ascii] left on. *)
Definition json_char (c : ascii) : string :=
  let n := N_of_ascii c in
  if Ascii.eqb c double_quote then str2 backslash double_quote
  else if Ascii.eqb c backslash then str2 backslash backslash
  else if (n =? 8)%N then str2 backslash "b"
  else if (n =? 9)%N then str2 backslash "t"
  else if (n =? 10)%N then str2 backslash "n"
  else if (n =? 12)%N then str2 backslash "f"
  else if (n =? 13)%N then str2 backslash "r"
  else if ((n <? 32) || (126 <? n))%N
       then (String backslash "u00"
             ++ str2 (hex_digit (N.shiftr n 4)) (hex_digit (N.land n 15)))%string
  else String c EmptyString.

Fixpoint json_chars (s : string) : string :=
  match s with
  | EmptyString => EmptyString
  | String c s' => (json_char c ++ json_chars s')%string
  end.

Definition json_str (s : string) : string :=
  String double_quote (json_chars s ++ String double_quote EmptyString)%string.

Definition json_optional_str (x : option string) : string :=
  match x with
  | None => "null"
  | Some s => json_str s
  end.

End Py.

(** ** Exceptions and the monad of methods *)

(** Every [raise] of the program raises [ValueError]; the four messages tell
    the raise sites apart.  [IndexError] is what [self.chain[-1]] raises on an
    empty list. *)
Inductive message : Set :=
| missing_signature      (* "缺少签名", Transaction.is_valid *)
| tampered_transaction   (* "发现被篡改的交易，停止挖矿", Block.mine *)
| invalid_address        (* "无效的发送方或接收方地址", Chain.add_transaction *)
| invalid_transaction.   (* "无效的交易，可能被篡改或签名无效", Chain.add_transaction *)

Inductive exception : Set :=
| ValueError (m : message)
| IndexError.

(** The names the specification gives to the raise sites. *)
Definition MissingSignatureError : exception := ValueError missing_signature.
Definition InvalidAddressError : exception := ValueError invalid_address.
Definition InvalidTransactionError : exception := ValueError invalid_transaction.
Definition MiningInvalidTransactionError : exception := ValueError tampered_transaction.

Inductive outcome (A : Type) : Type :=
| Returns (a : A)
| Raises (e : exception).
Arguments Returns {A} a.
Arguments Raises {A} e.

(** A method runs on a state [S] and ends with an outcome and the state it
    leaves behind; a raised exception keeps the mutations done before it.
    [None] is the absence of an outcome: the mining loop is still running
    when its fuel is spent, or a reference points outside the store (which
    no Python program can produce). *)
Definition M (S A : Type) : Type := S -> option (outcome A * S).

Definition ret {S A} (a : A) : M S A := fun s => Some (Returns a, s).

Definition raise {S A} (e : exception) : M S A := fun s => Some (Raises e, s).

Definition bind {S A B} (c : M S A) (k : A -> M S B) : M S B :=
  fun s =>
    match c s with
    | Some (Returns a, s') => k a s'
    | Some (Raises e, s') => Some (Raises e, s')
    | None => None
    end.

Notation "x <~ c ;; k" := (bind c (fun x => k))
  (at level 100, c at level 99, k at level 100, right associativity).
Notation "c ;;; k" := (bind c (fun _ => k))
  (at level 100, k at level 100, right associativity).

Definition get {S} : M S S := fun s => Some (Returns s, s).

Definition put {S} (s : S) : M S unit := fun _ => Some (Returns tt, s).

Definition of_outcome {S A} (o : outcome A) : M S A := fun s => Some (o, s).

Definition of_reference {S A} (o : option A) : M S A :=
  fun s => match o with
           | Some a => Some (Returns a, s)
           | None => None
           end.

Definition still_running {S A} : M S A := fun _ => None.

(** What a call returns or raises, without the state. *)
Definition result_of {S A} (r : option (outcome A * S)) : option (outcome A) :=
  match r with
  | Some (o, _) => Some o
  | None => None
  end.

(** The state a call leaves behind, whether it returns or raises. *)
Definition after {S A} (c : M S A) (s : S) : S :=
  match c s with
  | Some (_, s') => s'
  | None => s
  end.

(** ** The external libraries *)

(** [hashlib.sha256(data).hexdigest()] and the three operations of
    [cryptography]'s elliptic-curve keys that the program calls.  Signing
    draws a fresh secret number on each call, the [entropy] argument. *)
Class Crypto : Type := {
  private_key : Type;
  public_key : Type;
  entropy : Type;
  sha256_hexdigest : Py.bytes -> string;
  (** [EllipticCurvePublicKey.from_encoded_point(SECP256K1(), data)];
      [None] is its [ValueError]. *)
  from_encoded_point : Py.bytes -> option public_key;
  (** [private_key.sign(data, ECDSA(SHA256()))] *)
  ecdsa_sign : private_key -> entropy -> Py.bytes -> Py.bytes;
  (** [public_key.verify(signature, data, ECDSA(SHA256()))]; [false] is its
      [InvalidSignature]. *)
  ecdsa_verify : public_key -> Py.bytes -> Py.bytes -> bool
}.

(** ** The data model *)

(** Address of an object in the store. *)
Definition loc := nat.

(** [amount] carries Python's [int]s (the demonstration passes 100 and the
    reward is the [int] 50). *)
Record Transaction : Type := {
  from_address : option string;
  to_address : option string;
  amount : Z;
  signature : option Py.bytes
}.

(** [transactions] is a reference: the list object is shared with whoever
    passed it to the constructor. *)
Record Block : Type := {
  transactions : loc;
  previous_hash : string;
  timestamp : Z;
  nonce : Z;
  hash : string
}.

Record Chain : Type := {
  chain : list loc;
  transaction_pool : loc;
  miner_reward : Z;
  difficulty : Z
}.

(** The store of the objects that are shared by reference. *)
Record Heap : Type := {
  blocks : list Block;
  lists : list (list Transaction)
}.

(** One [Chain] object and the store. *)
Record World : Type := {
  self : Chain;
  heap : Heap
}.

Definition set_signature (tx : Transaction) (s : option Py.bytes) : Transaction :=
  {| from_address := from_address tx; to_address := to_address tx;
     amount := amount tx; signature := s |}.

Definition set_previous_hash (b : Block) (h : string) : Block :=
  {| transactions := transactions b; previous_hash := h;
     timestamp := timestamp b; nonce := nonce b; hash := hash b |}.

Definition set_nonce (b : Block) (n : Z) : Block :=
  {| transactions := transactions b; previous_hash := previous_hash b;
     timestamp := timestamp b; nonce := n; hash := hash b |}.

Definition set_hash (b : Block) (h : string) : Block :=
  {| transactions := transactions b; previous_hash := previous_hash b;
     timestamp := timestamp b; nonce := nonce b; hash := h |}.

Definition set_chain (c : Chain) (l : list loc) : Chain :=
  {| chain := l; transaction_pool := transaction_pool c;
     miner_reward := miner_reward c; difficulty := difficulty c |}.

Definition set_transaction_pool (c : Chain) (p : loc) : Chain :=
  {| chain := chain c; transaction_pool := p;
     miner_reward := miner_reward c; difficulty := difficulty c |}.

Definition set_difficulty_field (c : Chain) (d : Z) : Chain :=
  {| chain := chain c; transaction_pool := transaction_pool c;
     miner_reward := miner_reward c; difficulty := d |}.

(** *** Store operations *)

Definition load_block (r : loc) : M Heap Block :=
  fun h => of_reference (blocks h !! r) h.

Definition store_block (r : loc) (b : Block) : M Heap unit :=
  fun h => Some (Returns tt, {| blocks := <[r := b]> (blocks h); lists := lists h |}).

Definition new_block (b : Block) : M Heap loc :=
  fun h => Some (Returns (length (blocks h)),
                 {| blocks := blocks h ++ [b]; lists := lists h |}).

Definition load_list (r : loc) : M Heap (list Transaction) :=
  fun h => of_reference (lists h !! r) h.

Definition new_list (l : list Transaction) : M Heap loc :=
  fun h => Some (Returns (length (lists h)),
                 {| blocks := blocks h; lists := lists h ++ [l] |}).

(** [l.append(tx)] on the list object at [r]. *)
Definition list_append (r : loc) (tx : Transaction) : M Heap unit :=
  fun h =>
    match lists h !! r with
    | Some l => Some (Returns tt,
                      {| blocks := blocks h; lists := <[r := l ++ [tx]]> (lists h) |})
    | None => None
    end.

(** A method of a stored object, run from a method of the chain. *)
Definition on_heap {A} (c : M Heap A) : M World A :=
  fun w =>
    match c (heap w) with
    | Some (o, h') => Some (o, {| self := self w; heap := h' |})
    | None => None
    end.

Definition get_self : M World Chain := fun w => Some (Returns (self w), w).

Definition put_self (c : Chain) : M World unit :=
  fun w => Some (Returns tt, {| self := c; heap := heap w |}).

(** *** Updated stores and worlds *)

(** The store after the block at [r] is replaced. *)
Definition with_block (h : Heap) (r : loc) (b : Block) : Heap :=
  {| blocks := <[r := b]> (blocks h); lists := lists h |}.

(** The world with another store. *)
Definition with_heap (w : World) (h : Heap) : World :=
  {| self := self w; heap := h |}.

(** The store after the list at [r] is replaced. *)
Definition with_list (h : Heap) (r : loc) (l : list Transaction) : Heap :=
  {| blocks := blocks h; lists := <[r := l]> (lists h) |}.

(** ** class Transaction *)

Module Transaction.
Section Methods.
Context `{Crypto}.

Definition __init__ (from_address to_address : option string) (amount : Z)
  : Transaction :=
  {| from_address := from_address; to_address := to_address;
     amount := amount; signature := None |}.

Definition compute_hash (self : Transaction) : string :=
  let transaction_string :=
    (Py.str_optional (from_address self)
     ++ Py.str_optional (to_address self)
     ++ Py.str_int (amount self))%string in
  sha256_hexdigest (Py.encode transaction_string).

(** The method has no guard: it stores the new signature whatever the
    [signature] field holds. *)
Definition sign (key : private_key) (k : entropy) : M Transaction unit :=
  self <~ get ;;
  let transaction_hash := compute_hash self in
  put (set_signature self
         (Some (ecdsa_sign key k (Py.encode transaction_hash)))).

Definition is_valid (self : Transaction) : outcome bool :=
  match from_address self with
  | None => Returns true
  | Some address =>
      match signature self with
      | None | Some [] =>                       (* not self.signature *)
          Raises (ValueError missing_signature)
      | Some ((_ :: _) as signature) =>
          match Py.fromhex address with
          | None => Returns false               (* except ValueError *)
          | Some point =>
              match from_encoded_point point with
              | None => Returns false           (* except ValueError *)
              | Some public_key =>
                  if ecdsa_verify public_key signature
                       (Py.encode (compute_hash self))
                  then Returns true
                  else Returns false            (* except InvalidSignature *)
              end
          end
      end
  end.

(** [self.__dict__] as [json.dumps(..., default=str)] writes it: the
    attributes in the order [__init__] assigns them, the signature through
    [str]. *)
Definition dumps (self : Transaction) : string :=
  ("{" ++ Py.json_str "from_address" ++ ": "
       ++ Py.json_optional_str (from_address self) ++ ", "
       ++ Py.json_str "to_address" ++ ": "
       ++ Py.json_optional_str (to_address self) ++ ", "
       ++ Py.json_str "amount" ++ ": " ++ Py.str_int (amount self) ++ ", "
       ++ Py.json_str "signature" ++ ": "
       ++ Py.json_optional_str (option_map Py.repr_bytes (signature self))
       ++ "}")%string.

End Methods.
End Transaction.

(** ** class Block *)

Module Block.
Section Methods.
Context `{Crypto}.

Definition block_string (txs : list Transaction) (b : Block) : string :=
  ("[" ++ String.concat ", " (map Transaction.dumps txs) ++ "]"
       ++ previous_hash b
       ++ Py.str_int (nonce b)
       ++ Py.str_int (timestamp b))%string.

(** The hash of a block whose transaction list holds [txs]. *)
Definition digest (txs : list Transaction) (b : Block) : string :=
  sha256_hexdigest (Py.encode (block_string txs b)).

Definition compute_hash (self : loc) : M Heap string :=
  b <~ load_block self ;;
  txs <~ load_list (transactions b) ;;
  ret (digest txs b).

(** Attribute assignments [self.hash = h], [self.nonce += 1],
    [self.previous_hash = h]. *)
Definition assign_hash (self : loc) (h : string) : M Heap unit :=
  b <~ load_block self ;; store_block self (set_hash b h).

Definition increment_nonce (self : loc) : M Heap unit :=
  b <~ load_block self ;; store_block self (set_nonce b (nonce b + 1)).

Definition assign_previous_hash (self : loc) (h : string) : M Heap unit :=
  b <~ load_block self ;; store_block self (set_previous_hash b h).

(** [now] is the reading [int(time.time() * 1000)] of the clock. *)
Definition __init__ (transactions : loc) (previous_hash : string) (now : Z)
  : M Heap loc :=
  self <~ new_block {| transactions := transactions;
                       previous_hash := previous_hash;
                       timestamp := now;
                       nonce := 1;
                       hash := EmptyString |} ;;
  h <~ compute_hash self ;;
  assign_hash self h ;;;
  ret self.

Definition get_answer (difficulty : Z) : string := Py.repeat "0" difficulty.

(** The [for] loop of [validate_transactions]. *)
Fixpoint validate_transactions_loop (txs : list Transaction) : outcome bool :=
  match txs with
  | [] => Returns true
  | transaction :: rest =>
      match Transaction.is_valid transaction with
      | Raises e => Raises e
      | Returns false => Returns false
      | Returns true => validate_transactions_loop rest
      end
  end.

Definition validate_transactions (self : loc) : M Heap bool :=
  b <~ load_block self ;;
  txs <~ load_list (transactions b) ;;
  of_outcome (validate_transactions_loop txs).

(** The [while True] loop of [mine]; [fuel] bounds the iterations. *)
Fixpoint mine_loop (self : loc) (difficulty : Z) (fuel : nat) : M Heap unit :=
  match fuel with
  | O => still_running
  | S fuel' =>
      h <~ compute_hash self ;;
      assign_hash self h ;;;
      if negb (String.eqb (Py.slice_to h difficulty) (get_answer difficulty))
      then
        increment_nonce self ;;;
        h' <~ compute_hash self ;;
        assign_hash self h' ;;;
        mine_loop self difficulty fuel'
      else ret tt
  end.

Definition mine (self : loc) (difficulty : Z) (fuel : nat) : M Heap unit :=
  ok <~ validate_transactions self ;;
  if negb ok then raise (ValueError tampered_transaction)
  else mine_loop self difficulty fuel.

End Methods.
End Block.

(** ** class Chain *)

Module Chain.
Section Methods.
Context `{Crypto}.

Definition big_bang (now : Z) : M Heap loc :=
  l <~ new_list [] ;;
  Block.__init__ l EmptyString now.

(** The constructor allocates the genesis block and the pool.  Python's
    default for [difficulty] is 4. *)
Definition __init__ (difficulty : Z) (now : Z) : M Heap Chain :=
  genesis_block <~ big_bang now ;;
  pool <~ new_list [] ;;
  ret {| chain := [genesis_block]; transaction_pool := pool;
         miner_reward := 50; difficulty := difficulty |}.

Definition set_difficulty (d : Z) : M World unit :=
  c <~ get_self ;; put_self (set_difficulty_field c d).

(** [self.chain[-1]] *)
Definition get_latest_block : M World loc :=
  c <~ get_self ;;
  match chain c !! (length (chain c) - 1)%nat with
  | Some r => ret r
  | None => raise IndexError
  end.

Definition add_transaction (transaction : Transaction) : M World unit :=
  if (negb (Py.truthy_str (from_address transaction))
      || negb (Py.truthy_str (to_address transaction)))%bool
  then raise (ValueError invalid_address)
  else
    ok <~ of_outcome (Transaction.is_valid transaction) ;;
    if negb ok then raise (ValueError invalid_transaction)
    else
      c <~ get_self ;;
      on_heap (list_append (transaction_pool c) transaction).

Definition add_block_to_chain (new_block : loc) (fuel : nat) : M World unit :=
  latest <~ get_latest_block ;;
  latest_block <~ on_heap (load_block latest) ;;
  on_heap (Block.assign_previous_hash new_block (hash latest_block)) ;;;
  c <~ get_self ;;
  on_heap (Block.mine new_block (difficulty c) fuel) ;;;
  c <~ get_self ;;
  put_self (set_chain c (chain c ++ [new_block])).

Definition mine_transaction_pool (miner_reward_address : string) (now : Z)
    (fuel : nat) : M World unit :=
  c <~ get_self ;;
  let miner_reward_transaction :=
    Transaction.__init__ None (Some miner_reward_address) (miner_reward c) in
  on_heap (list_append (transaction_pool c) miner_reward_transaction) ;;;
  latest <~ get_latest_block ;;
  latest_block <~ on_heap (load_block latest) ;;
  new_block <~ on_heap (Block.__init__ (transaction_pool c) (hash latest_block) now) ;;
  on_heap (Block.mine new_block (difficulty c) fuel) ;;;
  c <~ get_self ;;
  put_self (set_chain c (chain c ++ [new_block])) ;;;
  pool <~ on_heap (new_list []) ;;
  c <~ get_self ;;
  put_self (set_transaction_pool c pool).

(** The body of the [for i in range(1, len(self.chain))] loop, over the
    indices still to visit. *)
Fixpoint validate_chain_loop (indices : list nat) : M World bool :=
  match indices with
  | [] => ret true
  | i :: rest =>
      c <~ get_self ;;
      block_to_validate <~ of_reference (chain c !! i) ;;
      ok <~ on_heap (Block.validate_transactions block_to_validate) ;;
      if negb ok then ret false
      else
        b <~ on_heap (load_block block_to_validate) ;;
        h <~ on_heap (Block.compute_hash block_to_validate) ;;
        if negb (String.eqb (hash b) h) then ret false
        else
          previous_block <~ of_reference (chain c !! (i - 1)%nat) ;;
          pb <~ on_heap (load_block previous_block) ;;
          if negb (String.eqb (previous_hash b) (hash pb)) then ret false
          else validate_chain_loop rest
  end.

Definition validate_chain : M World bool :=
  c <~ get_self ;;
  if (length (chain c) =? 1)%nat
  then
    genesis <~ of_reference (chain c !! 0%nat) ;;
    b <~ on_heap (load_block genesis) ;;
    h <~ on_heap (Block.compute_hash genesis) ;;
    if negb (String.eqb (hash b) h) then ret false
    else ret true
  else validate_chain_loop (seq 1 (length (chain c) - 1)).

End Methods.
End Chain.

(** ** SHA-256, for the examples

    The function behind [hashlib.sha256], after FIPS 180-4, on 32-bit words
    held in [N].  The theorems do not depend on it; the examples compute
    with it. *)

Module SHA256.

Local Open Scope N_scope.

(** The 32 low bits. *)
Definition mask : N := 4294967295.
Definition word (x : N) : N := N.land x mask.
Definition add (x y : N) : N := word (x + y).
Definition rotr (n x : N) : N :=
  N.lor (N.shiftr x n) (word (N.shiftl x (32 - n))).
Definition complement (x : N) : N := N.lxor x mask.

Definition Ch (x y z : N) : N := N.lxor (N.land x y) (N.land (complement x) z).
Definition Maj (x y z : N) : N :=
  N.lxor (N.lxor (N.land x y) (N.land x z)) (N.land y z).
Definition Sigma0 (x : N) : N := N.lxor (N.lxor (rotr 2 x) (rotr 13 x)) (rotr 22 x).
Definition Sigma1 (x : N) : N := N.lxor (N.lxor (rotr 6 x) (rotr 11 x)) (rotr 25 x).
Definition sigma0 (x : N) : N := N.lxor (N.lxor (rotr 7 x) (rotr 18 x)) (N.shiftr x 3).
Definition sigma1 (x : N) : N := N.lxor (N.lxor (rotr 17 x) (rotr 19 x)) (N.shiftr x 10).

(** The constants are the leading fractional bits of the square roots
    (initial state) and cube roots (round constants) of the primes. *)
Definition primes : list N :=
  [2; 3; 5; 7; 11; 13; 17; 19; 23; 29; 31; 37; 41; 43; 47; 53; 59; 61; 67;
   71; 73; 79; 83; 89; 97; 101; 103; 107; 109; 113; 127; 131; 137; 139;
   149; 151; 157; 163; 167; 173; 179; 181; 191; 193; 197; 199; 211; 223;
   227; 229; 233; 239; 241; 251; 257; 263; 269; 271; 277; 281; 283; 293;
   307; 311].

(** The largest [r + d] with [d < 2 ^ bits] whose cube is at most [x]. *)
Fixpoint cube_root_from (bits : nat) (x r : N) : N :=
  match bits with
  | O => r
  | S bits' =>
      let r' := r + 2 ^ N.of_nat bits' in
      if r' * r' * r' <=? x then cube_root_from bits' x r'
      else cube_root_from bits' x r
  end.

Definition K : list N :=
  Eval vm_compute in
    map (fun p => word (cube_root_from 36 (p * 2 ^ 96) 0)) primes.

Definition H0 : list N :=
  Eval vm_compute in
    map (fun p => word (N.sqrt (p * 2 ^ 64))) (firstn 8 primes).

(** Padding to a multiple of 64 bytes: the byte 128, zeros, and the length
    in bits on 8 bytes. *)
Definition pad (msg : list N) : list N :=
  let len := N.of_nat (length msg) in
  let zeros := N.to_nat ((119 - len mod 64) mod 64) in
  msg ++ [128] ++ List.repeat 0 zeros
      ++ map (fun i => N.land (N.shiftr (8 * len) (8 * (7 - N.of_nat i))) 255)
             (seq 0 8).

Fixpoint words (bs : list N) : list N :=
  match bs with
  | a :: b :: c :: d :: rest =>
      (N.shiftl a 24 + N.shiftl b 16 + N.shiftl c 8 + d) :: words rest
  | _ => []
  end.

(** The message schedule, latest word first. *)
Fixpoint schedule (n : nat) (recent : list N) : list N :=
  match n with
  | O => recent
  | S n' =>
      let w := add (add (sigma1 (nth 1 recent 0)) (nth 6 recent 0))
                   (add (sigma0 (nth 14 recent 0)) (nth 15 recent 0)) in
      schedule n' (w :: recent)
  end.

Definition step (s : list N) (kw : N * N) : list N :=
  match s with
  | [a; b; c; d; e; f; g; h] =>
      let t1 := add (add (add h (Sigma1 e)) (add (Ch e f g) (fst kw))) (snd kw) in
      let t2 := add (Sigma0 a) (Maj a b c) in
      [add t1 t2; a; b; c; add d t1; e; f; g]
  | _ => s
  end.

Definition compress (s : list N) (block : list N) : list N :=
  let w := rev (schedule 48 (rev block)) in
  map (fun xy => add (fst xy) (snd xy))
      (combine s (fold_left step (combine K w) s)).

Fixpoint compress_all (n : nat) (ws : list N) (s : list N) : list N :=
  match n with
  | O => s
  | S n' => compress_all n' (skipn 16 ws) (compress s (firstn 16 ws))
  end.

Definition hex_word (x : N) : string :=
  fold_right
    (fun i acc =>
       String (Py.hex_digit (N.land (N.shiftr x (4 * (7 - N.of_nat i))) 15)) acc)
    EmptyString (seq 0 8).

Definition hexdigest (msg : Py.bytes) : string :=
  let ws := words (pad (map Byte.to_N msg)) in
  String.concat EmptyString
    (map hex_word (compress_all (length ws / 16) ws H0)).

End SHA256.

(** ** A stand-in for the key library, for the examples

    The hash is SHA-256.  The signature scheme is a stand-in with the
    interface of the elliptic-curve one: an encoded point is 33 bytes that
    start with 2 or 3, and a signature of [data] under a point is the digest
    of the point followed by [data].  Only the examples use it. *)

Module Example.

Definition point_of (secret : Py.bytes) : Py.bytes :=
  x02 :: firstn 32 (Py.encode (SHA256.hexdigest secret)).

Definition tag (point data : Py.bytes) : Py.bytes :=
  Py.encode (SHA256.hexdigest (point ++ data)).

Fixpoint bytes_eqb (a b : Py.bytes) : bool :=
  match a, b with
  | [], [] => true
  | x :: a', y :: b' => Byte.eqb x y && bytes_eqb a' b'
  | _, _ => false
  end.

Definition decode_point (data : Py.bytes) : option Py.bytes :=
  match data with
  | (x02 | x03) :: _ => if (length data =? 33)%nat then Some data else None
  | _ => None
  end.

Definition crypto : Crypto :=
  {| private_key := Py.bytes;
     public_key := Py.bytes;
     entropy := unit;
     sha256_hexdigest := SHA256.hexdigest;
     from_encoded_point := decode_point;
     ecdsa_sign := fun secret _ data => tag (point_of secret) data;
     ecdsa_verify := fun point signature data => bytes_eqb signature (tag point data) |}.

(** The notation of an encoded point as an address. *)
Definition hex (b : Py.bytes) : string := Py.hex b.

Definition address_of (secret : Py.bytes) : string := hex (point_of secret).

End Example.

(** ** The objects of the examples *)

Module Demo.
Section Objects.
Local Existing Instance Example.crypto.

Definition key1 : Py.bytes := [x01].
Definition key2 : Py.bytes := [x02].
Definition key3 : Py.bytes := [x03].
Definition address1 : string := Example.address_of key1.
Definition address2 : string := Example.address_of key2.
Definition miner_address : string := Example.address_of key3.

(** [Transaction(address1, address2, 100)], before and after [sign]. *)
Definition unsigned : Transaction :=
  Transaction.__init__ (Some address1) (Some address2) 100.
Definition transfer : Transaction := after (Transaction.sign key1 tt) unsigned.

(** The signed transfer, signed once more with another key. *)
Definition resigned : Transaction := after (Transaction.sign key2 tt) transfer.

(** A signed transaction of a negative amount. *)
Definition refund : Transaction :=
  after (Transaction.sign key1 tt)
        (Transaction.__init__ (Some address1) (Some address2) (-5)).

(** A transaction whose sender is not a hexadecimal string. *)
Definition malformed : Transaction :=
  {| from_address := Some "zz"; to_address := Some address2;
     amount := 1; signature := Some [x01] |}.

(** A transaction with an empty recipient. *)
Definition no_recipient : Transaction :=
  after (Transaction.sign key1 tt)
        (Transaction.__init__ (Some address1) (Some EmptyString) 100).

(** The signed transfer with its amount changed after signing. *)
Definition tampered : Transaction :=
  {| from_address := from_address transfer; to_address := to_address transfer;
     amount := 1000; signature := signature transfer |}.

Definition empty_heap : Heap := {| blocks := []; lists := [] |}.

(** Readings of the clock, and the fuel given to the mining loop. *)
Definition t0 : Z := 1700000000000.
Definition t1 : Z := 1700000000521.
Definition t2 : Z := 1700000000502.
Definition t3 : Z := 1700000000130.
Definition t4 : Z := 1700000000224.
Definition fuel : nat := 1000.

(** The world after [Chain(difficulty)] at time [now], in store [h]. *)
Definition construct (d now : Z) (h : Heap) : World :=
  match Chain.__init__ d now h with
  | Some (Returns c, h') => {| self := c; heap := h' |}
  | _ => {| self := {| chain := []; transaction_pool := 0%nat;
                       miner_reward := 0; difficulty := d |};
            heap := h |}
  end.

(** The scenario of the demonstration, at difficulty 1: one transfer is
    submitted, then the pool is mined. *)
Definition w0 : World := construct 1 t0 empty_heap.
Definition w1 : World := after (Chain.add_transaction transfer) w0.
Definition w2 : World :=
  after (Chain.mine_transaction_pool miner_address t1 fuel) w1.

(** The same with the transaction of negative amount. *)
Definition r1 : World := after (Chain.add_transaction refund) w0.
Definition r2 : World :=
  after (Chain.mine_transaction_pool miner_address t2 fuel) r1.

(** A store that holds one block over the list [[transfer]]. *)
Definition caller_heap : Heap :=
  after (l <~ new_list [transfer] ;; Block.__init__ l EmptyString t3) empty_heap.

(** The caller builds a list and a block next to a new chain, then hands
    the block to [add_block_to_chain]. *)
Definition c0 : World := construct 1 t4 empty_heap.
Definition c1 : World := after (on_heap (new_list [transfer])) c0.
Definition c2 : World := after (on_heap (Block.__init__ 2%nat EmptyString t3)) c1.
Definition c3 : World := after (Chain.add_block_to_chain 1%nat fuel) c2.

(** [chain.add_block_to_chain(chain.get_latest_block())] on a new chain of
    difficulty 0: the genesis block is handed to the chain again. *)
Definition a0 : World := construct 0 t0 empty_heap.
Definition a1 : World := after (Chain.add_block_to_chain 0%nat 1) a0.

(** On a new chain of difficulty 0 the caller builds an empty block and
    hands it to [add_block_to_chain] twice. *)
Definition d1 : World := after (on_heap (new_list [])) a0.
Definition d2 : World := after (on_heap (Block.__init__ 2%nat EmptyString t3)) d1.
Definition d3 : World := after (Chain.add_block_to_chain 1%nat 1) d2.
Definition d4 : World := after (Chain.add_block_to_chain 1%nat 1) d3.

(** On a new chain of difficulty 0 the caller builds a block over the list
    object of the pool ([Block(chain.transaction_pool, previous_hash)]),
    hands it to [add_block_to_chain], then submits a transfer. *)
Definition s1 : World := after (on_heap (Block.__init__ 1%nat EmptyString t3)) a0.
Definition s2 : World := after (Chain.add_block_to_chain 1%nat 1) s1.
Definition s3 : World := after (Chain.add_transaction transfer) s2.

(** A pool that holds a transaction that is not valid. *)
Definition bad_pool : World :=
  with_heap w0 (with_list (heap w0) (transaction_pool (self w0)) [malformed]).
Definition bad_pool_mined : World :=
  after (Chain.mine_transaction_pool miner_address t1 fuel) bad_pool.

(** A block to stand for a missing one. *)
Definition no_block : Block :=
  {| transactions := 0%nat; previous_hash := EmptyString;
     timestamp := 0; nonce := 0; hash := EmptyString |}.

(** The mined chain [w2] with another timestamp in its genesis block, the
    stored hash kept; and with the previous hash of its second block
    overwritten. *)
Definition stale_genesis : World :=
  with_heap w2
    (with_block (heap w2) 0%nat
       {| transactions := 0%nat; previous_hash := EmptyString;
          timestamp := 1; nonce := 1;
          hash := hash (nth 0 (blocks (heap w2)) no_block) |}).

Definition broken_link : World :=
  with_heap w2
    (with_block (heap w2) 1%nat
       (set_previous_hash (nth 1 (blocks (heap w2)) no_block) "00")).

(** A chain whose second block holds a transaction that is not valid
    followed by a transaction without signature. *)
Definition mixed_block : World :=
  with_heap w2 (with_list (heap w2) 1%nat [malformed; unsigned]).

(** A chain whose second block holds a transaction without signature. *)
Definition unsigned_block : World :=
  with_heap w2 (with_list (heap w2) 1%nat [unsigned]).

(** The block of [caller_heap], and the store after it is mined at
    difficulty 1. *)
Definition caller_block : Block := nth 0 (blocks caller_heap) no_block.
Definition caller_heap_mined : Heap := after (Block.mine 0%nat 1 fuel) caller_heap.

End Objects.
End Demo.

(** ** Vocabulary of the statements *)

Section Vocabulary.
Context `{Crypto}.

(** The check of the signature that [is_valid] runs inside its [try]. *)
Definition verifies (address : string) (s : Py.bytes) (tx : Transaction) : Prop :=
  exists point key,
    Py.fromhex address = Some point
    /\ from_encoded_point point = Some key
    /\ ecdsa_verify key s (Py.encode (Transaction.compute_hash tx)) = true.

(** The block [b] once its nonce is [n] and its hash is recomputed over a
    transaction list that holds [txs]. *)
Definition mined (txs : list Transaction) (b : Block) (n : Z) : Block :=
  {| transactions := transactions b; previous_hash := previous_hash b;
     timestamp := timestamp b; nonce := n;
     hash := Block.digest txs (set_nonce b n) |}.

(** The test of the mining loop, [hash[:difficulty] == "0" * difficulty]. *)
Definition meets_target (h : string) (difficulty : Z) : bool :=
  String.eqb (Py.slice_to h difficulty) (Block.get_answer difficulty).

(** Number of characters ['0'] at the start of a string. *)
Fixpoint leading_zeros (s : string) : nat :=
  match s with
  | String c s' => if Ascii.eqb c "0" then S (leading_zeros s') else O
  | EmptyString => O
  end.

(** What the pool holds. *)
Definition pool_contents (w : World) : option (list Transaction) :=
  lists (heap w) !! transaction_pool (self w).

(** The block object at position [i] of the chain. *)
Definition block_at (w : World) (i : nat) : option Block :=
  match chain (self w) !! i with
  | Some r => blocks (heap w) !! r
  | None => None
  end.

(** The reward transaction that [mine_transaction_pool] builds. *)
Definition coinbase (w : World) (miner_reward_address : string) : Transaction :=
  Transaction.__init__ None (Some miner_reward_address) (miner_reward (self w)).

(** The block that [mine_transaction_pool] constructs before mining it. *)
Definition candidate (w : World) (txs : list Transaction) (latest_block : Block)
    (now : Z) : Block :=
  mined txs {| transactions := transaction_pool (self w);
               previous_hash := hash latest_block;
               timestamp := now; nonce := 1; hash := EmptyString |} 1.

(** Every transaction of the list is valid: [is_valid] returns true. *)
Definition all_valid (txs : list Transaction) : Prop :=
  Forall (fun tx => Transaction.is_valid tx = Returns true) txs.

(** The first transaction of the list on which [is_valid] does not return
    true is [tx]. *)
Definition first_not_valid (txs : list Transaction) (tx : Transaction) : Prop :=
  exists pre post,
    txs = pre ++ tx :: post
    /\ all_valid pre
    /\ Transaction.is_valid tx <> Returns true.

(** The three checks that [validate_chain] runs on the block at position
    [i]: valid transactions, stored hash equal to the recomputed one, link to
    the stored hash of the block before. *)
Definition block_ok (w : World) (i : nat) : Prop :=
  exists b txs pb,
    block_at w i = Some b
    /\ lists (heap w) !! transactions b = Some txs
    /\ all_valid txs
    /\ hash b = Block.digest txs b
    /\ block_at w (i - 1) = Some pb
    /\ previous_hash b = hash pb.

(** The block at position [i] fails one of the checks, taken in the order
    the loop runs them, none of them raising. *)
Definition block_fails (w : World) (i : nat) : Prop :=
  exists b txs,
    block_at w i = Some b
    /\ lists (heap w) !! transactions b = Some txs
    /\ ((exists tx, first_not_valid txs tx
                    /\ Transaction.is_valid tx = Returns false)
        \/ (all_valid txs /\ hash b <> Block.digest txs b)
        \/ (all_valid txs /\ hash b = Block.digest txs b
            /\ exists pb, block_at w (i - 1) = Some pb
                          /\ previous_hash b <> hash pb)).

(** Validation reaches a transaction of the block at position [i] whose
    check raises [e]. *)
Definition block_raises (w : World) (i : nat) (e : exception) : Prop :=
  exists b txs tx,
    block_at w i = Some b
    /\ lists (heap w) !! transactions b = Some txs
    /\ first_not_valid txs tx
    /\ Transaction.is_valid tx = Raises e.

(** The body of the loop of [validate_chain] at position [i], as a function
    of the world it reads. *)
Definition check_block (w : World) (i : nat) : option (outcome bool) :=
  match block_at w i with
  | None => None
  | Some b =>
      match lists (heap w) !! transactions b with
      | None => None
      | Some txs =>
          match Block.validate_transactions_loop txs with
          | Raises e => Some (Raises e)
          | Returns false => Some (Returns false)
          | Returns true =>
              if negb (String.eqb (hash b) (Block.digest txs b))
              then Some (Returns false)
              else
                match block_at w (i - 1) with
                | None => None
                | Some pb =>
                    Some (Returns (String.eqb (previous_hash b) (hash pb)))
                end
          end
      end
  end.

(** *** The invariant of the chain and the reachable worlds *)

(** The invariant that the specification states for a chain: the previous
    hash of the first block is empty, every later block carries the stored
    hash of the block before it, every stored hash is the recomputed one,
    and every transaction with a sender, in every block, is valid. *)
Definition chain_invariant (w : World) : Prop :=
  (exists g, block_at w 0 = Some g /\ previous_hash g = EmptyString)
  /\ (forall i, (1 <= i < length (chain (self w)))%nat ->
                exists b pb,
                  block_at w i = Some b
                  /\ block_at w (i - 1) = Some pb
                  /\ previous_hash b = hash pb)
  /\ (forall i, (i < length (chain (self w)))%nat ->
                exists b txs,
                  block_at w i = Some b
                  /\ lists (heap w) !! transactions b = Some txs
                  /\ hash b = Block.digest txs b)
  /\ (forall i b txs tx,
         block_at w i = Some b ->
         lists (heap w) !! transactions b = Some txs ->
         In tx txs ->
         from_address tx <> None ->
         Transaction.is_valid tx = Returns true).

(** A world right after [Chain(difficulty)], built in a store that holds
    whatever objects the caller created before. *)
Definition freshly_constructed (w : World) : Prop :=
  exists d now h c h',
    Chain.__init__ d now h = Some (Returns c, h')
    /\ w = {| self := c; heap := h' |}.

(** One call of [add_transaction], [mine_transaction_pool] or
    [add_block_to_chain], returning or raising, or the creation by the
    caller of a list or of a block ([Block(transactions, previous_hash)]) to
    hand over later.  [allowed] says which block objects the caller passes
    to [add_block_to_chain]. *)
Inductive step (allowed : World -> loc -> Prop) : World -> World -> Prop :=
| step_new_list (w : World) l :
    step allowed w (after (on_heap (new_list l)) w)
| step_new_block (w w' : World) p previous_hash now o :
    on_heap (Block.__init__ p previous_hash now) w = Some (o, w') ->
    step allowed w w'
| step_add_transaction (w w' : World) tx o :
    Chain.add_transaction tx w = Some (o, w') ->
    step allowed w w'
| step_mine_transaction_pool (w w' : World) addr now fuel o :
    Chain.mine_transaction_pool addr now fuel w = Some (o, w') ->
    step allowed w w'
| step_add_block_to_chain (w w' : World) r fuel o :
    allowed w r ->
    Chain.add_block_to_chain r fuel w = Some (o, w') ->
    step allowed w w'.

Inductive reachable (allowed : World -> loc -> Prop) : World -> Prop :=
| reachable_fresh (w : World) :
    freshly_constructed w -> reachable allowed w
| reachable_step (w w' : World) :
    reachable allowed w -> step allowed w w' -> reachable allowed w'.

(** Any block object may be passed. *)
Definition any_block (w : World) (r : loc) : Prop := True.

(** The block object is not one of the chain, and its transaction list is
    not the list object of the pool. *)
Definition outside_block (w : World) (r : loc) : Prop :=
  ~ In r (chain (self w))
  /\ (forall b, blocks (heap w) !! r = Some b ->
                transactions b <> transaction_pool (self w)).

(** What holds of a block object of the chain between two calls. *)
Definition sound_block (w : World) (r : loc) : Prop :=
  exists b txs,
    blocks (heap w) !! r = Some b
    /\ lists (heap w) !! transactions b = Some txs
    /\ transactions b <> transaction_pool (self w)
    /\ hash b = Block.digest txs b
    /\ all_valid txs.

Definition linked (w : World) : Prop :=
  (exists g, block_at w 0 = Some g /\ previous_hash g = EmptyString)
  /\ (forall i, (1 <= i < length (chain (self w)))%nat ->
                exists b pb,
                  block_at w i = Some b
                  /\ block_at w (i - 1) = Some pb
                  /\ previous_hash b = hash pb).

(** The invariant that the calls preserve: the blocks of the chain are
    distinct objects, each sound and none sharing its list with the pool,
    the pool exists, and the blocks are linked. *)
Definition well_formed (w : World) : Prop :=
  NoDup (chain (self w))
  /\ Forall (sound_block w) (chain (self w))
  /\ (exists l, pool_contents w = Some l)
  /\ linked w.

(** What a call leaves in place: the block objects of the chain, the lists
    other than the pool, and a pool that is the former one or a new list. *)
Definition preserved (w w' : World) : Prop :=
  (forall r, In r (chain (self w)) ->
             blocks (heap w') !! r = blocks (heap w) !! r)
  /\ (forall p txs, p <> transaction_pool (self w) ->
                    lists (heap w) !! p = Some txs ->
                    lists (heap w') !! p = Some txs)
  /\ (transaction_pool (self w') = transaction_pool (self w)
      \/ (length (lists (heap w)) <= transaction_pool (self w'))%nat)
  /\ (exists l, pool_contents w' = Some l).

End Vocabulary.

(** ** The rest of the program: key pairs and the demonstration *)

(** The two further operations of the key library that [generate_key_pair]
    calls: [private_key.public_key()] and
    [public_key.public_bytes(Encoding.X962, PublicFormat.CompressedPoint)]. *)
Class KeyPairs `{Crypto} : Type := {
  public_key_of : private_key -> public_key;
  public_bytes : public_key -> Py.bytes
}.

(** The stand-in scheme of the examples: a public key is its encoded point. *)
Definition example_key_pairs : @KeyPairs Example.crypto :=
  {| public_key_of := Example.point_of : @private_key Example.crypto -> _;
     public_bytes := fun point : @public_key Example.crypto => point |}.

Section Program.
Context `{KeyPairs}.

(** [drawn] is the key that [ec.generate_private_key(ec.SECP256K1())]
    draws. *)
Definition generate_key_pair (drawn : private_key) : private_key * string :=
  let private_key := drawn in
  let public_key := public_key_of private_key in
  let public_bytes := public_bytes public_key in
  (private_key, Py.hex public_bytes).

(** A method of a local object, run from a method of the chain: the object
    it leaves is returned. *)
Definition on_object {S W A} (c : M S A) (s : S) : M W S :=
  fun w =>
    match c s with
    | Some (Returns _, s') => Some (Returns s', w)
    | Some (Raises e, _) => Some (Raises e, w)
    | None => None
    end.

(** What follows the construction of the chain in the block under
    [if __name__ == "__main__"]; the values printed at the end are
    returned. *)
Definition main_body (drawn1 drawn2 drawn3 : private_key) (k : entropy)
    (now : Z) (fuel : nat) : M World (bool * nat * string) :=
  let '(private_key1, address1) := generate_key_pair drawn1 in
  let '(private_key2, address2) := generate_key_pair drawn2 in
  let miner_address := snd (generate_key_pair drawn3) in
  transaction1 <~ on_object (Transaction.sign private_key1 k)
                    (Transaction.__init__ (Some address1) (Some address2) 100) ;;
  Chain.add_transaction transaction1 ;;;
  Chain.mine_transaction_pool miner_address now fuel ;;;
  is_valid <~ Chain.validate_chain ;;
  blockchain <~ get_self ;;
  latest <~ Chain.get_latest_block ;;
  latest_block <~ on_heap (load_block latest) ;;
  ret (is_valid, length (chain blockchain), hash latest_block).

(** A method of the chain object [c], run from code that holds the store
    only. *)
Definition with_chain {A} (c : Chain) (m : M World A) : M Heap A :=
  fun h =>
    match m {| self := c; heap := h |} with
    | Some (o, w) => Some (o, heap w)
    | None => None
    end.

(** The block with the difficulty it passes to [Chain] as a parameter;
    [now0] and [now1] are the readings of the clock at the construction of
    the chain and of the mined block. *)
Definition demonstration (difficulty : Z) (drawn1 drawn2 drawn3 : private_key)
    (k : entropy) (now0 now1 : Z) (fuel : nat) : M Heap (bool * nat * string) :=
  blockchain <~ Chain.__init__ difficulty now0 ;;
  with_chain blockchain (main_body drawn1 drawn2 drawn3 k now1 fuel).

(** The block as written: [blockchain = Chain(difficulty=4)]. *)
Definition main : private_key -> private_key -> private_key -> entropy ->
                  Z -> Z -> nat -> M Heap (bool * nat * string) :=
  demonstration 4.

End Program.

(** ** Further vocabulary *)

Section FurtherVocabulary.
Context `{Crypto}.

(** The pool holds the transaction [tx], on which [is_valid] does not
    return true. *)
Definition poisoned (w : World) (tx : Transaction) : Prop :=
  exists l,
    pool_contents w = Some l
    /\ In tx l
    /\ Transaction.is_valid tx <> Returns true.

(** The interpreter prints the amounts of the transactions, the nonce and
    the timestamp of a block, and all of them in a store. *)
Definition printable_transactions (txs : list Transaction) : bool :=
  forallb (fun tx => Py.printable (amount tx)) txs.

Definition printable_block (b : Block) : bool :=
  (Py.printable (nonce b) && Py.printable (timestamp b))%bool.

Definition printable_store (h : Heap) : bool :=
  (forallb printable_transactions (lists h)
   && forallb printable_block (blocks h))%bool.


(** A call of one of the two operations on the pool. *)
Inductive pool_step : World -> World -> Prop :=
| pool_step_add (w w' : World) tx o :
    Chain.add_transaction tx w = Some (o, w') -> pool_step w w'
| pool_step_mine (w w' : World) addr now fuel o :
    Chain.mine_transaction_pool addr now fuel w = Some (o, w') ->
    pool_step w w'.

Inductive pool_steps : World -> World -> Prop :=
| pool_steps_refl (w : World) : pool_steps w w
| pool_steps_step (w w' w'' : World) :
    pool_steps w w' -> pool_step w' w'' -> pool_steps w w''.

(** The transaction [tx] with all but the last digit of its amount moved
    to the end of its recipient: recipient [r] and amount [10 * a + d]
    become recipient [r ++ str(a)] and amount [d]. *)
Definition shift_amount (tx : Transaction) (a d : Z) : Transaction :=
  {| from_address := from_address tx;
     to_address := Some (Py.str_optional (to_address tx) ++ Py.str_int a)%string;
     amount := d;
     signature := signature tx |}.

(** The block [b] with the first digit [d] of its timestamp moved to the
    end of its nonce, [t] being the rest of the timestamp. *)
Definition shift_timestamp (b : Block) (d t : Z) : Block :=
  {| transactions := transactions b;
     previous_hash := previous_hash b;
     timestamp := t;
     nonce := 10 * nonce b + d;
     hash := hash b |}.

End FurtherVocabulary.

Section DemonstrationVocabulary.
Context `{KeyPairs}.

(** The transaction that the demonstration signs and hands to the chain. *)
Definition demonstration_transaction (drawn1 drawn2 : private_key)
    (k : entropy) : Transaction :=
  let transaction1 :=
    Transaction.__init__ (Some (snd (generate_key_pair drawn1)))
                         (Some (snd (generate_key_pair drawn2))) 100 in
  set_signature transaction1
    (Some (ecdsa_sign drawn1 k
             (Py.encode (Transaction.compute_hash transaction1)))).

(** The hash of the block that the demonstration mines, run in the store
    [h], when the nonce of that block is [n]. *)
Definition demonstration_hash (drawn1 drawn2 drawn3 : private_key)
    (k : entropy) (now0 now1 : Z) (h : Heap) (n : Z) : string :=
  let genesis_block :=
    {| transactions := length (lists h); previous_hash := EmptyString;
       timestamp := now0; nonce := 1; hash := EmptyString |} in
  Block.digest
    [demonstration_transaction drawn1 drawn2 k;
     Transaction.__init__ None (Some (snd (generate_key_pair drawn3))) 50]
    {| transactions := S (length (lists h));
       previous_hash := Block.digest [] genesis_block;
       timestamp := now1; nonce := n; hash := EmptyString |}.

End DemonstrationVocabulary.

(** ** Further objects of the examples *)

Module Scenario.
Section Objects.
Local Existing Instance Example.crypto.

(** The keys of the examples, as private keys of the stand-in scheme. *)
Definition drawn1 : @private_key Example.crypto := Demo.key1.
Definition drawn2 : @private_key Example.crypto := Demo.key2.
Definition drawn3 : @private_key Example.crypto := Demo.key3.



(** The block that [mine_transaction_pool] appended in [Demo.w2]. *)
Definition mined_block : Block := nth 1 (blocks (heap Demo.w2)) Demo.no_block.

(** A reward of a million, and a block of two of them that the caller
    builds next to a new chain of difficulty 0 and hands to
    [add_block_to_chain]. *)
Definition bonus : Transaction :=
  Transaction.__init__ None (Some Demo.miner_address) 1000000.
Definition b1 : World := after (on_heap (new_list [bonus; bonus])) Demo.a0.
Definition b2 : World :=
  after (on_heap (Block.__init__ 2%nat EmptyString Demo.t3)) b1.

(** The transfer with its amount 100 read as the recipient followed by 10,
    and the amount 0. *)
Definition shifted : Transaction := shift_amount Demo.transfer 10 0.

End Objects.
End Scenario.

(** * Properties *)

(** ** Inversion of the monad *)

Lemma bind_Some {S A B} (c : M S A) (k : A -> M S B) s o s' :
  bind c k s = Some (o, s') ->
  (exists a s1, c s = Some (Returns a, s1) /\ k a s1 = Some (o, s'))
  \/ (exists e, c s = Some (Raises e, s') /\ o = Raises e).
Proof.
  unfold bind. destruct (c s) as [[[a|e] s1]|]; intros Hk.
  - left. eauto.
  - right. inversion Hk; subst. eauto.
  - discriminate.
Qed.

Lemma bind_Returns {S A B} (c : M S A) (k : A -> M S B) s a s1 :
  c s = Some (Returns a, s1) -> bind c k s = k a s1.
Proof. intros Hc. unfold bind. now rewrite Hc. Qed.

Lemma bind_Raises {S A B} (c : M S A) (k : A -> M S B) s e s1 :
  c s = Some (Raises e, s1) -> bind c k s = Some (Raises e, s1).
Proof. intros Hc. unfold bind. now rewrite Hc. Qed.

Lemma bind_None {S A B} (c : M S A) (k : A -> M S B) s :
  c s = None -> bind c k s = None.
Proof. intros Hc. unfold bind. now rewrite Hc. Qed.

Section Properties.
Context `{Crypto}.

(** ** Transaction *)

Lemma sign_Returns (key : private_key) (k : entropy) (tx : Transaction) :
  Transaction.sign key k tx =
  Some (Returns tt,
        set_signature tx
          (Some (ecdsa_sign key k (Py.encode (Transaction.compute_hash tx))))).
Proof. reflexivity. Qed.

(** The hash of a transaction does not read its signature. *)
Lemma compute_hash_set_signature (tx : Transaction) s :
  Transaction.compute_hash (set_signature tx s) = Transaction.compute_hash tx.
Proof. reflexivity. Qed.

Lemma is_valid_Raises (tx : Transaction) e :
  Transaction.is_valid tx = Raises e ->
  e = MissingSignatureError
  /\ from_address tx <> None
  /\ Py.truthy_bytes (signature tx) = false.
Proof.
  unfold Transaction.is_valid.
  destruct (from_address tx) as [a|]; [|discriminate].
  destruct (signature tx) as [[|b s]|].
  - intros [= <-]. auto.
  - destruct (Py.fromhex a) as [pt|]; [|discriminate].
    destruct (from_encoded_point pt) as [pk|]; [|discriminate].
    destruct (ecdsa_verify pk (b :: s) _); discriminate.
  - intros [= <-]. auto.
Qed.

Lemma is_valid_unsigned (tx : Transaction) :
  from_address tx <> None ->
  Py.truthy_bytes (signature tx) = false ->
  Transaction.is_valid tx = Raises MissingSignatureError.
Proof.
  unfold Transaction.is_valid. intros Hfrom Hsig.
  destruct (from_address tx) as [a|]; [|congruence].
  destruct (signature tx) as [[|b s]|]; try reflexivity. discriminate.
Qed.

Lemma is_valid_true_signed (tx : Transaction) :
  Transaction.is_valid tx = Returns true ->
  from_address tx <> None ->
  Py.truthy_bytes (signature tx) = true.
Proof.
  unfold Transaction.is_valid. intros Hv Hfrom.
  destruct (from_address tx) as [a|]; [|congruence].
  destruct (signature tx) as [[|b s]|]; try discriminate. reflexivity.
Qed.

Lemma is_valid_signed (tx : Transaction) a s :
  from_address tx = Some a ->
  signature tx = Some s ->
  s <> [] ->
  exists b, Transaction.is_valid tx = Returns b /\ (b = true <-> verifies a s tx).
Proof.
  unfold Transaction.is_valid, verifies. intros -> -> Hs.
  destruct s as [|x s]; [congruence|].
  destruct (Py.fromhex a) as [pt|] eqn:Hhex.
  2:{ exists false. split; [reflexivity|]. split; [discriminate|].
      intros (pt' & pk' & Hpt & _). discriminate. }
  destruct (from_encoded_point pt) as [pk|] eqn:Hdec.
  2:{ exists false. split; [reflexivity|]. split; [discriminate|].
      intros (pt' & pk' & Hpt & Hpk & _). congruence. }
  destruct (ecdsa_verify pk (x :: s) _) eqn:Hv.
  - exists true. split; [reflexivity|]. split; [|reflexivity]. intros _. eauto.
  - exists false. split; [reflexivity|]. split; [discriminate|].
    intros (pt' & pk' & Hpt & Hpk & Hv'). congruence.
Qed.

(** C4 (amended): [sign] does not look at the signature field.  On a
    transaction whose amount the interpreter prints, and whether the
    signature is absent or already set, it returns and stores the signature
    computed over the hash of the transaction, replacing the one that was
    there; a second call on a signed transaction is such a call.  (On an
    amount of more than 4300 digits the f-string of [compute_hash] raises
    [ValueError] before anything is stored, which the model does not
    show.) *)
Theorem C4_sign_overwrites (key : private_key) (k : entropy) (tx : Transaction) :
  Py.printable (amount tx) = true ->
  exists tx',
    Transaction.sign key k tx = Some (Returns tt, tx')
    /\ signature tx'
       = Some (ecdsa_sign key k (Py.encode (Transaction.compute_hash tx)))
    /\ from_address tx' = from_address tx
    /\ to_address tx' = to_address tx
    /\ amount tx' = amount tx
    /\ forall key' k',
        exists tx'',
          Transaction.sign key' k' tx' = Some (Returns tt, tx'')
          /\ signature tx''
             = Some (ecdsa_sign key' k'
                       (Py.encode (Transaction.compute_hash tx)))
          /\ from_address tx'' = from_address tx
          /\ to_address tx'' = to_address tx
          /\ amount tx'' = amount tx.
Proof.
  intros _.
  eexists. split; [apply sign_Returns|]. repeat split.
  intros key' k'. eexists. split; [apply sign_Returns|].
  split; [simpl; rewrite compute_hash_set_signature; reflexivity|].
  repeat split.
Qed.

(** C5: [is_valid] returns true when the sender is absent; with a sender
    and no signature ([None] or the empty byte string, the two values that
    [not self.signature] accepts) it raises the missing-signature error;
    with a sender and a signature it returns a boolean, which is true
    exactly when the address decodes to a public key under which the
    signature verifies over the hash, and false on a malformed address or
    a signature mismatch.  The missing-signature error is its only
    failure. *)
Theorem C5_is_valid_cases (tx : Transaction) :
  (from_address tx = None -> Transaction.is_valid tx = Returns true)
  /\ (forall a, from_address tx = Some a ->
                signature tx = None \/ signature tx = Some [] ->
                Transaction.is_valid tx = Raises MissingSignatureError)
  /\ (forall a s, from_address tx = Some a ->
                  signature tx = Some s -> s <> [] ->
                  exists b, Transaction.is_valid tx = Returns b
                            /\ (b = true <-> verifies a s tx))
  /\ (forall e, Transaction.is_valid tx = Raises e ->
                e = MissingSignatureError
                /\ from_address tx <> None
                /\ (signature tx = None \/ signature tx = Some [])).
Proof.
  split; [|split; [|split]].
  - intros Hfrom. unfold Transaction.is_valid. now rewrite Hfrom.
  - intros a Hfrom Hsig. apply is_valid_unsigned; [congruence|].
    destruct Hsig as [-> | ->]; reflexivity.
  - intros a s. apply is_valid_signed.
  - intros e He. apply is_valid_Raises in He as (He & Hfrom & Hsig).
    split; [exact He|]. split; [exact Hfrom|].
    destruct (signature tx) as [[|b s]|]; auto. discriminate.
Qed.

(** ** Block *)

Lemma with_block_lookup (h : Heap) r b b' :
  blocks h !! r = Some b -> blocks (with_block h r b') !! r = Some b'.
Proof.
  intros Hb. unfold with_block; simpl.
  apply list_lookup_insert_eq. eapply lookup_lt_Some; eauto.
Qed.

Lemma with_block_lookup_ne (h : Heap) r r' b' :
  r <> r' -> blocks (with_block h r b') !! r' = blocks h !! r'.
Proof. intros Hne. unfold with_block; simpl. now apply list_lookup_insert_ne. Qed.

Lemma with_block_twice (h : Heap) r b1 b2 :
  with_block (with_block h r b1) r b2 = with_block h r b2.
Proof. unfold with_block; simpl. now rewrite list_insert_insert_eq. Qed.

Lemma compute_hash_eq (h : Heap) r b txs :
  blocks h !! r = Some b ->
  lists h !! transactions b = Some txs ->
  Block.compute_hash r h = Some (Returns (Block.digest txs b), h).
Proof.
  intros Hb Ht. unfold Block.compute_hash, bind, load_block, load_list, of_reference.
  now rewrite Hb, Ht.
Qed.

Lemma assign_hash_eq (h : Heap) r b x :
  blocks h !! r = Some b ->
  Block.assign_hash r x h = Some (Returns tt, with_block h r (set_hash b x)).
Proof.
  intros Hb. unfold Block.assign_hash, bind, load_block, of_reference.
  now rewrite Hb.
Qed.

Lemma increment_nonce_eq (h : Heap) r b :
  blocks h !! r = Some b ->
  Block.increment_nonce r h
  = Some (Returns tt, with_block h r (set_nonce b (nonce b + 1))).
Proof.
  intros Hb. unfold Block.increment_nonce, bind, load_block, of_reference.
  now rewrite Hb.
Qed.

Lemma assign_previous_hash_eq (h : Heap) r b x :
  blocks h !! r = Some b ->
  Block.assign_previous_hash r x h
  = Some (Returns tt, with_block h r (set_previous_hash b x)).
Proof.
  intros Hb. unfold Block.assign_previous_hash, bind, load_block, of_reference.
  now rewrite Hb.
Qed.

(** One turn of the mining loop. *)
Lemma mine_loop_step (h : Heap) r d fuel b txs :
  blocks h !! r = Some b ->
  lists h !! transactions b = Some txs ->
  Block.mine_loop r d (S fuel) h
  = if meets_target (Block.digest txs b) d
    then Some (Returns tt, with_block h r (mined txs b (nonce b)))
    else Block.mine_loop r d fuel (with_block h r (mined txs b (nonce b + 1))).
Proof.
  intros Hb Ht. cbn [Block.mine_loop].
  rewrite (bind_Returns _ _ _ _ _ (compute_hash_eq h r b txs Hb Ht)).
  rewrite (bind_Returns _ _ _ _ _ (assign_hash_eq h r b _ Hb)).
  unfold meets_target.
  destruct (String.eqb _ _); cbn [negb]; [reflexivity|].
  pose proof (with_block_lookup h r b (set_hash b (Block.digest txs b)) Hb) as Hb1.
  rewrite (bind_Returns _ _ _ _ _ (increment_nonce_eq _ r _ Hb1)).
  rewrite with_block_twice.
  set (b2 := set_nonce (set_hash b (Block.digest txs b))
                       (nonce (set_hash b (Block.digest txs b)) + 1)).
  pose proof (with_block_lookup h r b b2 Hb) as Hb2.
  assert (Ht2 : lists (with_block h r b2) !! transactions b2 = Some txs) by exact Ht.
  rewrite (bind_Returns _ _ _ _ _ (compute_hash_eq _ r b2 txs Hb2 Ht2)).
  rewrite (bind_Returns _ _ _ _ _ (assign_hash_eq _ r b2 _ Hb2)).
  rewrite with_block_twice. reflexivity.
Qed.

Lemma mine_loop_inv (fuel : nat) : forall (h : Heap) r d b txs o h',
  blocks h !! r = Some b ->
  lists h !! transactions b = Some txs ->
  Block.mine_loop r d fuel h = Some (o, h') ->
  exists n,
    nonce b <= n
    /\ o = Returns tt
    /\ h' = with_block h r (mined txs b n)
    /\ meets_target (hash (mined txs b n)) d = true
    /\ (forall m, nonce b <= m < n ->
                 meets_target (Block.digest txs (set_nonce b m)) d = false).
Proof.
  induction fuel as [|fuel IH]; intros h r d b txs o h' Hb Ht Hrun.
  - discriminate.
  - rewrite (mine_loop_step h r d fuel b txs Hb Ht) in Hrun.
    destruct (meets_target (Block.digest txs b) d) eqn:Htarget.
    + inversion Hrun; subst. exists (nonce b).
      repeat split; [lia | exact Htarget | intros m Hm; lia].
    + set (b1 := mined txs b (nonce b + 1)) in *.
      pose proof (with_block_lookup h r b b1 Hb) as Hb1.
      assert (Ht1 : lists (with_block h r b1) !! transactions b1 = Some txs)
        by exact Ht.
      destruct (IH _ _ _ _ _ _ _ Hb1 Ht1 Hrun) as (n & Hn & Ho & Hh & Hmeets & Hbelow).
      exists n. cbn [nonce b1 mined] in Hn.
      repeat split.
      * lia.
      * exact Ho.
      * rewrite Hh, with_block_twice. reflexivity.
      * exact Hmeets.
      * intros m Hm. destruct (Z.eq_dec m (nonce b)) as [->|Hne].
        -- exact Htarget.
        -- apply (Hbelow m). cbn [nonce b1 mined]. lia.
Qed.

Lemma validate_transactions_eq (h : Heap) r b txs :
  blocks h !! r = Some b ->
  lists h !! transactions b = Some txs ->
  Block.validate_transactions r h = Some (Block.validate_transactions_loop txs, h).
Proof.
  intros Hb Ht.
  unfold Block.validate_transactions, bind, load_block, load_list, of_reference,
    of_outcome.
  now rewrite Hb, Ht.
Qed.

Lemma validate_transactions_Some (h : Heap) r o h' :
  Block.validate_transactions r h = Some (o, h') ->
  exists b txs, blocks h !! r = Some b /\ lists h !! transactions b = Some txs.
Proof.
  unfold Block.validate_transactions, bind, load_block, load_list, of_reference.
  destruct (blocks h !! r) as [b|] eqn:Hb; [|discriminate].
  destruct (lists h !! transactions b) as [txs|] eqn:Ht; [|discriminate].
  intros _. eauto.
Qed.

(** What [mine] does, by outcome. *)
Lemma mine_inv (h : Heap) r d fuel o h' :
  Block.mine r d fuel h = Some (o, h') ->
  exists b txs,
    blocks h !! r = Some b
    /\ lists h !! transactions b = Some txs
    /\ ((exists e, o = Raises e /\ h' = h
                   /\ (Block.validate_transactions_loop txs = Raises e
                       \/ (Block.validate_transactions_loop txs = Returns false
                           /\ e = ValueError tampered_transaction)))
        \/ (o = Returns tt
            /\ Block.validate_transactions_loop txs = Returns true
            /\ exists n,
                nonce b <= n
                /\ h' = with_block h r (mined txs b n)
                /\ meets_target (hash (mined txs b n)) d = true
                /\ (forall m, nonce b <= m < n ->
                       meets_target (Block.digest txs (set_nonce b m)) d = false))).
Proof.
  unfold Block.mine. intros Hrun.
  destruct (Block.validate_transactions r h) as [[o1 h1]|] eqn:Hval.
  2:{ rewrite (bind_None _ _ _ Hval) in Hrun. discriminate. }
  destruct (validate_transactions_Some _ _ _ _ Hval) as (b & txs & Hb & Ht).
  rewrite (validate_transactions_eq h r b txs Hb Ht) in Hval.
  inversion Hval; subst o1 h1; clear Hval.
  exists b, txs. split; [exact Hb|]. split; [exact Ht|].
  unfold bind in Hrun. rewrite (validate_transactions_eq h r b txs Hb Ht) in Hrun.
  destruct (Block.validate_transactions_loop txs) as [[|]|e].
  - cbn [negb] in Hrun. right.
    destruct (mine_loop_inv _ _ _ _ _ _ _ _ Hb Ht Hrun) as (n & ? & ? & ? & ? & ?).
    split; [assumption|]. split; [reflexivity|]. exists n. auto.
  - cbn [negb] in Hrun. left. inversion Hrun; subst.
    exists (ValueError tampered_transaction). auto.
  - left. inversion Hrun; subst. exists e. auto.
Qed.

Lemma substring_zero (s : string) : substring 0 0 s = EmptyString.
Proof. destruct s; reflexivity. Qed.

Lemma meets_target_zero (s : string) : meets_target s 0 = true.
Proof.
  unfold meets_target, Py.slice_to, Block.get_answer, Py.repeat.
  cbn. rewrite Z.min_l by lia. cbn. now rewrite substring_zero.
Qed.

Lemma prefix_of_zeros (k : nat) : forall (m : nat) (s : string),
  substring 0 k s = Py.repeat_nat "0" m ->
  (k <= m)%nat ->
  k = m /\ (m <= leading_zeros s)%nat.
Proof.
  induction k as [|k IH]; intros m s Heq Hle.
  - rewrite substring_zero in Heq. destruct m; [split; lia | discriminate].
  - destruct s as [|c s]; cbn in Heq.
    + destruct m; [lia | discriminate].
    + destruct m as [|m]; [lia|]. cbn in Heq. injection Heq as Hc Hrest.
      destruct (IH m s Hrest ltac:(lia)) as [-> Hz].
      split; [reflexivity|]. cbn [leading_zeros]. subst c. cbn. lia.
Qed.

Lemma meets_target_leading_zeros (s : string) (d : Z) :
  meets_target s d = true -> d <= Z.of_nat (leading_zeros s).
Proof.
  unfold meets_target, Py.slice_to, Block.get_answer, Py.repeat.
  intros Heq. apply String.eqb_eq in Heq.
  destruct (Z.ltb_spec d 0) as [Hneg|Hpos]; [lia|].
  apply prefix_of_zeros in Heq; [lia | lia].
Qed.

(** With difficulty 0 the loop stops at its first test. *)
Lemma mine_zero (h : Heap) r fuel b txs :
  blocks h !! r = Some b ->
  lists h !! transactions b = Some txs ->
  Block.validate_transactions_loop txs = Returns true ->
  Block.mine r 0 (S fuel) h
  = Some (Returns tt, with_block h r (mined txs b (nonce b))).
Proof.
  intros Hb Ht Hval. unfold Block.mine.
  rewrite (bind_Returns _ _ _ true h).
  2:{ rewrite (validate_transactions_eq h r b txs Hb Ht). now rewrite Hval. }
  cbn [negb]. rewrite (mine_loop_step h r 0 fuel b txs Hb Ht).
  now rewrite meets_target_zero.
Qed.

(** C6: when [mine] returns, the stored hash of the block has at least
    [difficulty] leading zeros and is the hash recomputed over the
    transactions, previous hash, nonce and timestamp that the block then
    holds.  With difficulty 0 and valid transactions, [mine] returns as soon
    as the loop has run once: the first hash computed is kept and the nonce
    is the one the block had. *)
Theorem C6_mine_terminal (h : Heap) (r : loc) :
  (forall d fuel h',
      Block.mine r d fuel h = Some (Returns tt, h') ->
      exists b' txs,
        blocks h' !! r = Some b'
        /\ lists h' !! transactions b' = Some txs
        /\ d <= Z.of_nat (leading_zeros (hash b'))
        /\ hash b' = Block.digest txs b'
        /\ Block.compute_hash r h' = Some (Returns (hash b'), h'))
  /\ (forall b txs fuel,
        blocks h !! r = Some b ->
        lists h !! transactions b = Some txs ->
        Block.validate_transactions_loop txs = Returns true ->
        exists b',
          Block.mine r 0 (S fuel) h = Some (Returns tt, with_block h r b')
          /\ nonce b' = nonce b
          /\ hash b' = Block.digest txs b).
Proof.
  split.
  - intros d fuel h' Hrun.
    destruct (mine_inv _ _ _ _ _ _ Hrun) as (b & txs & Hb & Ht & [Hraise | Hret]).
    { destruct Hraise as (e & He & _). discriminate. }
    destruct Hret as (_ & _ & n & _ & -> & Hmeets & _).
    pose proof (with_block_lookup h r b (mined txs b n) Hb) as Hb'.
    exists (mined txs b n), txs.
    split; [exact Hb'|]. split; [exact Ht|].
    split; [now apply meets_target_leading_zeros|].
    split; [reflexivity|].
    now rewrite (compute_hash_eq _ r _ txs Hb' Ht).
  - intros b txs fuel Hb Ht Hval. exists (mined txs b (nonce b)).
    split; [now apply mine_zero|]. split; reflexivity.
Qed.

(** ** Chain *)

Lemma add_transaction_eq (tx : Transaction) (w : World) :
  Chain.add_transaction tx w
  = if (negb (Py.truthy_str (from_address tx))
        || negb (Py.truthy_str (to_address tx)))%bool
    then Some (Raises InvalidAddressError, w)
    else match Transaction.is_valid tx with
         | Raises e => Some (Raises e, w)
         | Returns false => Some (Raises InvalidTransactionError, w)
         | Returns true =>
             match pool_contents w with
             | Some l => Some (Returns tt,
                               with_heap w (with_list (heap w)
                                              (transaction_pool (self w)) (l ++ [tx])))
             | None => None
             end
         end.
Proof.
  unfold Chain.add_transaction.
  destruct (negb _ || negb _)%bool; [reflexivity|].
  unfold bind, of_outcome, pool_contents.
  destruct (Transaction.is_valid tx) as [[|]|e]; cbn [negb]; try reflexivity.
  unfold get_self, on_heap, list_append.
  destruct (lists (heap w) !! transaction_pool (self w)); reflexivity.
Qed.

Lemma get_latest_block_eq (w : World) :
  Chain.get_latest_block w
  = match chain (self w) !! (length (chain (self w)) - 1)%nat with
    | Some r => Some (Returns r, w)
    | None => Some (Raises IndexError, w)
    end.
Proof.
  unfold Chain.get_latest_block, bind, get_self.
  destruct (chain (self w) !! _); reflexivity.
Qed.

Lemma on_heap_eq {A} (c : M Heap A) (w : World) :
  on_heap c w
  = match c (heap w) with
    | Some (o, h') => Some (o, with_heap w h')
    | None => None
    end.
Proof. reflexivity. Qed.

Lemma block_init_eq (h : Heap) (p : loc) (prev : string) (now : Z) txs :
  lists h !! p = Some txs ->
  Block.__init__ p prev now h
  = Some (Returns (length (blocks h)),
          {| blocks := blocks h
                       ++ [mined txs {| transactions := p; previous_hash := prev;
                                        timestamp := now; nonce := 1;
                                        hash := EmptyString |} 1];
             lists := lists h |}).
Proof.
  intros Hp. unfold Block.__init__.
  set (b0 := {| transactions := p; previous_hash := prev; timestamp := now;
                nonce := 1; hash := EmptyString |}).
  set (h1 := {| blocks := blocks h ++ [b0]; lists := lists h |}).
  assert (Hb : blocks h1 !! length (blocks h) = Some b0)
    by (apply list_lookup_middle; reflexivity).
  assert (Ht : lists h1 !! transactions b0 = Some txs) by exact Hp.
  rewrite (bind_Returns _ _ h (length (blocks h)) h1) by reflexivity.
  rewrite (bind_Returns _ _ _ _ _ (compute_hash_eq h1 _ b0 txs Hb Ht)).
  rewrite (bind_Returns _ _ _ _ _ (assign_hash_eq h1 _ b0 _ Hb)).
  unfold ret, with_block, h1. cbn [blocks lists].
  rewrite insert_app_r_alt by lia. rewrite Nat.sub_diag. reflexivity.
Qed.

Lemma mine_transaction_pool_eq (addr : string) (now : Z) (fuel : nat) (w : World)
    l latest latest_block :
  pool_contents w = Some l ->
  chain (self w) !! (length (chain (self w)) - 1)%nat = Some latest ->
  blocks (heap w) !! latest = Some latest_block ->
  let txs := l ++ [coinbase w addr] in
  let r := length (blocks (heap w)) in
  let h3 := {| blocks := blocks (heap w) ++ [candidate w txs latest_block now];
               lists := <[transaction_pool (self w) := txs]> (lists (heap w)) |} in
  Chain.mine_transaction_pool addr now fuel w
  = match Block.mine r (difficulty (self w)) fuel h3 with
    | Some (Returns _, h4) =>
        Some (Returns tt,
              {| self := set_transaction_pool
                           (set_chain (self w) (chain (self w) ++ [r]))
                           (length (lists h4));
                 heap := {| blocks := blocks h4; lists := lists h4 ++ [[]] |} |})
    | Some (Raises e, h4) => Some (Raises e, with_heap w h4)
    | None => None
    end.
Proof.
  intros Hpool Hlast Hlb txs r h3. unfold pool_contents in Hpool.
  unfold Chain.mine_transaction_pool.
  rewrite (bind_Returns _ _ w (self w) w) by reflexivity.
  set (w1 := with_heap w (with_list (heap w) (transaction_pool (self w)) txs)).
  rewrite (bind_Returns _ _ w tt w1).
  2:{ rewrite on_heap_eq. unfold list_append. now rewrite Hpool. }
  rewrite (bind_Returns _ _ w1 latest w1).
  2:{ rewrite get_latest_block_eq. cbn [w1 with_heap self]. now rewrite Hlast. }
  rewrite (bind_Returns _ _ w1 latest_block w1).
  2:{ rewrite on_heap_eq. unfold load_block, of_reference.
      cbn [w1 with_heap with_list heap blocks]. now rewrite Hlb. }
  assert (Htxs : lists (heap w1) !! transaction_pool (self w) = Some txs).
  { cbn [w1 with_heap with_list heap lists].
    apply list_lookup_insert_eq. eapply lookup_lt_Some; eauto. }
  rewrite (bind_Returns _ _ w1 r (with_heap w h3)).
  2:{ rewrite on_heap_eq. rewrite (block_init_eq _ _ _ _ txs Htxs). reflexivity. }
  unfold bind at 1. rewrite on_heap_eq. cbn [with_heap heap self].
  destruct (Block.mine r (difficulty (self w)) fuel h3) as [[[[]|e] h4]|];
    reflexivity.
Qed.

Lemma with_block_last (bs : list Block) ls b0 b' :
  with_block {| blocks := bs ++ [b0]; lists := ls |} (length bs) b'
  = {| blocks := bs ++ [b']; lists := ls |}.
Proof.
  unfold with_block; cbn [blocks lists].
  rewrite insert_app_r_alt by lia. now rewrite Nat.sub_diag.
Qed.

Lemma last_lookup_None {A} (l : list A) :
  l !! (length l - 1)%nat = None -> l = [].
Proof.
  intros Hl. apply lookup_ge_None in Hl.
  destruct l; [reflexivity | cbn in Hl; lia].
Qed.

(** What [mine_transaction_pool] does, by outcome. *)
Lemma mine_transaction_pool_inv (addr : string) (now : Z) (fuel : nat)
    (w : World) o w' :
  Chain.mine_transaction_pool addr now fuel w = Some (o, w') ->
  exists l,
    pool_contents w = Some l
    /\ let txs := l ++ [coinbase w addr] in
       let p := transaction_pool (self w) in
       (o = Raises IndexError
        /\ chain (self w) = []
        /\ w' = with_heap w (with_list (heap w) p txs))
       \/ (exists latest latest_block,
              chain (self w) !! (length (chain (self w)) - 1)%nat = Some latest
              /\ blocks (heap w) !! latest = Some latest_block
              /\ let b0 := candidate w txs latest_block now in
                 (exists e,
                     o = Raises e
                     /\ w' = with_heap w
                               {| blocks := blocks (heap w) ++ [b0];
                                  lists := <[p := txs]> (lists (heap w)) |}
                     /\ (Block.validate_transactions_loop txs = Raises e
                         \/ (Block.validate_transactions_loop txs = Returns false
                             /\ e = ValueError tampered_transaction)))
                 \/ (o = Returns tt
                     /\ Block.validate_transactions_loop txs = Returns true
                     /\ exists n,
                         1 <= n
                         /\ meets_target (hash (mined txs b0 n))
                                         (difficulty (self w)) = true
                         /\ w' = {| self := set_transaction_pool
                                              (set_chain (self w)
                                                 (chain (self w)
                                                  ++ [length (blocks (heap w))]))
                                              (length (lists (heap w)));
                                    heap := {| blocks := blocks (heap w)
                                                         ++ [mined txs b0 n];
                                               lists := <[p := txs]> (lists (heap w))
                                                        ++ [[]] |} |})).
Proof.
  intros Hrun.
  destruct (pool_contents w) as [l|] eqn:Hpool.
  2:{ exfalso. unfold Chain.mine_transaction_pool in Hrun.
      rewrite (bind_Returns _ _ w (self w) w) in Hrun by reflexivity.
      rewrite bind_None in Hrun; [discriminate|].
      rewrite on_heap_eq. unfold list_append.
      unfold pool_contents in Hpool. now rewrite Hpool. }
  exists l. split; [reflexivity|]. intros txs p.
  set (w1 := with_heap w (with_list (heap w) p txs)).
  destruct (chain (self w) !! (length (chain (self w)) - 1)%nat)
    as [latest|] eqn:Hlast.
  2:{ left. unfold Chain.mine_transaction_pool in Hrun.
      rewrite (bind_Returns _ _ w (self w) w) in Hrun by reflexivity.
      rewrite (bind_Returns _ _ w tt w1) in Hrun.
      2:{ rewrite on_heap_eq. unfold list_append.
          unfold pool_contents in Hpool. now rewrite Hpool. }
      rewrite (bind_Raises _ _ w1 IndexError w1) in Hrun.
      2:{ rewrite get_latest_block_eq. cbn [w1 with_heap self]. now rewrite Hlast. }
      inversion Hrun; subst. split; [reflexivity|].
      split; [now apply last_lookup_None | reflexivity]. }
  destruct (blocks (heap w) !! latest) as [latest_block|] eqn:Hlb.
  2:{ exfalso. unfold Chain.mine_transaction_pool in Hrun.
      rewrite (bind_Returns _ _ w (self w) w) in Hrun by reflexivity.
      rewrite (bind_Returns _ _ w tt w1) in Hrun.
      2:{ rewrite on_heap_eq. unfold list_append.
          unfold pool_contents in Hpool. now rewrite Hpool. }
      rewrite (bind_Returns _ _ w1 latest w1) in Hrun.
      2:{ rewrite get_latest_block_eq. cbn [w1 with_heap self]. now rewrite Hlast. }
      rewrite bind_None in Hrun; [discriminate|].
      rewrite on_heap_eq. unfold load_block, of_reference.
      cbn [w1 with_heap with_list heap blocks]. now rewrite Hlb. }
  right. exists latest, latest_block.
  split; [first [reflexivity | assumption]|].
  split; [first [reflexivity | assumption]|].
  intros b0.
  rewrite (mine_transaction_pool_eq addr now fuel w l latest latest_block
             Hpool Hlast Hlb) in Hrun.
  fold txs p b0 in Hrun.
  set (h3 := {| blocks := blocks (heap w) ++ [b0];
                lists := <[p := txs]> (lists (heap w)) |}) in *.
  assert (Hb0 : blocks h3 !! length (blocks (heap w)) = Some b0)
    by (apply list_lookup_middle; reflexivity).
  assert (Ht0 : lists h3 !! transactions b0 = Some txs).
  { cbn. apply list_lookup_insert_eq. eapply lookup_lt_Some; exact Hpool. }
  destruct (Block.mine _ _ fuel h3) as [[o1 h4]|] eqn:Hmine; [|discriminate].
  destruct (mine_inv _ _ _ _ _ _ Hmine) as (b & txs' & Hb & Ht & Hcases).
  pose proof (eq_trans (eq_sym Hb) Hb0) as Eb. inversion Eb; subst b; clear Eb Hb.
  pose proof (eq_trans (eq_sym Ht) Ht0) as Et. inversion Et; subst txs'; clear Et Ht.
  destruct Hcases as [(e & -> & -> & He) | (-> & Hval & n & Hn & -> & Hmeets & _)].
  - left. exists e. inversion Hrun; subst. auto.
  - right.
    pose proof (with_block_last (blocks (heap w)) (<[p:=txs]> (lists (heap w)))
                  b0 (mined txs b0 n)) as Hh4.
    fold h3 in Hh4. rewrite Hh4 in Hrun. cbn [blocks lists] in Hrun.
    rewrite length_insert in Hrun. inversion Hrun; subst.
    split; [reflexivity|]. split; [exact Hval|].
    exists n. split; [exact Hn|]. split; [exact Hmeets|]. reflexivity.
Qed.

(** What [add_block_to_chain] does, by outcome. *)
Lemma add_block_to_chain_inv (new_block : loc) (fuel : nat) (w : World) o w' :
  Chain.add_block_to_chain new_block fuel w = Some (o, w') ->
  (o = Raises IndexError /\ chain (self w) = [] /\ w' = w)
  \/ (exists latest latest_block b txs,
         chain (self w) !! (length (chain (self w)) - 1)%nat = Some latest
         /\ blocks (heap w) !! latest = Some latest_block
         /\ blocks (heap w) !! new_block = Some b
         /\ lists (heap w) !! transactions b = Some txs
         /\ let b1 := set_previous_hash b (hash latest_block) in
            (exists e,
                o = Raises e
                /\ w' = with_heap w (with_block (heap w) new_block b1)
                /\ (Block.validate_transactions_loop txs = Raises e
                    \/ (Block.validate_transactions_loop txs = Returns false
                        /\ e = ValueError tampered_transaction)))
            \/ (o = Returns tt
                /\ Block.validate_transactions_loop txs = Returns true
                /\ exists n,
                    nonce b <= n
                    /\ meets_target (hash (mined txs b1 n)) (difficulty (self w))
                       = true
                    /\ w' = {| self := set_chain (self w)
                                         (chain (self w) ++ [new_block]);
                               heap := with_block (heap w) new_block
                                         (mined txs b1 n) |})).
Proof.
  intros Hrun. unfold Chain.add_block_to_chain in Hrun.
  destruct (chain (self w) !! (length (chain (self w)) - 1)%nat)
    as [latest|] eqn:Hlast.
  2:{ left. rewrite (bind_Raises _ _ w IndexError w) in Hrun.
      2:{ rewrite get_latest_block_eq. now rewrite Hlast. }
      inversion Hrun; subst. split; [reflexivity|].
      split; [now apply last_lookup_None | reflexivity]. }
  rewrite (bind_Returns _ _ w latest w) in Hrun.
  2:{ rewrite get_latest_block_eq. now rewrite Hlast. }
  destruct (blocks (heap w) !! latest) as [latest_block|] eqn:Hlb.
  2:{ rewrite bind_None in Hrun; [discriminate|].
      rewrite on_heap_eq. unfold load_block, of_reference. now rewrite Hlb. }
  assert (Hid : with_heap w (heap w) = w) by (destruct w; reflexivity).
  rewrite (bind_Returns _ _ w latest_block w) in Hrun.
  2:{ rewrite on_heap_eq. unfold load_block, of_reference. now rewrite Hlb, Hid. }
  destruct (blocks (heap w) !! new_block) as [b|] eqn:Hb.
  2:{ rewrite bind_None in Hrun; [discriminate|].
      rewrite on_heap_eq.
      unfold Block.assign_previous_hash, bind, load_block, of_reference.
      now rewrite Hb. }
  set (b1 := set_previous_hash b (hash latest_block)).
  set (h1 := with_block (heap w) new_block b1).
  rewrite (bind_Returns _ _ w tt (with_heap w h1)) in Hrun.
  2:{ rewrite on_heap_eq. now rewrite (assign_previous_hash_eq _ _ b _ Hb). }
  rewrite (bind_Returns _ _ _ (self w) (with_heap w h1)) in Hrun by reflexivity.
  unfold bind at 1 in Hrun. rewrite on_heap_eq in Hrun.
  cbn [with_heap heap self] in Hrun.
  destruct (Block.mine new_block (difficulty (self w)) fuel h1)
    as [[o1 h4]|] eqn:Hmine; [|discriminate].
  destruct (mine_inv _ _ _ _ _ _ Hmine) as (b' & txs & Hb' & Ht & Hcases).
  pose proof (with_block_lookup (heap w) new_block b b1 Hb) as Hb1.
  pose proof (eq_trans (eq_sym Hb') Hb1) as Eb.
  inversion Eb; subst b'; clear Eb Hb'.
  right. exists latest, latest_block, b, txs.
  split; [first [reflexivity | assumption]|].
  split; [first [reflexivity | assumption]|].
  split; [first [reflexivity | assumption]|].
  split; [exact Ht|]. fold b1.
  destruct Hcases as [(e & -> & -> & He) | (-> & Hval & n & Hn & -> & Hmeets & _)].
  - left. exists e. inversion Hrun; subst. auto.
  - right. unfold h1 in Hrun. rewrite with_block_twice in Hrun.
    cbn in Hrun. inversion Hrun; subst.
    split; [reflexivity|]. split; [exact Hval|].
    exists n. split; [exact Hn|]. split; [exact Hmeets|]. reflexivity.
Qed.

Lemma add_transaction_Raises (tx : Transaction) (w : World) e w' :
  Chain.add_transaction tx w = Some (Raises e, w') -> w' = w.
Proof.
  rewrite add_transaction_eq.
  destruct (negb _ || negb _)%bool; [now intros [= _ <-]|].
  destruct (Transaction.is_valid tx) as [[|]|e']; try now intros [= _ <-].
  destruct (pool_contents w); discriminate.
Qed.

Lemma pool_contents_appended (w : World) l l' :
  pool_contents w = Some l ->
  pool_contents (with_heap w (with_list (heap w) (transaction_pool (self w)) l'))
  = Some l'.
Proof.
  unfold pool_contents. intros Hl. cbn.
  apply list_lookup_insert_eq. eapply lookup_lt_Some; exact Hl.
Qed.

(** C8: [add_transaction] raises the invalid-address error when the sender
    or the recipient is empty or absent, hence for every transaction
    without sender; with both addresses present it raises the
    invalid-transaction error when [is_valid] returns false, and when
    [is_valid] returns true it appends the transaction at the end of the
    pool and changes nothing else.  Every failure leaves the world, and so
    the pool, as it was. *)
Theorem C8_add_transaction (w : World) (tx : Transaction) :
  (Py.truthy_str (from_address tx) = false
   \/ Py.truthy_str (to_address tx) = false ->
   Chain.add_transaction tx w = Some (Raises InvalidAddressError, w))
  /\ (from_address tx = None ->
      Chain.add_transaction tx w = Some (Raises InvalidAddressError, w))
  /\ (Py.truthy_str (from_address tx) = true ->
      Py.truthy_str (to_address tx) = true ->
      Transaction.is_valid tx = Returns false ->
      Chain.add_transaction tx w = Some (Raises InvalidTransactionError, w))
  /\ (Py.truthy_str (from_address tx) = true ->
      Py.truthy_str (to_address tx) = true ->
      Transaction.is_valid tx = Returns true ->
      forall l, pool_contents w = Some l ->
      exists w',
        Chain.add_transaction tx w = Some (Returns tt, w')
        /\ pool_contents w' = Some (l ++ [tx])
        /\ self w' = self w
        /\ blocks (heap w') = blocks (heap w)
        /\ length (lists (heap w')) = length (lists (heap w))
        /\ (forall r, r <> transaction_pool (self w) ->
                      lists (heap w') !! r = lists (heap w) !! r))
  /\ (forall e w', Chain.add_transaction tx w = Some (Raises e, w') ->
                   w' = w /\ pool_contents w' = pool_contents w).
Proof.
  assert (Haddr : Py.truthy_str (from_address tx) = false
                  \/ Py.truthy_str (to_address tx) = false ->
                  Chain.add_transaction tx w = Some (Raises InvalidAddressError, w)).
  { intros Hbad. rewrite add_transaction_eq.
    destruct Hbad as [-> | ->]; cbn; [reflexivity|].
    now rewrite orb_true_r. }
  split; [exact Haddr|].
  split.
  { intros Hnone. apply Haddr. left. now rewrite Hnone. }
  split.
  { intros Hfrom Hto Hval. rewrite add_transaction_eq, Hfrom, Hto, Hval.
    reflexivity. }
  split.
  { intros Hfrom Hto Hval l Hl. rewrite add_transaction_eq, Hfrom, Hto, Hval, Hl.
    cbn [negb orb]. eexists. split; [reflexivity|].
    split; [now apply (pool_contents_appended w l)|].
    split; [reflexivity|]. split; [reflexivity|].
    split; [cbn; apply length_insert|].
    intros r Hr. cbn. now apply list_lookup_insert_ne. }
  intros e w' Hrun. apply add_transaction_Raises in Hrun. now subst.
Qed.

(** C3 (amended): a call of [add_transaction] that raises leaves the world
    as it was.  A call of [mine_transaction_pool] that raises leaves the
    chain, its settings and every block object as they were, so the block
    that failed is not appended; the pool is not restored: it is the same
    list object and keeps the reward transaction appended before mining. *)
Theorem C3_failure_effects (w : World) :
  (forall tx e w',
      Chain.add_transaction tx w = Some (Raises e, w') -> w' = w)
  /\ (forall addr now fuel e w',
        Chain.mine_transaction_pool addr now fuel w = Some (Raises e, w') ->
        self w' = self w
        /\ (forall r b, blocks (heap w) !! r = Some b ->
                        blocks (heap w') !! r = Some b)
        /\ (forall r, r <> transaction_pool (self w) ->
                      lists (heap w') !! r = lists (heap w) !! r)
        /\ exists l,
            pool_contents w = Some l
            /\ pool_contents w' = Some (l ++ [coinbase w addr])).
Proof.
  split.
  { intros tx e w'. apply add_transaction_Raises. }
  intros addr now fuel e w' Hrun.
  destruct (mine_transaction_pool_inv _ _ _ _ _ _ Hrun) as (l & Hl & Hcases).
  cbv zeta in Hcases.
  destruct Hcases as [(_ & _ & ->) | (latest & lb & _ & _ & Hmine)].
  - split; [reflexivity|]. split; [auto|].
    split; [intros r Hr; cbn; now apply list_lookup_insert_ne|].
    exists l. split; [exact Hl|]. now apply (pool_contents_appended w l).
  - cbv zeta in Hmine.
    destruct Hmine as [(e' & _ & -> & _) | (Ho & _)]; [|discriminate].
    split; [reflexivity|].
    split.
    { intros r b Hb. cbn. rewrite lookup_app_l; [exact Hb|].
      eapply lookup_lt_Some; exact Hb. }
    split; [intros r Hr; cbn; now apply list_lookup_insert_ne|].
    exists l. split; [exact Hl|].
    unfold pool_contents. cbn. apply list_lookup_insert_eq.
    eapply lookup_lt_Some; exact Hl.
Qed.

(** C7: a call of [mine_transaction_pool] that returns appends one block,
    a new object, to the chain.  The transaction list of the block holds
    what the pool held, in the same order, followed by one reward
    transaction without sender, to the reward address, of the reward amount
    of the chain.  The block carries the hash of the former head as its
    previous hash, the chain is one longer, the pool is a new empty list,
    and the blocks that existed are untouched. *)
Theorem C7_mine_transaction_pool (w : World) (addr : string) (now : Z)
    (fuel : nat) (w' : World) :
  Chain.mine_transaction_pool addr now fuel w = Some (Returns tt, w') ->
  exists l head r b,
    pool_contents w = Some l
    /\ block_at w (length (chain (self w)) - 1) = Some head
    /\ r = length (blocks (heap w))
    /\ chain (self w') = chain (self w) ++ [r]
    /\ length (chain (self w')) = S (length (chain (self w)))
    /\ blocks (heap w') !! r = Some b
    /\ lists (heap w') !! transactions b = Some (l ++ [coinbase w addr])
    /\ from_address (coinbase w addr) = None
    /\ to_address (coinbase w addr) = Some addr
    /\ amount (coinbase w addr) = miner_reward (self w)
    /\ previous_hash b = hash head
    /\ pool_contents w' = Some []
    /\ transaction_pool (self w') <> transactions b
    /\ (forall r' b', blocks (heap w) !! r' = Some b' ->
                      blocks (heap w') !! r' = Some b')
    /\ miner_reward (self w') = miner_reward (self w)
    /\ difficulty (self w') = difficulty (self w).
Proof.
  intros Hrun.
  destruct (mine_transaction_pool_inv _ _ _ _ _ _ Hrun) as (l & Hl & Hcases).
  cbv zeta in Hcases.
  destruct Hcases as [(Ho & _) | (latest & lb & Hlast & Hlb & Hmine)];
    [discriminate|].
  cbv zeta in Hmine.
  destruct Hmine as [(e' & Ho & _) | (_ & _ & n & _ & _ & ->)]; [discriminate|].
  pose proof (lookup_lt_Some _ _ _ Hl) as Hp.
  exists l, lb, (length (blocks (heap w))),
    (mined (l ++ [coinbase w addr])
           (candidate w (l ++ [coinbase w addr]) lb now) n).
  split; [exact Hl|].
  split; [unfold block_at; now rewrite Hlast|].
  split; [reflexivity|]. split; [reflexivity|].
  split; [cbn; rewrite length_app; cbn; lia|].
  split; [cbn; apply list_lookup_middle; reflexivity|].
  split.
  { cbn. rewrite lookup_app_l by (rewrite length_insert; exact Hp).
    now apply list_lookup_insert_eq. }
  split; [reflexivity|]. split; [reflexivity|]. split; [reflexivity|].
  split; [reflexivity|].
  split.
  { unfold pool_contents. cbn. apply list_lookup_middle.
    now rewrite length_insert. }
  split; [cbn; lia|].
  split.
  { intros r' b' Hb'. cbn. rewrite lookup_app_l; [exact Hb'|].
    eapply lookup_lt_Some; exact Hb'. }
  split; reflexivity.
Qed.

(** ** Validation of the chain *)

Lemma validate_loop_true_iff (txs : list Transaction) :
  Block.validate_transactions_loop txs = Returns true <-> all_valid txs.
Proof.
  unfold all_valid. induction txs as [|tx txs IH]; cbn.
  - split; [constructor | reflexivity].
  - destruct (Transaction.is_valid tx) as [[|]|e] eqn:Hv.
    + rewrite IH. split.
      * intros Hall. now constructor.
      * intros Hall. now inversion Hall.
    + split; [discriminate|]. intros Hall. inversion Hall. congruence.
    + split; [discriminate|]. intros Hall. inversion Hall. congruence.
Qed.

Lemma validate_loop_first_not_valid (txs : list Transaction) tx :
  first_not_valid txs tx ->
  Block.validate_transactions_loop txs
  = match Transaction.is_valid tx with
    | Returns _ => Returns false
    | Raises e => Raises e
    end.
Proof.
  intros (pre & post & -> & Hpre & Hnot).
  induction Hpre as [|t pre Ht Hpre IH]; cbn.
  - destruct (Transaction.is_valid tx) as [[|]|e]; congruence.
  - rewrite Ht. exact IH.
Qed.

Lemma validate_loop_not_true (txs : list Transaction) :
  Block.validate_transactions_loop txs <> Returns true ->
  exists tx, first_not_valid txs tx.
Proof.
  induction txs as [|t txs IH]; cbn; [congruence|].
  destruct (Transaction.is_valid t) as [[|]|e] eqn:Hv.
  - intros Hrest. destruct (IH Hrest) as (tx & pre & post & -> & Hpre & Hnot).
    exists tx, (t :: pre), post. split; [reflexivity|].
    split; [now constructor | exact Hnot].
  - intros _. exists t, [], txs. split; [reflexivity|].
    split; [constructor | congruence].
  - intros _. exists t, [], txs. split; [reflexivity|].
    split; [constructor | congruence].
Qed.

Lemma with_heap_id (w : World) : with_heap w (heap w) = w.
Proof. destruct w; reflexivity. Qed.

Lemma on_heap_validate_transactions (w : World) r b txs :
  blocks (heap w) !! r = Some b ->
  lists (heap w) !! transactions b = Some txs ->
  on_heap (Block.validate_transactions r) w
  = Some (Block.validate_transactions_loop txs, w).
Proof.
  intros Hb Ht. rewrite on_heap_eq.
  rewrite (validate_transactions_eq _ _ _ _ Hb Ht). now rewrite with_heap_id.
Qed.

Lemma on_heap_load_block (w : World) r b :
  blocks (heap w) !! r = Some b ->
  on_heap (load_block r) w = Some (Returns b, w).
Proof.
  intros Hb. rewrite on_heap_eq. unfold load_block, of_reference.
  now rewrite Hb, with_heap_id.
Qed.

Lemma on_heap_compute_hash (w : World) r b txs :
  blocks (heap w) !! r = Some b ->
  lists (heap w) !! transactions b = Some txs ->
  on_heap (Block.compute_hash r) w = Some (Returns (Block.digest txs b), w).
Proof.
  intros Hb Ht. rewrite on_heap_eq.
  rewrite (compute_hash_eq _ _ _ _ Hb Ht). now rewrite with_heap_id.
Qed.

(** One turn of the loop of [validate_chain]. *)
Lemma validate_chain_loop_cons (w : World) i rest :
  Chain.validate_chain_loop (i :: rest) w
  = match check_block w i with
    | Some (Returns true) => Chain.validate_chain_loop rest w
    | Some (Returns false) => Some (Returns false, w)
    | Some (Raises e) => Some (Raises e, w)
    | None => None
    end.
Proof.
  cbn [Chain.validate_chain_loop]. unfold check_block, block_at.
  rewrite (bind_Returns _ _ w (self w) w) by reflexivity.
  destruct (chain (self w) !! i) as [r|] eqn:Hr.
  2:{ now rewrite bind_None. }
  rewrite (bind_Returns _ _ w r w) by reflexivity.
  destruct (blocks (heap w) !! r) as [b|] eqn:Hb.
  2:{ rewrite bind_None; [reflexivity|]. rewrite on_heap_eq.
      unfold Block.validate_transactions, bind, load_block, of_reference.
      now rewrite Hb. }
  destruct (lists (heap w) !! transactions b) as [txs|] eqn:Ht.
  2:{ rewrite bind_None; [reflexivity|]. rewrite on_heap_eq.
      unfold Block.validate_transactions, bind, load_block, load_list, of_reference.
      now rewrite Hb, Ht. }
  destruct (Block.validate_transactions_loop txs) as [[|]|e] eqn:Hval.
  - rewrite (bind_Returns _ _ w true w).
    2:{ rewrite (on_heap_validate_transactions w r b txs Hb Ht). now rewrite Hval. }
    cbn [negb].
    rewrite (bind_Returns _ _ _ _ _ (on_heap_load_block w r b Hb)).
    rewrite (bind_Returns _ _ _ _ _ (on_heap_compute_hash w r b txs Hb Ht)).
    destruct (negb (hash b =? Block.digest txs b)%string); [reflexivity|].
    destruct (chain (self w) !! (i - 1)%nat) as [pr|] eqn:Hpr.
    2:{ now rewrite bind_None. }
    rewrite (bind_Returns _ _ w pr w) by reflexivity.
    destruct (blocks (heap w) !! pr) as [pb|] eqn:Hpb.
    2:{ rewrite bind_None; [reflexivity|]. rewrite on_heap_eq.
        unfold load_block, of_reference. now rewrite Hpb. }
    rewrite (bind_Returns _ _ _ _ _ (on_heap_load_block w pr pb Hpb)).
    destruct (previous_hash b =? hash pb)%string; reflexivity.
  - rewrite (bind_Returns _ _ w false w).
    2:{ rewrite (on_heap_validate_transactions w r b txs Hb Ht). now rewrite Hval. }
    reflexivity.
  - rewrite (bind_Raises _ _ w e w).
    2:{ rewrite (on_heap_validate_transactions w r b txs Hb Ht). now rewrite Hval. }
    reflexivity.
Qed.

Lemma check_block_true_iff (w : World) i :
  check_block w i = Some (Returns true) <-> block_ok w i.
Proof.
  unfold check_block, block_ok. split.
  - destruct (block_at w i) as [b|] eqn:Hb; [|discriminate].
    destruct (lists (heap w) !! transactions b) as [txs|] eqn:Ht; [|discriminate].
    destruct (Block.validate_transactions_loop txs) as [[|]|e] eqn:Hval;
      try discriminate.
    destruct (hash b =? Block.digest txs b)%string eqn:Hh; [|discriminate].
    cbn [negb].
    destruct (block_at w (i - 1)) as [pb|] eqn:Hpb; [|discriminate].
    intros [= Hp]. exists b, txs, pb.
    apply validate_loop_true_iff in Hval.
    apply String.eqb_eq in Hh. apply String.eqb_eq in Hp.
    repeat split; assumption.
  - intros (b & txs & pb & -> & -> & Hval & Hh & -> & Hp).
    apply validate_loop_true_iff in Hval. rewrite Hval.
    apply String.eqb_eq in Hh. apply String.eqb_eq in Hp.
    now rewrite Hh, Hp.
Qed.

Lemma check_block_false_iff (w : World) i :
  check_block w i = Some (Returns false) <-> block_fails w i.
Proof.
  unfold check_block, block_fails. split.
  - destruct (block_at w i) as [b|] eqn:Hb; [|discriminate].
    destruct (lists (heap w) !! transactions b) as [txs|] eqn:Ht; [|discriminate].
    destruct (Block.validate_transactions_loop txs) as [[|]|e] eqn:Hval;
      try discriminate.
    + apply validate_loop_true_iff in Hval.
      destruct (hash b =? Block.digest txs b)%string eqn:Hh; cbn [negb].
      * destruct (block_at w (i - 1)) as [pb|] eqn:Hpb; [|discriminate].
        intros [= Hp]. exists b, txs. split; [reflexivity|]. split; [exact Ht|].
        right. right. apply String.eqb_eq in Hh. apply String.eqb_neq in Hp.
        eauto 10.
      * intros _. exists b, txs. split; [reflexivity|]. split; [exact Ht|].
        right. left. apply String.eqb_neq in Hh. auto.
    + intros _. exists b, txs. split; [reflexivity|]. split; [exact Ht|].
      left. destruct (validate_loop_not_true txs) as (tx & Htx); [congruence|].
      exists tx. split; [exact Htx|].
      pose proof (validate_loop_first_not_valid txs tx Htx) as Hloop.
      rewrite Hval in Hloop. destruct Htx as (_ & _ & _ & _ & Hnot).
      destruct (Transaction.is_valid tx) as [[|]|e]; congruence.
  - intros (b & txs & -> & -> & [(tx & Htx & Hv) | [(Hval & Hh) | (Hval & Hh & pb & -> & Hp)]]).
    + rewrite (validate_loop_first_not_valid txs tx Htx), Hv. reflexivity.
    + apply validate_loop_true_iff in Hval. rewrite Hval.
      apply String.eqb_neq in Hh. now rewrite Hh.
    + apply validate_loop_true_iff in Hval. rewrite Hval.
      apply String.eqb_eq in Hh. apply String.eqb_neq in Hp.
      now rewrite Hh, Hp.
Qed.

Lemma check_block_raises_iff (w : World) i e :
  check_block w i = Some (Raises e) <-> block_raises w i e.
Proof.
  unfold check_block, block_raises. split.
  - destruct (block_at w i) as [b|] eqn:Hb; [|discriminate].
    destruct (lists (heap w) !! transactions b) as [txs|] eqn:Ht; [|discriminate].
    destruct (Block.validate_transactions_loop txs) as [[|]|e'] eqn:Hval.
    + destruct (negb _); [discriminate|].
      destruct (block_at w (i - 1)); discriminate.
    + discriminate.
    + intros [= ->].
      destruct (validate_loop_not_true txs) as (tx & Htx); [congruence|].
      exists b, txs, tx. split; [reflexivity|]. split; [exact Ht|].
      split; [exact Htx|].
      pose proof (validate_loop_first_not_valid txs tx Htx) as Hloop.
      rewrite Hval in Hloop.
      destruct (Transaction.is_valid tx) as [[|]|e']; congruence.
  - intros (b & txs & tx & -> & -> & Htx & Hv).
    rewrite (validate_loop_first_not_valid txs tx Htx), Hv. reflexivity.
Qed.

Lemma validate_chain_loop_true_iff (w : World) (indices : list nat) :
  Chain.validate_chain_loop indices w = Some (Returns true, w)
  <-> Forall (block_ok w) indices.
Proof.
  induction indices as [|i rest IH].
  - split; [constructor | reflexivity].
  - rewrite validate_chain_loop_cons. split.
    + destruct (check_block w i) as [[[|]|e]|] eqn:Hc; try discriminate.
      intros Hrest. constructor; [now apply check_block_true_iff | now apply IH].
    + intros Hall. inversion Hall as [|? ? Hi Hrest]; subst.
      apply check_block_true_iff in Hi. rewrite Hi. now apply IH.
Qed.

(** The loop stops at the first position whose check does not pass,
    whatever comes after it. *)
Lemma validate_chain_loop_stops (w : World) pre i post o :
  Forall (block_ok w) pre ->
  check_block w i = Some o ->
  o <> Returns true ->
  Chain.validate_chain_loop (pre ++ i :: post) w = Some (o, w).
Proof.
  intros Hpre Hc Ho. induction Hpre as [|j pre Hj Hpre IH]; cbn [app].
  - rewrite validate_chain_loop_cons, Hc.
    destruct o as [[|]|e]; [congruence | reflexivity | reflexivity].
  - rewrite validate_chain_loop_cons.
    apply check_block_true_iff in Hj. now rewrite Hj.
Qed.

Lemma validate_chain_one (w : World) :
  length (chain (self w)) = 1%nat ->
  Chain.validate_chain w
  = match block_at w 0 with
    | None => None
    | Some b =>
        match lists (heap w) !! transactions b with
        | None => None
        | Some txs =>
            Some (Returns (String.eqb (hash b) (Block.digest txs b)), w)
        end
    end.
Proof.
  intros Hlen. unfold Chain.validate_chain, block_at.
  rewrite (bind_Returns _ _ w (self w) w) by reflexivity.
  rewrite Hlen. cbn [Nat.eqb].
  destruct (chain (self w) !! 0%nat) as [r|] eqn:Hr.
  2:{ now rewrite bind_None. }
  rewrite (bind_Returns _ _ w r w) by reflexivity.
  destruct (blocks (heap w) !! r) as [b|] eqn:Hb.
  2:{ rewrite bind_None; [reflexivity|]. rewrite on_heap_eq.
      unfold load_block, of_reference. now rewrite Hb. }
  rewrite (bind_Returns _ _ _ _ _ (on_heap_load_block w r b Hb)).
  destruct (lists (heap w) !! transactions b) as [txs|] eqn:Ht.
  2:{ rewrite bind_None; [reflexivity|]. rewrite on_heap_eq.
      unfold Block.compute_hash, bind, load_block, load_list, of_reference.
      now rewrite Hb, Ht. }
  rewrite (bind_Returns _ _ _ _ _ (on_heap_compute_hash w r b txs Hb Ht)).
  destruct (hash b =? Block.digest txs b)%string; reflexivity.
Qed.

Lemma validate_chain_many (w : World) :
  length (chain (self w)) <> 1%nat ->
  Chain.validate_chain w
  = Chain.validate_chain_loop (seq 1 (length (chain (self w)) - 1)) w.
Proof.
  intros Hlen. unfold Chain.validate_chain.
  rewrite (bind_Returns _ _ w (self w) w) by reflexivity.
  apply Nat.eqb_neq in Hlen. now rewrite Hlen.
Qed.

Lemma Forall_seq_from_one (P : nat -> Prop) (n : nat) :
  Forall P (seq 1 (n - 1)) <-> (forall i, (1 <= i < n)%nat -> P i).
Proof.
  rewrite Forall_forall. split.
  - intros Hall i Hi. apply Hall. apply in_seq. lia.
  - intros Hall i Hi. apply in_seq in Hi. apply Hall. lia.
Qed.

Lemma seq_split_at (n i : nat) :
  (1 <= i < n)%nat ->
  seq 1 (n - 1) = seq 1 (i - 1) ++ i :: seq (S i) (n - 1 - i).
Proof.
  intros Hi. replace (n - 1)%nat with ((i - 1) + S (n - 1 - i))%nat at 1 by lia.
  rewrite seq_app. cbn [seq]. replace (1 + (i - 1))%nat with i by lia.
  reflexivity.
Qed.

Lemma validate_chain_true_iff (w : World) :
  (2 <= length (chain (self w)))%nat ->
  Chain.validate_chain w = Some (Returns true, w)
  <-> (forall i, (1 <= i < length (chain (self w)))%nat -> block_ok w i).
Proof.
  intros Hlen. rewrite validate_chain_many by lia.
  rewrite validate_chain_loop_true_iff. apply Forall_seq_from_one.
Qed.

Lemma validate_chain_stops (w : World) i o :
  (1 <= i < length (chain (self w)))%nat ->
  (2 <= length (chain (self w)))%nat ->
  (forall j, (1 <= j < i)%nat -> block_ok w j) ->
  check_block w i = Some o ->
  o <> Returns true ->
  Chain.validate_chain w = Some (o, w).
Proof.
  intros Hi Hlen Hbefore Hc Ho. rewrite validate_chain_many by lia.
  rewrite (seq_split_at _ i Hi).
  apply validate_chain_loop_stops; [|exact Hc|exact Ho].
  apply Forall_forall. intros j Hj. apply in_seq in Hj.
  apply Hbefore. lia.
Qed.

Lemma validate_chain_loop_result (w w' : World) (indices : list nat) :
  (forall i, In i indices -> check_block w' i = check_block w i) ->
  result_of (Chain.validate_chain_loop indices w')
  = result_of (Chain.validate_chain_loop indices w).
Proof.
  induction indices as [|i rest IH]; intros Hsame; [reflexivity|].
  rewrite !validate_chain_loop_cons. rewrite (Hsame i) by now left.
  destruct (check_block w i) as [[[|]|e]|]; try reflexivity.
  apply IH. intros j Hj. apply Hsame. now right.
Qed.

(** Replacing the genesis block by a block with the same stored hash does
    not change what the loop of [validate_chain] sees at the later
    positions. *)
Lemma check_block_genesis_replaced (w : World) r0 g g' i :
  chain (self w) !! 0%nat = Some r0 ->
  (forall j, (1 <= j)%nat -> chain (self w) !! j <> Some r0) ->
  blocks (heap w) !! r0 = Some g ->
  hash g' = hash g ->
  (1 <= i)%nat ->
  check_block (with_heap w (with_block (heap w) r0 g')) i = check_block w i.
Proof.
  intros Hr0 Hother Hg Hhash Hi.
  set (w' := with_heap w (with_block (heap w) r0 g')).
  assert (Hlater : forall j, (1 <= j)%nat -> block_at w' j = block_at w j).
  { intros j Hj. unfold block_at. cbn [w' with_heap self heap].
    destruct (chain (self w) !! j) as [r|] eqn:Hr; [|reflexivity].
    apply with_block_lookup_ne. intros ->. now apply (Hother j Hj). }
  unfold check_block. rewrite (Hlater i Hi).
  destruct (block_at w i) as [b|]; [|reflexivity].
  cbn [w' with_heap heap with_block lists].
  destruct (lists (heap w) !! transactions b) as [txs|]; [|reflexivity].
  destruct (Block.validate_transactions_loop txs) as [[|]|e]; try reflexivity.
  destruct (negb (hash b =? Block.digest txs b)%string); [reflexivity|].
  destruct (Nat.eq_dec (i - 1)%nat 0%nat) as [Hzero | Hpos].
  - rewrite Hzero. unfold block_at. cbn [w' with_heap self heap]. rewrite Hr0.
    rewrite (with_block_lookup (heap w) r0 g g' Hg), Hg. now rewrite Hhash.
  - now rewrite (Hlater (i - 1)%nat) by lia.
Qed.

(** C1: on a chain of one block, [validate_chain] returns true exactly when
    the stored hash of the genesis block is its recomputed hash, and false
    when it is not.  On a chain of two blocks or more it returns true exactly
    when every block from position 1 on has valid transactions, a stored
    hash equal to its recomputed hash and a previous hash equal to the
    stored hash of the block before; the first block that fails a check
    makes it return false, whatever the later blocks hold.  The genesis
    block is then read for its stored hash only: replacing it by any block
    with the same stored hash, recomputable or not, leaves the result
    unchanged. *)
Theorem C1_validate_chain (w : World) :
  (length (chain (self w)) = 1%nat ->
   (Chain.validate_chain w = Some (Returns true, w)
    <-> exists b txs,
          block_at w 0 = Some b
          /\ lists (heap w) !! transactions b = Some txs
          /\ hash b = Block.digest txs b)
   /\ (forall b txs,
          block_at w 0 = Some b ->
          lists (heap w) !! transactions b = Some txs ->
          hash b <> Block.digest txs b ->
          Chain.validate_chain w = Some (Returns false, w)))
  /\ ((2 <= length (chain (self w)))%nat ->
      (Chain.validate_chain w = Some (Returns true, w)
       <-> forall i, (1 <= i < length (chain (self w)))%nat -> block_ok w i)
      /\ (forall i,
             (1 <= i < length (chain (self w)))%nat ->
             (forall j, (1 <= j < i)%nat -> block_ok w j) ->
             block_fails w i ->
             Chain.validate_chain w = Some (Returns false, w))
      /\ (forall r0 g g',
             chain (self w) !! 0%nat = Some r0 ->
             (forall j, (1 <= j)%nat -> chain (self w) !! j <> Some r0) ->
             blocks (heap w) !! r0 = Some g ->
             hash g' = hash g ->
             result_of (Chain.validate_chain
                          (with_heap w (with_block (heap w) r0 g')))
             = result_of (Chain.validate_chain w))).
Proof.
  split.
  - intros Hlen. rewrite (validate_chain_one w Hlen). split.
    + split.
      * destruct (block_at w 0) as [b|] eqn:Hb; [|discriminate].
        destruct (lists (heap w) !! transactions b) as [txs|] eqn:Ht;
          [|discriminate].
        intros [= Hh]. apply String.eqb_eq in Hh. exists b, txs. auto.
      * intros (b & txs & -> & -> & Hh). apply String.eqb_eq in Hh.
        now rewrite Hh.
    + intros b txs -> -> Hh. apply String.eqb_neq in Hh. now rewrite Hh.
  - intros Hlen. split; [now apply validate_chain_true_iff|]. split.
    + intros i Hi Hbefore Hfail. apply check_block_false_iff in Hfail.
      apply (validate_chain_stops w i (Returns false));
        [exact Hi | exact Hlen | exact Hbefore | exact Hfail | discriminate].
    + intros r0 g g' Hr0 Hother Hg Hhash.
      rewrite (validate_chain_many w) by lia.
      rewrite validate_chain_many by (cbn [with_heap self]; lia).
      cbn [with_heap self]. apply validate_chain_loop_result.
      intros i Hi. apply in_seq in Hi.
      apply (check_block_genesis_replaced w r0 g g' i); auto. lia.
Qed.


(** ** The invariant *)

Lemma lookup_In (l : list loc) i r : l !! i = Some r -> In r l.
Proof. intros Hl. apply list_elem_of_In. eapply list_elem_of_lookup_2; eauto. Qed.

Lemma latest_exists (w : World) :
  (0 < length (chain (self w)))%nat ->
  exists latest, chain (self w) !! (length (chain (self w)) - 1)%nat = Some latest.
Proof.
  intros Hlen.
  destruct (chain (self w) !! (length (chain (self w)) - 1)%nat) eqn:Hl; eauto.
  apply lookup_ge_None in Hl. lia.
Qed.

Lemma sound_block_preserved (w w' : World) r :
  preserved w w' -> In r (chain (self w)) -> sound_block w r -> sound_block w' r.
Proof.
  intros (Hblocks & Hlists & Hpool & _) Hin (b & txs & Hb & Ht & Hne & Hh & Hv).
  exists b, txs. split; [now rewrite Hblocks|].
  split; [now apply Hlists|].
  split; [|auto].
  destruct Hpool as [-> | Hnew]; [exact Hne|].
  apply lookup_lt_Some in Ht. lia.
Qed.

Lemma block_at_preserved (w w' : World) i :
  preserved w w' ->
  (i < length (chain (self w)))%nat ->
  chain (self w') !! i = chain (self w) !! i ->
  block_at w' i = block_at w i.
Proof.
  intros (Hblocks & _) Hi Hchain. unfold block_at. rewrite Hchain.
  destruct (chain (self w) !! i) as [r|] eqn:Hr; [|reflexivity].
  apply Hblocks. eapply lookup_In; eauto.
Qed.

Lemma well_formed_same_chain (w w' : World) :
  well_formed w ->
  preserved w w' ->
  chain (self w') = chain (self w) ->
  well_formed w'.
Proof.
  intros (Hnodup & Hsound & _ & (g & Hg & Hprev) & Hlink) Hpres Hchain.
  assert (Hat : forall i, (i < length (chain (self w)))%nat ->
                          block_at w' i = block_at w i).
  { intros i Hi. apply block_at_preserved; [exact Hpres | exact Hi |].
    now rewrite Hchain. }
  assert (Hlen : (0 < length (chain (self w)))%nat).
  { unfold block_at in Hg. destruct (chain (self w) !! 0%nat) eqn:H0;
      [|discriminate]. eapply lookup_lt_Some; eauto. }
  split; [now rewrite Hchain|].
  split.
  { rewrite Hchain. rewrite Forall_forall in *. intros r Hr.
    now apply (sound_block_preserved w w'); auto. }
  split; [apply Hpres|].
  split.
  { exists g. split; [|exact Hprev]. now rewrite Hat. }
  rewrite Hchain. intros i Hi.
  destruct (Hlink i Hi) as (b & pb & Hb & Hpb & Hp).
  exists b, pb. rewrite !Hat by lia. auto.
Qed.

Lemma well_formed_append (w w' : World) r :
  well_formed w ->
  preserved w w' ->
  chain (self w') = chain (self w) ++ [r] ->
  ~ In r (chain (self w)) ->
  sound_block w' r ->
  (forall b latest latest_block,
      blocks (heap w') !! r = Some b ->
      chain (self w) !! (length (chain (self w)) - 1)%nat = Some latest ->
      blocks (heap w) !! latest = Some latest_block ->
      previous_hash b = hash latest_block) ->
  well_formed w'.
Proof.
  intros (Hnodup & Hsound & _ & (g & Hg & Hprev) & Hlink) Hpres Hchain Hnew
    Hr Hhead.
  assert (Hat : forall i, (i < length (chain (self w)))%nat ->
                          block_at w' i = block_at w i).
  { intros i Hi. apply block_at_preserved; [exact Hpres | exact Hi |].
    rewrite Hchain. now apply lookup_app_l. }
  assert (Hlen : (0 < length (chain (self w)))%nat).
  { unfold block_at in Hg. destruct (chain (self w) !! 0%nat) eqn:H0;
      [|discriminate]. eapply lookup_lt_Some; eauto. }
  split.
  { rewrite Hchain. apply list.NoDup_app.
    split; [exact Hnodup|]. split; [|apply NoDup_singleton].
    intros x Hx Hxr. apply list_elem_of_In in Hx. apply list_elem_of_In in Hxr.
    destruct Hxr as [<- | []]. contradiction. }
  split.
  { rewrite Hchain. apply Forall_app. split.
    - rewrite Forall_forall in *. intros r' Hr'.
      now apply (sound_block_preserved w w'); auto.
    - now apply Forall_singleton. }
  split; [apply Hpres|].
  split.
  { exists g. split; [|exact Hprev]. now rewrite Hat. }
  rewrite Hchain, length_app. cbn [length]. intros i Hi.
  destruct (Nat.eq_dec i (length (chain (self w)))) as [-> | Hne].
  - destruct Hr as (b & txs & Hb & _).
    destruct (latest_exists w Hlen) as (latest & Hlatest).
    assert (Hin : In latest (chain (self w))) by (eapply lookup_In; eauto).
    rewrite Forall_forall in Hsound.
    destruct (Hsound latest Hin) as (lb & _ & Hlb & _).
    exists b, lb. split.
    { unfold block_at. rewrite Hchain.
      rewrite list_lookup_middle by reflexivity. exact Hb. }
    split.
    { rewrite Hat by lia. unfold block_at. now rewrite Hlatest. }
    eapply Hhead; eauto.
  - destruct (Hlink i ltac:(lia)) as (b & pb & Hb & Hpb & Hp).
    exists b, pb. rewrite !Hat by lia. auto.
Qed.

Lemma sound_block_lookup (w : World) r :
  Forall (sound_block w) (chain (self w)) ->
  In r (chain (self w)) ->
  exists b, blocks (heap w) !! r = Some b.
Proof.
  intros Hsound Hin. rewrite Forall_forall in Hsound.
  destruct (Hsound r Hin) as (b & _ & Hb & _). eauto.
Qed.

(** A call that keeps the chain object, leaves the stored blocks in place
    and writes only the list of the pool. *)
Lemma preserved_pool_write (w w' : World) l l' :
  well_formed w ->
  pool_contents w = Some l ->
  self w' = self w ->
  (forall r b, blocks (heap w) !! r = Some b -> blocks (heap w') !! r = Some b) ->
  lists (heap w') = <[transaction_pool (self w) := l']> (lists (heap w)) ->
  preserved w w'.
Proof.
  intros (_ & Hsound & _) Hl Hself Hblocks Hlists.
  split.
  { intros r Hr. destruct (sound_block_lookup w r Hsound Hr) as (b & Hb).
    rewrite Hb. now apply Hblocks. }
  split.
  { intros p txs Hp Ht. rewrite Hlists. now rewrite list_lookup_insert_ne by auto. }
  split; [left; now rewrite Hself|].
  exists l'. unfold pool_contents. rewrite Hself, Hlists.
  apply list_lookup_insert_eq. eapply lookup_lt_Some; exact Hl.
Qed.

Lemma add_transaction_well_formed (tx : Transaction) (w : World) o w' :
  well_formed w ->
  Chain.add_transaction tx w = Some (o, w') ->
  well_formed w'.
Proof.
  intros Hwf. rewrite add_transaction_eq.
  destruct (negb _ || negb _)%bool; [now intros [= _ <-]|].
  destruct (Transaction.is_valid tx) as [[|]|e]; try now intros [= _ <-].
  destruct (pool_contents w) as [l|] eqn:Hl; [|discriminate].
  intros [= _ <-].
  apply (well_formed_same_chain w); [exact Hwf | | reflexivity].
  apply (preserved_pool_write w _ l (l ++ [tx])); auto.
Qed.

Lemma mine_transaction_pool_well_formed (addr : string) (now : Z) (fuel : nat)
    (w : World) o w' :
  well_formed w ->
  Chain.mine_transaction_pool addr now fuel w = Some (o, w') ->
  well_formed w'.
Proof.
  intros Hwf Hrun.
  destruct (mine_transaction_pool_inv _ _ _ _ _ _ Hrun) as (l & Hl & Hcases).
  cbv zeta in Hcases.
  pose proof (lookup_lt_Some _ _ _ Hl) as Hp.
  destruct Hcases as [(_ & _ & ->) | (latest & lb & Hlast & Hlb & Hmine)].
  { apply (well_formed_same_chain w); [exact Hwf | | reflexivity].
    apply (preserved_pool_write w _ l (l ++ [coinbase w addr])); auto. }
  cbv zeta in Hmine.
  destruct Hmine as [(e & _ & -> & _) | (_ & Hval & n & Hn & Hmeets & ->)].
  { apply (well_formed_same_chain w); [exact Hwf | | reflexivity].
    apply (preserved_pool_write w _ l (l ++ [coinbase w addr])); auto.
    intros r b Hb. cbn. rewrite lookup_app_l; [exact Hb|].
    eapply lookup_lt_Some; exact Hb. }
  set (txs := l ++ [coinbase w addr]) in *.
  apply (well_formed_append w _ (length (blocks (heap w)))); [exact Hwf | | | | |].
  - destruct Hwf as (_ & Hsound & _).
    split.
    { intros r Hr. destruct (sound_block_lookup w r Hsound Hr) as (b & Hb).
      cbn. rewrite lookup_app_l; [reflexivity|]. eapply lookup_lt_Some; exact Hb. }
    split.
    { intros p txs' Hne Ht. cbn.
      rewrite lookup_app_l
        by (rewrite length_insert; eapply lookup_lt_Some; exact Ht).
      now rewrite list_lookup_insert_ne by auto. }
    split; [right; cbn; lia|].
    exists []. unfold pool_contents. cbn. apply list_lookup_middle.
    now rewrite length_insert.
  - reflexivity.
  - intros Hin. destruct Hwf as (_ & Hsound & _).
    destruct (sound_block_lookup w _ Hsound Hin) as (b & Hb).
    apply lookup_lt_Some in Hb. lia.
  - exists (mined txs (candidate w txs lb now) n), txs.
    split; [cbn; apply list_lookup_middle; reflexivity|].
    split.
    { cbn. rewrite lookup_app_l by (rewrite length_insert; exact Hp).
      now apply list_lookup_insert_eq. }
    split; [cbn; unfold pool_contents in Hl; lia|].
    split; [reflexivity|].
    now apply validate_loop_true_iff.
  - intros b latest' lb' Hb Hlast' Hlb'.
    cbn in Hb. rewrite list_lookup_middle in Hb by reflexivity.
    inversion Hb; subst b. cbn. congruence.
Qed.

Lemma add_block_to_chain_well_formed (r : loc) (fuel : nat) (w : World) o w' :
  well_formed w ->
  outside_block w r ->
  Chain.add_block_to_chain r fuel w = Some (o, w') ->
  well_formed w'.
Proof.
  intros Hwf (Hout & Hlist) Hrun.
  destruct (add_block_to_chain_inv _ _ _ _ _ Hrun)
    as [(_ & _ & ->) | (latest & lb & b & txs & Hlast & Hlb & Hb & Ht & Hmine)];
    [exact Hwf|].
  cbv zeta in Hmine.
  assert (Hpres : forall b', preserved w (with_heap w (with_block (heap w) r b'))).
  { intros b'. destruct Hwf as (_ & _ & Hpool & _).
    split.
    { intros r' Hr'. cbn. apply list_lookup_insert_ne. congruence. }
    split; [intros p txs' _ Hp; exact Hp|].
    split; [left; reflexivity | exact Hpool]. }
  destruct Hmine as [(e & _ & -> & _) | (_ & Hval & n & Hn & Hmeets & ->)].
  { apply (well_formed_same_chain w); [exact Hwf | apply Hpres | reflexivity]. }
  apply (well_formed_append w _ r); [exact Hwf | apply (Hpres _) | reflexivity
                                    | exact Hout | |].
  - exists (mined txs (set_previous_hash b (hash lb)) n), txs.
    split; [exact (with_block_lookup (heap w) r b _ Hb)|].
    split; [exact Ht|].
    split; [exact (Hlist b Hb)|].
    split; [reflexivity|].
    now apply validate_loop_true_iff.
  - intros b' latest' lb' Hb' Hlast' Hlb'.
    pose proof (with_block_lookup (heap w) r b
                  (mined txs (set_previous_hash b (hash lb)) n) Hb) as Hnew.
    pose proof (eq_trans (eq_sym Hb') Hnew) as Eb. inversion Eb; subst b'.
    cbn. congruence.
Qed.

Lemma chain_init_eq (d now : Z) (h : Heap) :
  Chain.__init__ d now h
  = Some (Returns {| chain := [length (blocks h)];
                     transaction_pool := S (length (lists h));
                     miner_reward := 50;
                     difficulty := d |},
          {| blocks := blocks h
                       ++ [mined [] {| transactions := length (lists h);
                                       previous_hash := EmptyString;
                                       timestamp := now; nonce := 1;
                                       hash := EmptyString |} 1];
             lists := (lists h ++ [[]]) ++ [[]] |}).
Proof.
  unfold Chain.__init__.
  set (h1 := {| blocks := blocks h; lists := lists h ++ [[]] |}).
  assert (Hl : lists h1 !! length (lists h) = Some [])
    by (apply list_lookup_middle; reflexivity).
  rewrite (bind_Returns _ _ h (length (blocks h))
             {| blocks := blocks h
                          ++ [mined [] {| transactions := length (lists h);
                                          previous_hash := EmptyString;
                                          timestamp := now; nonce := 1;
                                          hash := EmptyString |} 1];
                lists := lists h ++ [[]] |}).
  2:{ unfold Chain.big_bang.
      rewrite (bind_Returns _ _ h (length (lists h)) h1) by reflexivity.
      exact (block_init_eq h1 _ _ _ [] Hl). }
  unfold bind, new_list, ret. cbn [blocks lists].
  rewrite length_app. cbn [length].
  replace (length (lists h) + 1)%nat with (S (length (lists h))) by lia.
  reflexivity.
Qed.

Lemma well_formed_fresh (w : World) : freshly_constructed w -> well_formed w.
Proof.
  intros (d & now & h & c & h' & Hinit & ->).
  rewrite chain_init_eq in Hinit. inversion Hinit; subst c h'; clear Hinit.
  set (g := mined [] _ 1).
  assert (Hg : (blocks h ++ [g]) !! length (blocks h) = Some g)
    by (apply list_lookup_middle; reflexivity).
  split; [apply NoDup_singleton|].
  split.
  { apply Forall_singleton. exists g, [].
    split; [exact Hg|].
    split.
    { cbn. rewrite lookup_app_l by (rewrite length_app; cbn; lia).
      apply list_lookup_middle. reflexivity. }
    split; [cbn; lia|]. split; [reflexivity | constructor]. }
  split.
  { exists []. unfold pool_contents. cbn. apply list_lookup_middle.
    rewrite length_app. cbn. lia. }
  split.
  { exists g. split; [|reflexivity]. unfold block_at. cbn. exact Hg. }
  cbn. intros i Hi. lia.
Qed.

(** Objects that the caller allocates leave the chain as it is. *)
Lemma allocation_well_formed (w : World) bs ls :
  well_formed w ->
  well_formed (with_heap w {| blocks := blocks (heap w) ++ bs;
                              lists := lists (heap w) ++ ls |}).
Proof.
  intros Hwf. apply (well_formed_same_chain w); [exact Hwf | | reflexivity].
  pose proof Hwf as (_ & Hsound & (l & Hl) & _).
  split.
  { intros r Hr. destruct (sound_block_lookup w r Hsound Hr) as (b & Hb).
    cbn. rewrite lookup_app_l; [reflexivity|]. eapply lookup_lt_Some; exact Hb. }
  split.
  { intros p txs _ Hp. cbn. rewrite lookup_app_l; [exact Hp|].
    eapply lookup_lt_Some; exact Hp. }
  split; [left; reflexivity|].
  exists l. unfold pool_contents in *. cbn. rewrite lookup_app_l; [exact Hl|].
  eapply lookup_lt_Some; exact Hl.
Qed.

Lemma new_list_well_formed (w : World) l :
  well_formed w -> well_formed (after (on_heap (new_list l)) w).
Proof.
  intros Hwf.
  replace (after (on_heap (new_list l)) w)
    with (with_heap w {| blocks := blocks (heap w) ++ [];
                         lists := lists (heap w) ++ [l] |}).
  - now apply allocation_well_formed.
  - unfold after, on_heap, new_list, with_heap. cbn. now rewrite app_nil_r.
Qed.

Lemma new_block_well_formed (w w' : World) p prev now o :
  well_formed w ->
  on_heap (Block.__init__ p prev now) w = Some (o, w') ->
  well_formed w'.
Proof.
  intros Hwf. rewrite on_heap_eq.
  destruct (lists (heap w) !! p) as [txs|] eqn:Hp.
  - rewrite (block_init_eq _ _ _ _ txs Hp). intros [= _ <-].
    rewrite <- (app_nil_r (lists (heap w))).
    now apply allocation_well_formed.
  - unfold Block.__init__.
    set (b0 := {| transactions := p; previous_hash := prev; timestamp := now;
                  nonce := 1; hash := EmptyString |}).
    set (h1 := {| blocks := blocks (heap w) ++ [b0]; lists := lists (heap w) |}).
    rewrite (bind_Returns _ _ (heap w) (length (blocks (heap w))) h1)
      by reflexivity.
    rewrite bind_None; [discriminate|].
    unfold Block.compute_hash, bind, load_block, load_list, of_reference.
    cbn [h1 blocks lists].
    rewrite list_lookup_middle by reflexivity. cbn. now rewrite Hp.
Qed.

Lemma well_formed_step (w w' : World) :
  well_formed w -> step outside_block w w' -> well_formed w'.
Proof.
  intros Hwf Hstep. destruct Hstep.
  - now apply new_list_well_formed.
  - eapply new_block_well_formed; eauto.
  - eapply add_transaction_well_formed; eauto.
  - eapply mine_transaction_pool_well_formed; eauto.
  - eapply add_block_to_chain_well_formed; eauto.
Qed.

Lemma well_formed_reachable (w : World) :
  reachable outside_block w -> well_formed w.
Proof.
  induction 1 as [w Hfresh | w w' _ IH Hstep].
  - now apply well_formed_fresh.
  - now apply (well_formed_step w).
Qed.

Lemma well_formed_block_at (w : World) i :
  well_formed w ->
  (i < length (chain (self w)))%nat ->
  exists b txs,
    block_at w i = Some b
    /\ lists (heap w) !! transactions b = Some txs
    /\ hash b = Block.digest txs b
    /\ all_valid txs.
Proof.
  intros (_ & Hsound & _) Hi.
  destruct (chain (self w) !! i) as [r|] eqn:Hr.
  2:{ apply lookup_ge_None in Hr. lia. }
  rewrite Forall_forall in Hsound.
  destruct (Hsound r (lookup_In _ _ _ Hr)) as (b & txs & Hb & Ht & _ & Hh & Hv).
  exists b, txs. unfold block_at. rewrite Hr. auto.
Qed.

Lemma well_formed_nonempty (w : World) :
  well_formed w -> (1 <= length (chain (self w)))%nat.
Proof.
  intros (_ & _ & _ & (g & Hg & _) & _). unfold block_at in Hg.
  destruct (chain (self w) !! 0%nat) eqn:H0; [|discriminate].
  apply lookup_lt_Some in H0. lia.
Qed.

Lemma well_formed_chain_invariant (w : World) :
  well_formed w -> chain_invariant w.
Proof.
  intros Hwf. pose proof Hwf as (_ & _ & _ & Hgenesis & Hlink).
  split; [exact Hgenesis|]. split; [exact Hlink|].
  split.
  { intros i Hi.
    destruct (well_formed_block_at w i Hwf Hi) as (b & txs & Hb & Ht & Hh & _).
    eauto. }
  intros i b txs tx Hb Ht Hin _.
  assert (Hi : (i < length (chain (self w)))%nat).
  { unfold block_at in Hb. destruct (chain (self w) !! i) eqn:Hr; [|discriminate].
    eapply lookup_lt_Some; eauto. }
  destruct (well_formed_block_at w i Hwf Hi) as (b' & txs' & Hb' & Ht' & _ & Hv).
  assert (b' = b) by congruence. subst b'.
  assert (txs' = txs) by congruence. subst txs'.
  unfold all_valid in Hv. rewrite Forall_forall in Hv. now apply Hv.
Qed.

(** A well-formed chain passes validation. *)
Lemma well_formed_validate_chain (w : World) :
  well_formed w -> Chain.validate_chain w = Some (Returns true, w).
Proof.
  intros Hwf. pose proof (well_formed_nonempty w Hwf) as Hlen.
  destruct (Nat.eq_dec (length (chain (self w))) 1%nat) as [Hone | Hmany].
  - rewrite (validate_chain_one w Hone).
    destruct (well_formed_block_at w 0 Hwf ltac:(lia))
      as (b & txs & -> & -> & Hh & _).
    apply String.eqb_eq in Hh. now rewrite Hh.
  - apply validate_chain_true_iff; [lia|]. intros i Hi.
    destruct (well_formed_block_at w i Hwf ltac:(lia))
      as (b & txs & Hb & Ht & Hh & Hv).
    destruct Hwf as (_ & _ & _ & _ & Hlink).
    destruct (Hlink i Hi) as (b' & pb & Hb' & Hpb & Hp).
    assert (b' = b) by congruence. subst b'.
    exists b, txs, pb. auto 10.
Qed.

(** C2 (amended): every world reached from a freshly constructed chain by
    calls of [add_transaction], [mine_transaction_pool] and
    [add_block_to_chain], returning or raising, satisfies the invariant of
    the chain, provided each block object passed to [add_block_to_chain] is
    not already one of the chain and does not share the list object of the
    pool. *)
Theorem C2_invariant_reachable (w : World) :
  reachable outside_block w -> chain_invariant w.
Proof.
  intros Hreach. apply well_formed_chain_invariant.
  now apply well_formed_reachable.
Qed.

(** C10: the amount plays no part in the checks.  In every world reached
    from a new chain by the calls, the blocks handed over coming from
    outside the chain, a transaction with sender and recipient present
    whose signature verifies is appended to the pool by [add_transaction],
    whatever its amount, negative and zero included; and when
    [mine_transaction_pool] then returns, the transaction is in the new
    block and [validate_chain] returns true. *)
Theorem C10_amount_unconstrained (w : World) (tx : Transaction) :
  reachable outside_block w ->
  Py.truthy_str (from_address tx) = true ->
  Py.truthy_str (to_address tx) = true ->
  Transaction.is_valid tx = Returns true ->
  exists l w1,
    pool_contents w = Some l
    /\ Chain.add_transaction tx w = Some (Returns tt, w1)
    /\ pool_contents w1 = Some (l ++ [tx])
    /\ forall addr now fuel w2,
        Chain.mine_transaction_pool addr now fuel w1 = Some (Returns tt, w2) ->
        Chain.validate_chain w2 = Some (Returns true, w2)
        /\ exists b txs,
            block_at w2 (length (chain (self w2)) - 1) = Some b
            /\ lists (heap w2) !! transactions b = Some txs
            /\ In tx txs.
Proof.
  intros Hreach Hfrom Hto Hvalid.
  pose proof (well_formed_reachable w Hreach) as Hwf.
  pose proof Hwf as (_ & _ & (l & Hl) & _).
  exists l. eexists.
  split; [exact Hl|].
  split.
  { rewrite add_transaction_eq, Hfrom, Hto, Hvalid, Hl. reflexivity. }
  split; [now apply (pool_contents_appended w l)|].
  intros addr now fuel w2 Hmine.
  assert (Hwf1 : well_formed
                   (with_heap w (with_list (heap w) (transaction_pool (self w))
                                   (l ++ [tx])))).
  { apply (add_transaction_well_formed tx w (Returns tt)); [exact Hwf|].
    rewrite add_transaction_eq, Hfrom, Hto, Hvalid, Hl. reflexivity. }
  split.
  { apply well_formed_validate_chain.
    eapply mine_transaction_pool_well_formed; eauto. }
  destruct (mine_transaction_pool_inv _ _ _ _ _ _ Hmine) as (l1 & Hl1 & Hcases).
  rewrite (pool_contents_appended w l _ Hl) in Hl1.
  inversion Hl1; subst l1; clear Hl1.
  cbv zeta in Hcases.
  destruct Hcases as [(Ho & _) | (latest & lb & _ & _ & Hrest)]; [discriminate|].
  cbv zeta in Hrest.
  destruct Hrest as [(e & Ho & _) | (_ & _ & n & _ & _ & ->)]; [discriminate|].
  eexists. eexists.
  split.
  { unfold block_at. cbn. rewrite length_app. cbn.
    replace (length (chain (self w)) + 1 - 1)%nat
      with (length (chain (self w))) by lia.
    rewrite list_lookup_middle by reflexivity.
    apply list_lookup_middle. reflexivity. }
  split.
  { cbn. rewrite lookup_app_l.
    - apply list_lookup_insert_eq. rewrite length_insert.
      eapply lookup_lt_Some; exact Hl.
    - rewrite !length_insert. eapply lookup_lt_Some; exact Hl. }
  apply in_app_iff. left. apply in_app_iff. right. now left.
Qed.

(** C9 (amended): on a transaction with a sender and no signature the
    missing-signature error propagates out of every operation that reaches
    its check: [add_transaction] when both addresses are present,
    [validate_transactions] and [mine] when the transactions before it in
    the block are valid, [validate_chain] when moreover the blocks before
    pass their checks.  [validate_chain] returns true only for chains none
    of whose blocks after the genesis block holds such a transaction. *)
Theorem C9_missing_signature_propagates (tx : Transaction) :
  from_address tx <> None ->
  Py.truthy_bytes (signature tx) = false ->
  (forall w,
      Py.truthy_str (from_address tx) = true ->
      Py.truthy_str (to_address tx) = true ->
      Chain.add_transaction tx w = Some (Raises MissingSignatureError, w))
  /\ (forall h r d fuel b pre post,
        blocks h !! r = Some b ->
        lists h !! transactions b = Some (pre ++ tx :: post) ->
        all_valid pre ->
        Block.validate_transactions r h = Some (Raises MissingSignatureError, h)
        /\ Block.mine r d fuel h = Some (Raises MissingSignatureError, h))
  /\ (forall w i b pre post,
        (1 <= i < length (chain (self w)))%nat ->
        (forall j, (1 <= j < i)%nat -> block_ok w j) ->
        block_at w i = Some b ->
        lists (heap w) !! transactions b = Some (pre ++ tx :: post) ->
        all_valid pre ->
        Chain.validate_chain w = Some (Raises MissingSignatureError, w))
  /\ (forall w i b txs,
        Chain.validate_chain w = Some (Returns true, w) ->
        (1 <= i)%nat ->
        block_at w i = Some b ->
        lists (heap w) !! transactions b = Some txs ->
        ~ In tx txs).
Proof.
  intros Hfrom Hsig.
  pose proof (is_valid_unsigned tx Hfrom Hsig) as Hraise.
  assert (Hfirst : forall pre post,
             all_valid pre -> first_not_valid (pre ++ tx :: post) tx).
  { intros pre post Hpre. exists pre, post. split; [reflexivity|].
    split; [exact Hpre | congruence]. }
  split.
  { intros w Hf Ht. rewrite add_transaction_eq, Hf, Ht, Hraise. reflexivity. }
  split.
  { intros h r d fuel b pre post Hb Ht Hpre.
    assert (Hval : Block.validate_transactions r h
                   = Some (Raises MissingSignatureError, h)).
    { rewrite (validate_transactions_eq h r b _ Hb Ht).
      rewrite (validate_loop_first_not_valid _ tx (Hfirst pre post Hpre)).
      now rewrite Hraise. }
    split; [exact Hval|]. unfold Block.mine.
    now rewrite (bind_Raises _ _ _ _ _ Hval). }
  split.
  { intros w i b pre post Hi Hbefore Hb Ht Hpre.
    apply (validate_chain_stops w i (Raises MissingSignatureError));
      [exact Hi | lia | exact Hbefore | | discriminate].
    apply check_block_raises_iff. exists b, (pre ++ tx :: post), tx.
    auto using Hfirst. }
  intros w i b txs Hval Hi Hb Ht Hin.
  assert (Hlt : (i < length (chain (self w)))%nat).
  { unfold block_at in Hb. destruct (chain (self w) !! i) eqn:Hr; [|discriminate].
    eapply lookup_lt_Some; eauto. }
  pose proof (proj1 (validate_chain_true_iff w ltac:(lia)) Hval) as Hall.
  destruct (Hall i ltac:(lia)) as (b' & txs' & pb & Hb' & Ht' & Hv & _).
  assert (b' = b) by congruence. subst b'.
  assert (txs' = txs) by congruence. subst txs'.
  unfold all_valid in Hv. rewrite Forall_forall in Hv.
  specialize (Hv tx Hin). congruence.
Qed.

End Properties.

(** * Examples

    The statements above at the objects of [Demo], with SHA-256 for the hash
    and the stand-in signature scheme. *)

Section Examples.
Local Existing Instance Example.crypto.

Lemma C1_validate_chain_witness :
  (length (chain (self Demo.w0)) = 1%nat
   /\ Chain.validate_chain Demo.w0 = Some (Returns true, Demo.w0))
  /\ ((2 <= length (chain (self Demo.w2)))%nat
      /\ forall i, (1 <= i < length (chain (self Demo.w2)))%nat ->
                   block_ok Demo.w2 i)
  /\ (block_fails Demo.broken_link 1
      /\ Chain.validate_chain Demo.broken_link
         = Some (Returns false, Demo.broken_link)).
Proof.
  assert (Hone : length (chain (self Demo.w0)) = 1%nat)
    by (vm_compute; reflexivity).
  assert (Htwo : (2 <= length (chain (self Demo.w2)))%nat)
    by (vm_compute; lia).
  assert (Hthree : (2 <= length (chain (self Demo.broken_link)))%nat)
    by (vm_compute; lia).
  assert (Hfails : block_fails Demo.broken_link 1)
    by (apply check_block_false_iff; vm_compute; reflexivity).
  split; [|split].
  - split; [exact Hone|].
    destruct (C1_validate_chain Demo.w0) as [Hcase _].
    destruct (Hcase Hone) as [Hiff _]. apply Hiff.
    exists (nth 0 (blocks (heap Demo.w0)) Demo.no_block), [].
    split; [vm_compute; reflexivity|].
    split; vm_compute; reflexivity.
  - split; [exact Htwo|].
    destruct (C1_validate_chain Demo.w2) as [_ Hcase].
    destruct (Hcase Htwo) as [Hiff _]. apply Hiff. vm_compute. reflexivity.
  - split; [exact Hfails|].
    destruct (C1_validate_chain Demo.broken_link) as [_ Hcase].
    destruct (Hcase Hthree) as (_ & Hstop & _).
    apply (Hstop 1%nat); [vm_compute; lia | intros j Hj; lia | exact Hfails].
Defined.

(** On a chain of two blocks the hash of the genesis block is not
    recomputed: the mined chain with a genesis block whose stored hash is no
    longer its recomputed hash still validates. *)
Lemma validate_chain_stale_genesis :
  Chain.validate_chain Demo.stale_genesis = Some (Returns true, Demo.stale_genesis)
  /\ check_block Demo.stale_genesis 1 = Some (Returns true)
  /\ Block.compute_hash 0%nat (heap Demo.stale_genesis)
     <> Some (Returns
                (hash (nth 0 (blocks (heap Demo.stale_genesis)) Demo.no_block)),
              heap Demo.stale_genesis).
Proof.
  split; [vm_compute; reflexivity|].
  split; [vm_compute; reflexivity|].
  vm_compute. intros Heq. discriminate Heq.
Qed.

(** C2, the claim as stated, fails: handing the genesis block of a new
    chain back to [add_block_to_chain] is a call of the three operations,
    and after it the first block of the chain has a previous hash that is
    not empty. *)
Lemma C2_counterexample :
  reachable any_block Demo.a1 /\ ~ chain_invariant Demo.a1.
Proof.
  split.
  - apply (reachable_step any_block Demo.a0 Demo.a1).
    + apply reachable_fresh.
      exists 0, Demo.t0, Demo.empty_heap, (self Demo.a0), (heap Demo.a0).
      split; vm_compute; reflexivity.
    + apply (step_add_block_to_chain any_block Demo.a0 Demo.a1 0%nat 1%nat
               (Returns tt)); [exact I|].
      vm_compute. reflexivity.
  - intros ((g & Hg & Hprev) & _).
    vm_compute in Hg. inversion Hg; subst g; clear Hg.
    vm_compute in Hprev. discriminate Hprev.
Qed.

(** The two conditions on the blocks handed to [add_block_to_chain] are
    both needed.  A block of the caller handed over twice ends up twice in
    the chain, linked to its own former hash; a block built over the list
    object of the pool changes when a transaction is submitted, and its
    stored hash is then stale. *)
Lemma invariant_fails_on_block_added_twice :
  reachable any_block Demo.d4
  /\ chain (self Demo.d4) = [0; 1; 1]%nat
  /\ ~ chain_invariant Demo.d4.
Proof.
  split.
  - apply (reachable_step any_block Demo.d3 Demo.d4).
    + apply (reachable_step any_block Demo.d2 Demo.d3).
      * apply (reachable_step any_block Demo.d1 Demo.d2).
        -- apply (reachable_step any_block Demo.a0 Demo.d1).
           ++ apply reachable_fresh.
              exists 0, Demo.t0, Demo.empty_heap, (self Demo.a0), (heap Demo.a0).
              split; vm_compute; reflexivity.
           ++ apply (step_new_list any_block Demo.a0 []).
        -- apply (step_new_block any_block Demo.d1 Demo.d2 2%nat EmptyString
                    Demo.t3 (Returns 1%nat)).
           vm_compute. reflexivity.
      * apply (step_add_block_to_chain any_block Demo.d2 Demo.d3 1%nat 1%nat
                 (Returns tt)); [exact I | vm_compute; reflexivity].
    + apply (step_add_block_to_chain any_block Demo.d3 Demo.d4 1%nat 1%nat
               (Returns tt)); [exact I | vm_compute; reflexivity].
  - split; [vm_compute; reflexivity|].
    intros (_ & Hlink & _).
    destruct (Hlink 1%nat) as (b & pb & Hb & Hpb & Hprev).
    { vm_compute. lia. }
    vm_compute in Hb. inversion Hb; subst b; clear Hb.
    vm_compute in Hpb. inversion Hpb; subst pb; clear Hpb.
    vm_compute in Hprev. discriminate Hprev.
Qed.

Lemma invariant_fails_on_shared_pool_list :
  reachable any_block Demo.s3
  /\ ~ In 1%nat (chain (self Demo.s1))
  /\ ~ chain_invariant Demo.s3.
Proof.
  split.
  - apply (reachable_step any_block Demo.s2 Demo.s3).
    + apply (reachable_step any_block Demo.s1 Demo.s2).
      * apply (reachable_step any_block Demo.a0 Demo.s1).
        -- apply reachable_fresh.
           exists 0, Demo.t0, Demo.empty_heap, (self Demo.a0), (heap Demo.a0).
           split; vm_compute; reflexivity.
        -- apply (step_new_block any_block Demo.a0 Demo.s1 1%nat EmptyString
                    Demo.t3 (Returns 1%nat)).
           vm_compute. reflexivity.
      * apply (step_add_block_to_chain any_block Demo.s1 Demo.s2 1%nat 1%nat
                 (Returns tt)); [exact I | vm_compute; reflexivity].
    + apply (step_add_transaction any_block Demo.s2 Demo.s3 Demo.transfer
               (Returns tt)).
      vm_compute. reflexivity.
  - split.
    { vm_compute. intros [Heq | []]. discriminate Heq. }
    intros (_ & _ & Hhash & _).
    destruct (Hhash 1%nat) as (b & txs & Hb & Ht & Hh).
    { vm_compute. lia. }
    vm_compute in Hb. inversion Hb; subst b; clear Hb.
    vm_compute in Ht. inversion Ht; subst txs; clear Ht.
    vm_compute in Hh. discriminate Hh.
Qed.

Lemma C2_invariant_reachable_witness :
  reachable outside_block Demo.c3
  /\ length (chain (self Demo.c3)) = 2%nat
  /\ chain_invariant Demo.c3.
Proof.
  assert (Hreach : reachable outside_block Demo.c3).
  { apply (reachable_step outside_block Demo.c2 Demo.c3).
    - apply (reachable_step outside_block Demo.c1 Demo.c2).
      + apply (reachable_step outside_block Demo.c0 Demo.c1).
        * apply reachable_fresh.
          exists 1, Demo.t4, Demo.empty_heap, (self Demo.c0), (heap Demo.c0).
          split; vm_compute; reflexivity.
        * apply (step_new_list outside_block Demo.c0 [Demo.transfer]).
      + apply (step_new_block outside_block Demo.c1 Demo.c2 2%nat EmptyString
                 Demo.t3 (Returns 1%nat)).
        vm_compute. reflexivity.
    - apply (step_add_block_to_chain outside_block Demo.c2 Demo.c3 1%nat
               Demo.fuel (Returns tt)).
      + split.
        * vm_compute. intros [Heq | []]. discriminate Heq.
        * intros b Hb. vm_compute in Hb. inversion Hb; subst b.
          vm_compute. intros Heq. discriminate Heq.
      + vm_compute. reflexivity. }
  split; [exact Hreach|].
  split; [vm_compute; reflexivity|].
  exact (C2_invariant_reachable Demo.c3 Hreach).
Defined.

(** C3, the claim as stated, fails: the pool holds a transaction that is
    not valid, [mine_transaction_pool] raises, and the pool has changed. *)
Lemma C3_counterexample :
  pool_contents Demo.bad_pool = Some [Demo.malformed]
  /\ Transaction.is_valid Demo.malformed = Returns false
  /\ Chain.mine_transaction_pool Demo.miner_address Demo.t1 Demo.fuel
       Demo.bad_pool
     = Some (Raises MiningInvalidTransactionError, Demo.bad_pool_mined)
  /\ pool_contents Demo.bad_pool_mined
     = Some [Demo.malformed; coinbase Demo.bad_pool Demo.miner_address]
  /\ pool_contents Demo.bad_pool_mined <> pool_contents Demo.bad_pool.
Proof.
  split; [vm_compute; reflexivity|].
  split; [vm_compute; reflexivity|].
  split; [vm_compute; reflexivity|].
  split; [vm_compute; reflexivity|].
  vm_compute. intros Heq. discriminate Heq.
Qed.

Lemma C3_failure_effects_witness :
  (Chain.add_transaction Demo.no_recipient Demo.w1
   = Some (Raises InvalidAddressError, Demo.w1))
  /\ (Chain.mine_transaction_pool Demo.miner_address Demo.t1 Demo.fuel
        Demo.bad_pool
      = Some (Raises MiningInvalidTransactionError, Demo.bad_pool_mined)
      /\ self Demo.bad_pool_mined = self Demo.bad_pool
      /\ exists l,
          pool_contents Demo.bad_pool = Some l
          /\ pool_contents Demo.bad_pool_mined
             = Some (l ++ [coinbase Demo.bad_pool Demo.miner_address])).
Proof.
  assert (Hadd : exists w', Chain.add_transaction Demo.no_recipient Demo.w1
                            = Some (Raises InvalidAddressError, w'))
    by (eexists; vm_compute; reflexivity).
  assert (Hmine : Chain.mine_transaction_pool Demo.miner_address Demo.t1 Demo.fuel Demo.bad_pool
                  = Some (Raises MiningInvalidTransactionError,
                          Demo.bad_pool_mined))
    by (vm_compute; reflexivity).
  split.
  - destruct Hadd as (w' & Hadd).
    destruct (C3_failure_effects Demo.w1) as [Hsame _].
    rewrite <- (Hsame _ _ _ Hadd) at 2. exact Hadd.
  - split; [exact Hmine|].
    destruct (C3_failure_effects Demo.bad_pool) as [_ Heffects].
    destruct (Heffects _ _ _ _ _ Hmine) as (Hself & _ & _ & Hpool).
    split; [exact Hself | exact Hpool].
Defined.

(** C4, the claim as stated, fails: signing a signed transaction again
    returns, and the second signature replaces the first. *)
Lemma C4_counterexample :
  signature Demo.transfer <> None
  /\ Transaction.sign Demo.key2 tt Demo.transfer
     = Some (Returns tt, Demo.resigned)
  /\ signature Demo.resigned <> signature Demo.transfer.
Proof.
  split; [vm_compute; intros Heq; discriminate Heq|].
  split; [vm_compute; reflexivity|].
  vm_compute. intros Heq. discriminate Heq.
Qed.

Lemma C4_sign_overwrites_witness :
  Py.printable (amount Demo.unsigned) = true
  /\ signature Demo.unsigned = None
  /\ exists tx',
      Transaction.sign Demo.key1 tt Demo.unsigned = Some (Returns tt, tx')
      /\ signature tx'
         = Some (ecdsa_sign Demo.key1 tt
                   (Py.encode (Transaction.compute_hash Demo.unsigned)))
      /\ amount tx' = amount Demo.unsigned
      /\ exists tx'',
          Transaction.sign Demo.key2 tt tx' = Some (Returns tt, tx'')
          /\ signature tx''
             = Some (ecdsa_sign Demo.key2 tt
                       (Py.encode (Transaction.compute_hash Demo.unsigned))).
Proof.
  assert (Hprintable : Py.printable (amount Demo.unsigned) = true)
    by (vm_compute; reflexivity).
  split; [exact Hprintable|]. split; [reflexivity|].
  destruct (@C4_sign_overwrites Example.crypto Demo.key1 tt Demo.unsigned
              Hprintable)
    as (tx' & Hsign & Hsig & _ & _ & Hamount & Hagain).
  exists tx'. split; [exact Hsign|]. split; [exact Hsig|].
  split; [exact Hamount|].
  destruct (Hagain Demo.key2 tt) as (tx'' & Hsign2 & Hsig2 & _).
  exists tx''. split; [exact Hsign2 | exact Hsig2].
Defined.

Lemma C5_is_valid_cases_witness :
  Transaction.is_valid (coinbase Demo.w0 Demo.miner_address) = Returns true
  /\ Transaction.is_valid Demo.unsigned = Raises MissingSignatureError
  /\ (exists b, Transaction.is_valid Demo.transfer = Returns b
                /\ (b = true <-> verifies Demo.address1
                                   (Example.tag (Example.point_of Demo.key1)
                                      (Py.encode
                                         (Transaction.compute_hash Demo.unsigned)))
                                   Demo.transfer))
  /\ Transaction.is_valid Demo.transfer = Returns true
  /\ Transaction.is_valid Demo.malformed = Returns false.
Proof.
  split.
  { apply (proj1 (C5_is_valid_cases (coinbase Demo.w0 Demo.miner_address))).
    reflexivity. }
  split.
  { apply (proj1 (proj2 (C5_is_valid_cases Demo.unsigned)) Demo.address1).
    - reflexivity.
    - left. reflexivity. }
  assert (Hsigned : exists b,
             Transaction.is_valid Demo.transfer = Returns b
             /\ (b = true <-> verifies Demo.address1
                                (Example.tag (Example.point_of Demo.key1)
                                   (Py.encode
                                      (Transaction.compute_hash Demo.unsigned)))
                                Demo.transfer)).
  { apply (proj1 (proj2 (proj2 (C5_is_valid_cases Demo.transfer)))).
    - reflexivity.
    - reflexivity.
    - vm_compute. intros Heq. discriminate Heq. }
  split; [exact Hsigned|].
  split; vm_compute; reflexivity.
Defined.

Lemma C6_mine_terminal_witness :
  (Block.mine 0%nat 1 Demo.fuel Demo.caller_heap
   = Some (Returns tt, Demo.caller_heap_mined)
   /\ exists b' txs,
       blocks Demo.caller_heap_mined !! 0%nat = Some b'
       /\ lists Demo.caller_heap_mined !! transactions b' = Some txs
       /\ 1 <= Z.of_nat (leading_zeros (hash b'))
       /\ hash b' = Block.digest txs b'
       /\ Block.compute_hash 0%nat Demo.caller_heap_mined
          = Some (Returns (hash b'), Demo.caller_heap_mined))
  /\ (exists b',
        Block.mine 0%nat 0 1 Demo.caller_heap
        = Some (Returns tt, with_block Demo.caller_heap 0%nat b')
        /\ nonce b' = nonce Demo.caller_block
        /\ hash b' = Block.digest [Demo.transfer] Demo.caller_block).
Proof.
  assert (Hrun : Block.mine 0%nat 1 Demo.fuel Demo.caller_heap
                 = Some (Returns tt, Demo.caller_heap_mined))
    by (vm_compute; reflexivity).
  split.
  - split; [exact Hrun|].
    exact (proj1 (C6_mine_terminal Demo.caller_heap 0%nat) _ _ _ Hrun).
  - apply (proj2 (C6_mine_terminal Demo.caller_heap 0%nat)).
    + vm_compute. reflexivity.
    + vm_compute. reflexivity.
    + vm_compute. reflexivity.
Defined.

Lemma C7_mine_transaction_pool_witness :
  Chain.mine_transaction_pool Demo.miner_address Demo.t1 Demo.fuel Demo.w1
  = Some (Returns tt, Demo.w2)
  /\ pool_contents Demo.w1 = Some [Demo.transfer]
  /\ exists l head r b,
      pool_contents Demo.w1 = Some l
      /\ block_at Demo.w1 (length (chain (self Demo.w1)) - 1) = Some head
      /\ r = length (blocks (heap Demo.w1))
      /\ chain (self Demo.w2) = chain (self Demo.w1) ++ [r]
      /\ length (chain (self Demo.w2)) = S (length (chain (self Demo.w1)))
      /\ blocks (heap Demo.w2) !! r = Some b
      /\ lists (heap Demo.w2) !! transactions b
         = Some (l ++ [coinbase Demo.w1 Demo.miner_address])
      /\ from_address (coinbase Demo.w1 Demo.miner_address) = None
      /\ to_address (coinbase Demo.w1 Demo.miner_address)
         = Some Demo.miner_address
      /\ amount (coinbase Demo.w1 Demo.miner_address) = miner_reward (self Demo.w1)
      /\ previous_hash b = hash head
      /\ pool_contents Demo.w2 = Some []
      /\ transaction_pool (self Demo.w2) <> transactions b
      /\ (forall r' b', blocks (heap Demo.w1) !! r' = Some b' ->
                        blocks (heap Demo.w2) !! r' = Some b')
      /\ miner_reward (self Demo.w2) = miner_reward (self Demo.w1)
      /\ difficulty (self Demo.w2) = difficulty (self Demo.w1).
Proof.
  assert (Hrun : Chain.mine_transaction_pool Demo.miner_address Demo.t1 Demo.fuel Demo.w1
                 = Some (Returns tt, Demo.w2))
    by (vm_compute; reflexivity).
  split; [exact Hrun|].
  split; [vm_compute; reflexivity|].
  exact (C7_mine_transaction_pool _ _ _ _ _ Hrun).
Defined.

Lemma C8_add_transaction_witness :
  (Py.truthy_str (to_address Demo.no_recipient) = false
   /\ Chain.add_transaction Demo.no_recipient Demo.w1
      = Some (Raises InvalidAddressError, Demo.w1)
   /\ pool_contents Demo.w1 = Some [Demo.transfer])
  /\ (Chain.add_transaction (coinbase Demo.w0 Demo.miner_address) Demo.w0
      = Some (Raises InvalidAddressError, Demo.w0))
  /\ (Transaction.is_valid Demo.tampered = Returns false
      /\ Chain.add_transaction Demo.tampered Demo.w0
         = Some (Raises InvalidTransactionError, Demo.w0))
  /\ (Transaction.is_valid Demo.refund = Returns true
      /\ exists w',
          Chain.add_transaction Demo.refund Demo.w1 = Some (Returns tt, w')
          /\ pool_contents w' = Some ([Demo.transfer] ++ [Demo.refund])
          /\ self w' = self Demo.w1
          /\ blocks (heap w') = blocks (heap Demo.w1)
          /\ length (lists (heap w')) = length (lists (heap Demo.w1))
          /\ (forall r, r <> transaction_pool (self Demo.w1) ->
                        lists (heap w') !! r = lists (heap Demo.w1) !! r)).
Proof.
  assert (Hto : Py.truthy_str (to_address Demo.no_recipient) = false)
    by reflexivity.
  assert (Hpool : pool_contents Demo.w1 = Some [Demo.transfer])
    by (vm_compute; reflexivity).
  assert (Hbad : Transaction.is_valid Demo.tampered = Returns false)
    by (vm_compute; reflexivity).
  assert (Hgood : Transaction.is_valid Demo.refund = Returns true)
    by (vm_compute; reflexivity).
  split; [|split; [|split]].
  - split; [exact Hto|]. split; [|exact Hpool].
    apply (proj1 (C8_add_transaction Demo.w1 Demo.no_recipient)).
    right. exact Hto.
  - apply (proj1 (proj2 (C8_add_transaction Demo.w0
                           (coinbase Demo.w0 Demo.miner_address)))).
    reflexivity.
  - split; [exact Hbad|].
    apply (proj1 (proj2 (proj2 (C8_add_transaction Demo.w0 Demo.tampered))));
      [vm_compute; reflexivity | vm_compute; reflexivity | exact Hbad].
  - split; [exact Hgood|].
    apply (proj1 (proj2 (proj2 (proj2 (C8_add_transaction Demo.w1 Demo.refund)))));
      [vm_compute; reflexivity | vm_compute; reflexivity | exact Hgood
      | exact Hpool].
Defined.

(** C9, the claim as stated, fails in its last part: the second block of
    this chain holds a transaction with a sender and no signature, and
    [validate_chain] returns a boolean, because the transaction before it
    in the block is not valid and ends the check of the block. *)
Lemma C9_counterexample :
  Chain.validate_chain Demo.mixed_block = Some (Returns false, Demo.mixed_block)
  /\ (exists b,
        block_at Demo.mixed_block 1 = Some b
        /\ lists (heap Demo.mixed_block) !! transactions b
           = Some [Demo.malformed; Demo.unsigned])
  /\ from_address Demo.unsigned <> None
  /\ signature Demo.unsigned = None.
Proof.
  split; [vm_compute; reflexivity|].
  split.
  { exists (nth 1 (blocks (heap Demo.mixed_block)) Demo.no_block).
    split; vm_compute; reflexivity. }
  split; [intros Heq; discriminate Heq | reflexivity].
Qed.

Lemma C9_missing_signature_propagates_witness :
  from_address Demo.unsigned <> None
  /\ Py.truthy_bytes (signature Demo.unsigned) = false
  /\ Chain.add_transaction Demo.unsigned Demo.w0
     = Some (Raises MissingSignatureError, Demo.w0)
  /\ Block.mine 1%nat 1 Demo.fuel (heap Demo.unsigned_block)
     = Some (Raises MissingSignatureError, heap Demo.unsigned_block)
  /\ Chain.validate_chain Demo.unsigned_block
     = Some (Raises MissingSignatureError, Demo.unsigned_block)
  /\ (Chain.validate_chain Demo.w2 = Some (Returns true, Demo.w2)
      /\ ~ In Demo.unsigned [Demo.transfer; coinbase Demo.w1 Demo.miner_address]).
Proof.
  assert (Hfrom : from_address Demo.unsigned <> None)
    by (intros Heq; discriminate Heq).
  assert (Hsig : Py.truthy_bytes (signature Demo.unsigned) = false)
    by reflexivity.
  destruct (C9_missing_signature_propagates Demo.unsigned Hfrom Hsig)
    as (Hadd & Hmine & Hvalidate & Htrue).
  assert (Hblock : block_at Demo.unsigned_block 1
                   = Some (nth 1 (blocks (heap Demo.unsigned_block)) Demo.no_block))
    by (vm_compute; reflexivity).
  assert (Hlist : lists (heap Demo.unsigned_block)
                    !! transactions (nth 1 (blocks (heap Demo.unsigned_block))
                                         Demo.no_block)
                  = Some ([] ++ Demo.unsigned :: []))
    by (vm_compute; reflexivity).
  assert (Hvalid : Chain.validate_chain Demo.w2 = Some (Returns true, Demo.w2))
    by (vm_compute; reflexivity).
  split; [exact Hfrom|]. split; [exact Hsig|].
  split.
  { apply Hadd; vm_compute; reflexivity. }
  split.
  { apply (Hmine (heap Demo.unsigned_block) 1%nat 1 Demo.fuel
             (nth 1 (blocks (heap Demo.unsigned_block)) Demo.no_block) [] []).
    - vm_compute. reflexivity.
    - exact Hlist.
    - constructor. }
  split.
  { apply (Hvalidate Demo.unsigned_block 1%nat
             (nth 1 (blocks (heap Demo.unsigned_block)) Demo.no_block) [] []).
    - vm_compute. lia.
    - intros j Hj. lia.
    - exact Hblock.
    - exact Hlist.
    - constructor. }
  split; [exact Hvalid|].
  apply (Htrue Demo.w2 1%nat (nth 1 (blocks (heap Demo.w2)) Demo.no_block)).
  - exact Hvalid.
  - lia.
  - vm_compute. reflexivity.
  - vm_compute. reflexivity.
Defined.

Lemma C10_amount_unconstrained_witness :
  reachable outside_block Demo.w0
  /\ amount Demo.refund < 0
  /\ Py.truthy_str (from_address Demo.refund) = true
  /\ Py.truthy_str (to_address Demo.refund) = true
  /\ Transaction.is_valid Demo.refund = Returns true
  /\ Chain.add_transaction Demo.refund Demo.w0 = Some (Returns tt, Demo.r1)
  /\ pool_contents Demo.r1 = Some [Demo.refund]
  /\ Chain.mine_transaction_pool Demo.miner_address Demo.t2 Demo.fuel Demo.r1
     = Some (Returns tt, Demo.r2)
  /\ Chain.validate_chain Demo.r2 = Some (Returns true, Demo.r2).
Proof.
  assert (Hreach : reachable outside_block Demo.w0).
  { apply reachable_fresh.
    exists 1, Demo.t0, Demo.empty_heap, (self Demo.w0), (heap Demo.w0).
    split; vm_compute; reflexivity. }
  assert (Hfrom : Py.truthy_str (from_address Demo.refund) = true)
    by (vm_compute; reflexivity).
  assert (Hto : Py.truthy_str (to_address Demo.refund) = true)
    by (vm_compute; reflexivity).
  assert (Hvalid : Transaction.is_valid Demo.refund = Returns true)
    by (vm_compute; reflexivity).
  assert (Hrun : Chain.mine_transaction_pool Demo.miner_address Demo.t2 Demo.fuel Demo.r1
                 = Some (Returns tt, Demo.r2))
    by (vm_compute; reflexivity).
  destruct (C10_amount_unconstrained Demo.w0 Demo.refund Hreach Hfrom Hto Hvalid)
    as (l & w1 & Hl & Hadd & Hpool & Hmine).
  assert (Hadd' : Chain.add_transaction Demo.refund Demo.w0
                  = Some (Returns tt, Demo.r1)) by (vm_compute; reflexivity).
  assert (Hempty : pool_contents Demo.w0 = Some [])
    by (vm_compute; reflexivity).
  assert (Hw1 : w1 = Demo.r1) by congruence.
  assert (Hl' : l = []) by congruence.
  subst w1 l.
  split; [exact Hreach|].
  split; [vm_compute; reflexivity|].
  split; [exact Hfrom|]. split; [exact Hto|]. split; [exact Hvalid|].
  split; [exact Hadd|]. split; [exact Hpool|]. split; [exact Hrun|].
  exact (proj1 (Hmine _ _ _ _ Hrun)).
Defined.

End Examples.

(** * Further properties

    Properties of the parts of the program that the statements above do
    not reach, and of the way its operations compose. *)

(** ** Decimal notation *)

Lemma append_assoc (a b c : string) : ((a ++ b) ++ c = a ++ (b ++ c))%string.
Proof. induction a as [|x a IH]; simpl; [reflexivity | now rewrite IH]. Qed.

Lemma string_of_revapp (l : Decimal.uint) : forall acc,
  NilEmpty.string_of_uint (Decimal.revapp l acc)
  = (NilEmpty.string_of_uint (Decimal.revapp l Decimal.Nil)
     ++ NilEmpty.string_of_uint acc)%string.
Proof.
  induction l as [|l IH|l IH|l IH|l IH|l IH|l IH|l IH|l IH|l IH|l IH];
    intros acc; simpl; [reflexivity | ..];
    rewrite IH; symmetry; rewrite IH; simpl;
    rewrite append_assoc; reflexivity.
Qed.

Lemma string_of_uint_nonnil (u : Decimal.uint) :
  u <> Decimal.Nil -> NilZero.string_of_uint u = NilEmpty.string_of_uint u.
Proof. destruct u; simpl; congruence. Qed.

Lemma revapp_nonnil (l : Decimal.uint) : forall acc,
  acc <> Decimal.Nil -> Decimal.revapp l acc <> Decimal.Nil.
Proof.
  induction l; intros acc Hacc; simpl; try assumption; apply IHl; discriminate.
Qed.

Lemma to_little_uint_nonnil (p : positive) : Pos.to_little_uint p <> Decimal.Nil.
Proof.
  intros E.
  pose proof (DecimalPos.Unsigned.of_to p) as Hp.
  unfold Pos.to_uint in Hp. rewrite E in Hp. discriminate Hp.
Qed.

Lemma to_uint_nonnil (p : positive) : Pos.to_uint p <> Decimal.Nil.
Proof.
  unfold Pos.to_uint, Decimal.rev.
  pose proof (to_little_uint_nonnil p) as Hp.
  destruct (Pos.to_little_uint p); try congruence; simpl;
    apply revapp_nonnil; discriminate.
Qed.

Lemma str_int_pos (p : positive) :
  Py.str_int (Z.pos p)
  = NilEmpty.string_of_uint (Decimal.rev (Pos.to_little_uint p)).
Proof.
  unfold Py.str_int. simpl.
  apply string_of_uint_nonnil, to_uint_nonnil.
Qed.

Lemma to_lu_pos (p : positive) :
  DecimalPos.Unsigned.to_lu (N.pos p) = Pos.to_little_uint p.
Proof. reflexivity. Qed.

(** The last digit of [10 * p + d]. *)
Lemma to_little_uint_digit (p : positive) (d : N) :
  (d <= 9)%N ->
  DecimalPos.Unsigned.to_lu (10 * N.pos p + d)
  = match d with
    | 0 => Decimal.D0 | 1 => Decimal.D1 | 2 => Decimal.D2 | 3 => Decimal.D3
    | 4 => Decimal.D4 | 5 => Decimal.D5 | 6 => Decimal.D6 | 7 => Decimal.D7
    | 8 => Decimal.D8 | _ => Decimal.D9
    end%N (Pos.to_little_uint p).
Proof.
  intros Hd.
  assert (H0 : DecimalPos.Unsigned.to_lu (10 * N.pos p)
               = Decimal.D0 (Pos.to_little_uint p))
    by apply DecimalPos.Unsigned.to_ldec_tenfold.
  assert (step : forall n, DecimalPos.Unsigned.to_lu (10 * N.pos p + N.succ n)
                           = Decimal.Little.succ
                               (DecimalPos.Unsigned.to_lu (10 * N.pos p + n))).
  { intros n. rewrite N.add_succ_r. apply DecimalPos.Unsigned.to_lu_succ. }
  assert (Hcases : (d = 0 \/ d = 1 \/ d = 2 \/ d = 3 \/ d = 4 \/ d = 5 \/ d = 6
                    \/ d = 7 \/ d = 8 \/ d = 9)%N) by lia.
  remember (10 * N.pos p)%N as X eqn:EX.
  remember (Pos.to_little_uint p) as l eqn:El.
  clear EX El.
  rewrite <- (N.add_0_r X) in H0.
  pose proof (step 0%N) as H1. change (N.succ 0) with 1%N in H1. rewrite H0 in H1.
  pose proof (step 1%N) as H2. change (N.succ 1) with 2%N in H2. rewrite H1 in H2.
  pose proof (step 2%N) as H3. change (N.succ 2) with 3%N in H3. rewrite H2 in H3.
  pose proof (step 3%N) as H4. change (N.succ 3) with 4%N in H4. rewrite H3 in H4.
  pose proof (step 4%N) as H5. change (N.succ 4) with 5%N in H5. rewrite H4 in H5.
  pose proof (step 5%N) as H6. change (N.succ 5) with 6%N in H6. rewrite H5 in H6.
  pose proof (step 6%N) as H7. change (N.succ 6) with 7%N in H7. rewrite H6 in H7.
  pose proof (step 7%N) as H8. change (N.succ 7) with 8%N in H8. rewrite H7 in H8.
  pose proof (step 8%N) as H9. change (N.succ 8) with 9%N in H9. rewrite H8 in H9.
  cbn [Decimal.Little.succ] in *.
  destruct Hcases as [->|[->|[->|[->|[->|[->|[->|[->|[->| ->]]]]]]]]]; assumption.
Qed.

(** [str(10 * a + d)] is [str(a)] followed by the digit [d]. *)
Lemma str_int_last_digit (a d : Z) :
  1 <= a -> 0 <= d <= 9 ->
  Py.str_int (10 * a + d) = (Py.str_int a ++ Py.str_int d)%string.
Proof.
  intros Ha Hd.
  destruct a as [|p|p]; try lia.
  assert (Hq : exists q, 10 * Z.pos p + d = Z.pos q
                         /\ N.pos q = (10 * N.pos p + Z.to_N d)%N).
  { destruct (10 * Z.pos p + d) as [|q|q] eqn:E; try lia.
    exists q. split; [reflexivity | lia]. }
  destruct Hq as (q & -> & Hq).
  rewrite !str_int_pos.
  rewrite <- (to_lu_pos q), Hq, to_little_uint_digit by lia.
  assert (Hcases : d = 0 \/ d = 1 \/ d = 2 \/ d = 3 \/ d = 4 \/ d = 5 \/ d = 6
                   \/ d = 7 \/ d = 8 \/ d = 9) by lia.
  unfold Decimal.rev.
  destruct Hcases as [->|[->|[->|[->|[->|[->|[->|[->|[->| ->]]]]]]]]];
    simpl Z.to_N; cbv iota; simpl Decimal.revapp;
    rewrite string_of_revapp; reflexivity.
Qed.

(** [str(d * 10 ^ (k + 1) + t)], for a digit [d] from 1 to 9 and a number
    [t] of [k + 1] digits, is the digit [d] followed by [str(t)]. *)
Lemma str_int_first_digit (k : nat) : forall d t,
  1 <= d <= 9 ->
  10 ^ Z.of_nat k <= t < 10 ^ Z.of_nat (S k) ->
  Py.str_int (d * 10 ^ Z.of_nat (S k) + t)
  = (Py.str_int d ++ Py.str_int t)%string.
Proof.
  induction k as [|k IH]; intros d t Hd Ht.
  - change (10 ^ Z.of_nat 0) with 1 in Ht.
    change (10 ^ Z.of_nat 1) with 10 in *.
    replace (d * 10 + t) with (10 * d + t) by lia.
    apply str_int_last_digit; lia.
  - assert (Hpow : forall j : nat, 10 ^ Z.of_nat (S j) = 10 * 10 ^ Z.of_nat j).
    { intros j. rewrite Nat2Z.inj_succ, Z.pow_succ_r by lia. reflexivity. }
    assert (Hpos : 0 < 10 ^ Z.of_nat k) by (apply Z.pow_pos_nonneg; lia).
    pose proof (Hpow (S k)) as H2. pose proof (Hpow k) as H1.
    pose proof (Z.div_mod t 10 ltac:(lia)) as Hdiv.
    pose proof (Z.mod_pos_bound t 10 ltac:(lia)) as Hmod.
    set (q := t / 10) in *. set (e := t mod 10) in *.
    assert (Hq : 10 ^ Z.of_nat k <= q < 10 ^ Z.of_nat (S k)) by lia.
    replace (d * 10 ^ Z.of_nat (S (S k)) + t)
      with (10 * (d * 10 ^ Z.of_nat (S k) + q) + e) by lia.
    rewrite str_int_last_digit by nia.
    rewrite (IH d q Hd Hq), append_assoc.
    replace (Py.str_int t) with (Py.str_int (10 * q + e)) by (f_equal; lia).
    rewrite (str_int_last_digit q e) by lia.
    reflexivity.
Qed.

(** ** Hexadecimal notation *)

Lemma hex_cons (x : byte) (b : Py.bytes) :
  Py.hex (x :: b)
  = String (Py.hex_digit (N.shiftr (Byte.to_N x) 4))
      (String (Py.hex_digit (N.land (Byte.to_N x) 15)) (Py.hex b)).
Proof.
  unfold Py.hex. simpl map.
  destruct b as [|y b]; [reflexivity|].
  simpl map. cbn [String.concat]. unfold Py.str2. reflexivity.
Qed.

Lemma fromhex_pair (x : byte) (rest : string) :
  Py.fromhex (String (Py.hex_digit (N.shiftr (Byte.to_N x) 4))
                (String (Py.hex_digit (N.land (Byte.to_N x) 15)) rest))
  = match Py.fromhex rest with
    | Some b => Some (x :: b)
    | None => None
    end.
Proof. destruct x; reflexivity. Qed.

Lemma fromhex_hex (b : Py.bytes) : Py.fromhex (Py.hex b) = Some b.
Proof.
  induction b as [|x b IH]; [reflexivity|].
  rewrite hex_cons, fromhex_pair, IH. reflexivity.
Qed.

Lemma hex_truthy (b : Py.bytes) :
  b <> [] -> Py.truthy_str (Some (Py.hex b)) = true.
Proof.
  destruct b as [|x b]; [congruence|]. intros _. rewrite hex_cons. reflexivity.
Qed.

(** ** The length of a digest *)









Section FurtherProperties.
Context `{Crypto}.

(** ** Blocks and their lists *)

Lemma digest_same_fields (txs : list Transaction) (b b' : Block) :
  previous_hash b' = previous_hash b ->
  nonce b' = nonce b ->
  timestamp b' = timestamp b ->
  Block.digest txs b' = Block.digest txs b.
Proof.
  intros Hp Hn Ht. unfold Block.digest, Block.block_string.
  rewrite Hp, Hn, Ht. reflexivity.
Qed.

Lemma list_append_eq (h : Heap) p txs tx :
  lists h !! p = Some txs ->
  list_append p tx h = Some (Returns tt, with_list h p (txs ++ [tx])).
Proof. intros Hp. unfold list_append. rewrite Hp. reflexivity. Qed.

(** X1.  [Block(transactions, previous_hash)] on an existing list object
    returns a new block object with the fields given, the nonce 1 and the
    hash that [compute_hash] returns on it, and leaves every other object
    as it was.  The block holds the list by reference: after a later
    [append] to the list the stored hash is still the one over the former
    contents, while [compute_hash] returns the one over the longer list. *)
Theorem block_init_holds_list_by_reference (h : Heap) (p : loc) (prev : string)
    (now : Z) (txs : list Transaction) :
  lists h !! p = Some txs ->
  exists b h',
    Block.__init__ p prev now h = Some (Returns (length (blocks h)), h')
    /\ blocks h !! length (blocks h) = None
    /\ blocks h' !! length (blocks h) = Some b
    /\ transactions b = p
    /\ previous_hash b = prev
    /\ timestamp b = now
    /\ nonce b = 1
    /\ hash b = Block.digest txs b
    /\ Block.compute_hash (length (blocks h)) h' = Some (Returns (hash b), h')
    /\ (forall r' b', blocks h !! r' = Some b' -> blocks h' !! r' = Some b')
    /\ lists h' = lists h
    /\ forall tx, exists h'',
        list_append p tx h' = Some (Returns tt, h'')
        /\ blocks h'' !! length (blocks h) = Some b
        /\ Block.compute_hash (length (blocks h)) h''
           = Some (Returns (Block.digest (txs ++ [tx]) b), h'').
Proof.
  intros Hp.
  set (b0 := {| transactions := p; previous_hash := prev; timestamp := now;
                nonce := 1; hash := EmptyString |}).
  exists (mined txs b0 1).
  eexists. split; [apply (block_init_eq h p prev now txs Hp)|].
  assert (Hr : (blocks h ++ [mined txs b0 1]) !! length (blocks h)
               = Some (mined txs b0 1)).
  { rewrite lookup_app_r by lia. now rewrite Nat.sub_diag. }
  split; [apply lookup_ge_None; lia|].
  split; [exact Hr|].
  do 4 (split; [reflexivity|]).
  assert (Hd : hash (mined txs b0 1) = Block.digest txs (mined txs b0 1)).
  { simpl. apply digest_same_fields; reflexivity. }
  split; [exact Hd|].
  split.
  { rewrite Hd. apply compute_hash_eq; [exact Hr | exact Hp]. }
  split.
  { intros r' b' Hb'. simpl. rewrite lookup_app_l; [exact Hb'|].
    apply lookup_lt_Some in Hb'. exact Hb'. }
  split; [reflexivity|].
  intros tx. eexists. split.
  { apply list_append_eq. simpl. exact Hp. }
  split; [exact Hr|].
  apply compute_hash_eq; [exact Hr|].
  simpl. apply list_lookup_insert_eq. apply lookup_lt_Some in Hp. exact Hp.
Qed.

(** ** The constructor of the chain *)

(** X2.  [Chain(difficulty)] returns for every value of [difficulty], which
    it stores unchecked: the chain holds one new block with no transaction,
    an empty previous hash and the nonce 1 (the genesis block is not mined),
    the pool is a new empty list distinct from the list of that block, the
    reward is 50, no object of the caller is touched, and [validate_chain]
    returns true on the new chain. *)
Theorem chain_init_validates (d now : Z) (h : Heap) :
  exists c h' g,
    Chain.__init__ d now h = Some (Returns c, h')
    /\ chain c = [length (blocks h)]
    /\ blocks h !! length (blocks h) = None
    /\ blocks h' !! length (blocks h) = Some g
    /\ previous_hash g = EmptyString
    /\ timestamp g = now
    /\ nonce g = 1
    /\ lists h' !! transactions g = Some []
    /\ lists h' !! transaction_pool c = Some []
    /\ transaction_pool c <> transactions g
    /\ miner_reward c = 50
    /\ difficulty c = d
    /\ (forall r b, blocks h !! r = Some b -> blocks h' !! r = Some b)
    /\ (forall r l, lists h !! r = Some l -> lists h' !! r = Some l)
    /\ Chain.validate_chain {| self := c; heap := h' |}
       = Some (Returns true, {| self := c; heap := h' |}).
Proof.
  pose proof (chain_init_eq d now h) as Hinit.
  do 3 eexists. split; [exact Hinit|].
  split; [reflexivity|].
  split; [apply lookup_ge_None; lia|].
  split.
  { simpl. rewrite lookup_app_r by lia. now rewrite Nat.sub_diag. }
  do 3 (split; [reflexivity|]).
  split.
  { simpl. rewrite lookup_app_l by (rewrite length_app; simpl; lia).
    rewrite lookup_app_r by lia. now rewrite Nat.sub_diag. }
  split.
  { simpl. rewrite lookup_app_r by (rewrite length_app; simpl; lia).
    rewrite length_app. simpl.
    replace (S (length (lists h)) - (length (lists h) + 1))%nat with 0%nat by lia.
    reflexivity. }
  split; [simpl; lia|].
  do 2 (split; [reflexivity|]).
  split.
  { intros r b Hb. simpl. rewrite lookup_app_l; [exact Hb|].
    apply lookup_lt_Some in Hb. exact Hb. }
  split.
  { intros r l Hl. simpl. pose proof (lookup_lt_Some _ _ _ Hl) as Hlt.
    rewrite lookup_app_l by (rewrite length_app; simpl; lia).
    rewrite lookup_app_l by exact Hlt. exact Hl. }
  apply well_formed_validate_chain, well_formed_fresh.
  exists d, now, h. do 2 eexists. split; [exact Hinit | reflexivity].
Qed.

(** ** The difficulty *)

Lemma set_difficulty_eq (d : Z) (w : World) :
  Chain.set_difficulty d w
  = Some (Returns tt, {| self := set_difficulty_field (self w) d;
                         heap := heap w |}).
Proof. reflexivity. Qed.

(** X3.  [set_difficulty] stores any value, unchecked, and changes nothing
    else; the blocks of the chain are not mined again, and the next block
    that [mine_transaction_pool] appends has a hash with at least that many
    leading zeros. *)
Theorem set_difficulty_governs_next_block (w : World) (d : Z) :
  exists w1,
    Chain.set_difficulty d w = Some (Returns tt, w1)
    /\ difficulty (self w1) = d
    /\ chain (self w1) = chain (self w)
    /\ transaction_pool (self w1) = transaction_pool (self w)
    /\ miner_reward (self w1) = miner_reward (self w)
    /\ heap w1 = heap w
    /\ forall addr now fuel w2,
        Chain.mine_transaction_pool addr now fuel w1 = Some (Returns tt, w2) ->
        (forall r b, blocks (heap w) !! r = Some b ->
                     blocks (heap w2) !! r = Some b)
        /\ exists b,
            block_at w2 (length (chain (self w))) = Some b
            /\ length (chain (self w2)) = S (length (chain (self w)))
            /\ d <= Z.of_nat (leading_zeros (hash b)).
Proof.
  eexists. split; [apply set_difficulty_eq|].
  do 5 (split; [reflexivity|]).
  intros addr now fuel w2 Hrun.
  apply mine_transaction_pool_inv in Hrun.
  destruct Hrun as (l & Hl & [(Ho & _) | (latest & lb & Hlatest & Hlb & Hcases)]);
    [discriminate Ho|].
  destruct Hcases as [(e & Ho & _) | (_ & _ & n & Hn & Hmeet & ->)];
    [discriminate Ho|].
  simpl in *. split.
  { intros r b Hb. rewrite lookup_app_l; [exact Hb|].
    apply lookup_lt_Some in Hb. exact Hb. }
  eexists. split.
  { unfold block_at. simpl.
    rewrite lookup_app_r by lia. rewrite Nat.sub_diag. simpl.
    rewrite lookup_app_r by lia. rewrite Nat.sub_diag. reflexivity. }
  split; [rewrite length_app; simpl; lia|].
  apply meets_target_leading_zeros. exact Hmeet.
Qed.

(** ** What validation reads *)

Lemma check_block_same_chain (w w' : World) i :
  chain (self w') = chain (self w) ->
  heap w' = heap w ->
  check_block w' i = check_block w i.
Proof.
  intros Hc Hh. unfold check_block, block_at. rewrite Hc, Hh. reflexivity.
Qed.

Lemma validate_chain_same_chain (w w' : World) :
  chain (self w') = chain (self w) ->
  heap w' = heap w ->
  result_of (Chain.validate_chain w') = result_of (Chain.validate_chain w).
Proof.
  intros Hc Hh.
  destruct (Nat.eq_dec (length (chain (self w))) 1%nat) as [Hone | Hmany].
  - rewrite (validate_chain_one w Hone).
    rewrite (validate_chain_one w') by (rewrite Hc; exact Hone).
    unfold block_at. rewrite Hc, Hh.
    destruct (chain (self w) !! 0%nat) as [r|]; [|reflexivity].
    destruct (blocks (heap w) !! r) as [b|]; [|reflexivity].
    destruct (lists (heap w) !! transactions b); reflexivity.
  - rewrite (validate_chain_many w Hmany).
    rewrite (validate_chain_many w') by (rewrite Hc; exact Hmany).
    rewrite Hc. apply validate_chain_loop_result.
    intros i _. apply check_block_same_chain; assumption.
Qed.

(** X4.  [validate_chain] reads the list of blocks and the objects in it
    and nothing else: its result is the same under any difficulty, reward
    and pool, so it never checks that a hash meets the difficulty.  In
    particular no call of [set_difficulty] changes what it returns. *)
Theorem validate_chain_ignores_difficulty (w : World) :
  (forall c, chain c = chain (self w) ->
             result_of (Chain.validate_chain {| self := c; heap := heap w |})
             = result_of (Chain.validate_chain w))
  /\ (forall d w1, Chain.set_difficulty d w = Some (Returns tt, w1) ->
                   result_of (Chain.validate_chain w1)
                   = result_of (Chain.validate_chain w)).
Proof.
  split.
  - intros c Hc. apply validate_chain_same_chain; [exact Hc | reflexivity].
  - intros d w1 Hset. rewrite set_difficulty_eq in Hset.
    inversion Hset; subst w1.
    apply validate_chain_same_chain; reflexivity.
Qed.

Lemma validate_loop_Raises (txs : list Transaction) e :
  Block.validate_transactions_loop txs = Raises e -> e = MissingSignatureError.
Proof.
  induction txs as [|tx txs IH]; simpl; [discriminate|].
  destruct (Transaction.is_valid tx) as [[|]|e'] eqn:Hv.
  - exact IH.
  - discriminate.
  - intros Heq. inversion Heq; subst e'.
    apply (is_valid_Raises tx e Hv).
Qed.

Lemma check_block_Raises (w : World) i e :
  check_block w i = Some (Raises e) -> e = MissingSignatureError.
Proof.
  intros Hc. apply check_block_raises_iff in Hc.
  destruct Hc as (b & txs & tx & _ & _ & _ & Hv).
  apply (is_valid_Raises tx e Hv).
Qed.

Lemma validate_chain_loop_reads (indices : list nat) : forall (w : World) o w',
  Chain.validate_chain_loop indices w = Some (o, w') ->
  w' = w /\ (forall e, o = Raises e -> e = MissingSignatureError).
Proof.
  induction indices as [|i rest IH]; intros w o w' Hrun.
  - inversion Hrun; subst. split; [reflexivity | discriminate].
  - rewrite validate_chain_loop_cons in Hrun.
    destruct (check_block w i) as [[[|]|e]|] eqn:Hc.
    + apply IH. exact Hrun.
    + inversion Hrun; subst. split; [reflexivity | discriminate].
    + injection Hrun as Ho Hw. subst o w'. split; [reflexivity|].
      intros e' He'. injection He' as <-.
      apply (check_block_Raises w i e Hc).
    + discriminate Hrun.
Qed.

(** X5.  [validate_chain] changes nothing, whatever it returns or raises.
    Where the interpreter prints every number of the store, the only
    exception that leaves it is the missing-signature [ValueError] of
    [is_valid], and on a chain of one block it returns a boolean.  (The
    bound is that of the interpreter: [compute_hash] raises [ValueError] on
    a number of more than 4300 digits, which the model does not show.) *)
Theorem validate_chain_reads_only (w : World) o w' :
  Chain.validate_chain w = Some (o, w') ->
  w' = w
  /\ (printable_store (heap w) = true ->
      (forall e, o = Raises e -> e = MissingSignatureError)
      /\ (length (chain (self w)) = 1%nat -> exists v, o = Returns v)).
Proof.
  intros Hrun.
  destruct (Nat.eq_dec (length (chain (self w))) 1%nat) as [Hone | Hmany].
  - rewrite (validate_chain_one w Hone) in Hrun.
    destruct (block_at w 0) as [b|]; [|discriminate Hrun].
    destruct (lists (heap w) !! transactions b); [|discriminate Hrun].
    inversion Hrun; subst.
    split; [reflexivity|]. intros _.
    split; [discriminate|]. intros _. eexists; reflexivity.
  - rewrite (validate_chain_many w Hmany) in Hrun.
    destruct (validate_chain_loop_reads _ _ _ _ Hrun) as [Hw He].
    split; [exact Hw|]. intros _.
    split; [exact He|]. intros Hone. contradiction.
Qed.

(** ** The latest block *)

Lemma add_transaction_self (tx : Transaction) (w : World) o w' :
  Chain.add_transaction tx w = Some (o, w') -> self w' = self w.
Proof.
  rewrite add_transaction_eq.
  destruct (negb (Py.truthy_str (from_address tx))
            || negb (Py.truthy_str (to_address tx)))%bool.
  { intros Heq; inversion Heq; reflexivity. }
  destruct (Transaction.is_valid tx) as [[|]|e].
  - destruct (pool_contents w); intros Heq; inversion Heq; reflexivity.
  - intros Heq; inversion Heq; reflexivity.
  - intros Heq; inversion Heq; reflexivity.
Qed.

Lemma step_chain_nonempty (allowed : World -> loc -> Prop) (w w' : World) :
  step allowed w w' -> chain (self w) <> [] -> chain (self w') <> [].
Proof.
  intros Hstep Hne.
  destruct Hstep as [w l | w w' p prev now o Hrun | w w' tx o Hrun
                     | w w' addr now fuel o Hrun | w w' r fuel o _ Hrun].
  - exact Hne.
  - rewrite on_heap_eq in Hrun.
    destruct (Block.__init__ p prev now (heap w)) as [[o' h']|];
      [|discriminate Hrun].
    inversion Hrun; subst. exact Hne.
  - rewrite (add_transaction_self tx w o w' Hrun). exact Hne.
  - apply mine_transaction_pool_inv in Hrun.
    destruct Hrun as (l & _ & [(_ & Hnil & _)
                              | (latest & lb & _ & _ & [(e & _ & -> & _)
                                                       | (_ & _ & n & _ & _ & ->)])]).
    + contradiction.
    + exact Hne.
    + simpl. intros Heq. apply app_eq_nil in Heq. destruct Heq as [_ Heq].
      discriminate Heq.
  - apply add_block_to_chain_inv in Hrun.
    destruct Hrun as [(_ & Hnil & _)
                     | (latest & lb & b & txs & _ & _ & _ & _
                        & [(e & _ & -> & _) | (_ & _ & n & _ & _ & ->)])].
    + contradiction.
    + exact Hne.
    + simpl. intros Heq. apply app_eq_nil in Heq. destruct Heq as [_ Heq].
      discriminate Heq.
Qed.

Lemma reachable_chain_nonempty (allowed : World -> loc -> Prop) (w : World) :
  reachable allowed w -> chain (self w) <> [].
Proof.
  induction 1 as [w (d & now & h & c & h' & Hinit & ->) | w w' _ IH Hstep].
  - rewrite chain_init_eq in Hinit. inversion Hinit; subst. discriminate.
  - exact (step_chain_nonempty allowed w w' Hstep IH).
Qed.

(** X6.  In every state that calls of the methods can reach from a new
    chain, whatever block objects are passed to [add_block_to_chain], the
    chain is not empty: [get_latest_block] returns its last element and
    changes nothing, and neither [mine_transaction_pool] nor
    [add_block_to_chain] raises the [IndexError] of [self.chain[-1]].  On an
    empty chain [get_latest_block] raises it. *)
Theorem get_latest_block_never_fails (w : World) :
  (reachable any_block w ->
   (exists r,
       chain (self w) !! (length (chain (self w)) - 1)%nat = Some r
       /\ Chain.get_latest_block w = Some (Returns r, w))
   /\ (forall addr now fuel o w',
          Chain.mine_transaction_pool addr now fuel w = Some (o, w') ->
          o <> Raises IndexError)
   /\ (forall r fuel o w',
          Chain.add_block_to_chain r fuel w = Some (o, w') ->
          o <> Raises IndexError))
  /\ (chain (self w) = [] ->
      Chain.get_latest_block w = Some (Raises IndexError, w)).
Proof.
  split.
  - intros Hreach.
    pose proof (reachable_chain_nonempty any_block w Hreach) as Hne.
    assert (Hpos : (0 < length (chain (self w)))%nat).
    { destruct (chain (self w)); [contradiction | simpl; lia]. }
    split.
    { destruct (latest_exists w Hpos) as (r & Hr).
      exists r. split; [exact Hr|].
      rewrite get_latest_block_eq, Hr. reflexivity. }
    split.
    + intros addr now fuel o w' Hrun.
      apply mine_transaction_pool_inv in Hrun.
      destruct Hrun as (l & _ & [(_ & Hnil & _)
                                | (latest & lb & _ & _
                                   & [(e & -> & _ & He) | (-> & _)])]).
      * contradiction.
      * destruct He as [He | (_ & ->)]; [|discriminate].
        apply validate_loop_Raises in He. subst e. discriminate.
      * discriminate.
    + intros r fuel o w' Hrun.
      apply add_block_to_chain_inv in Hrun.
      destruct Hrun as [(_ & Hnil & _)
                       | (latest & lb & b & txs & _ & _ & _ & _
                          & [(e & -> & _ & He) | (-> & _)])].
      * contradiction.
      * destruct He as [He | (_ & ->)]; [|discriminate].
        apply validate_loop_Raises in He. subst e. discriminate.
      * discriminate.
  - intros Hnil. rewrite get_latest_block_eq, Hnil. reflexivity.
Qed.

(** ** Mining *)

Lemma mined_mined (txs : list Transaction) (b : Block) (m n : Z) :
  mined txs (mined txs b m) n = mined txs b n.
Proof.
  reflexivity.
Qed.

Lemma digest_set_nonce_self (txs : list Transaction) (b : Block) :
  Block.digest txs (set_nonce b (nonce b)) = Block.digest txs b.
Proof. apply digest_same_fields; reflexivity. Qed.


Lemma mine_valid_eq (h : Heap) r d fuel b txs :
  blocks h !! r = Some b ->
  lists h !! transactions b = Some txs ->
  all_valid txs ->
  Block.mine r d fuel h = Block.mine_loop r d fuel h.
Proof.
  intros Hb Htxs Hvalid. unfold Block.mine.
  rewrite (bind_Returns _ _ h true h); [reflexivity|].
  rewrite (validate_transactions_eq h r b txs Hb Htxs).
  apply validate_loop_true_iff in Hvalid. rewrite Hvalid. reflexivity.
Qed.



(** *** A difficulty outside 0..64 *)







(** ** Blocks handed to the chain *)

(** X10.  [add_block_to_chain] neither pays a reward nor touches the pool
    or any list.  When it returns, the block object it was given is the new
    last element of the chain, with its previous hash overwritten by the
    hash of the former last block and a nonce and hash that meet the
    difficulty.  When the validation of the block's transactions fails, the
    chain is unchanged but the previous hash of the block object is already
    overwritten, its hash not being recomputed. *)
Theorem add_block_to_chain_effects (w : World) (r : loc) (fuel : nat) o
    (w' : World) :
  Chain.add_block_to_chain r fuel w = Some (o, w') ->
  (o = Raises IndexError /\ chain (self w) = [] /\ w' = w)
  \/ exists head b txs,
      block_at w (length (chain (self w)) - 1) = Some head
      /\ blocks (heap w) !! r = Some b
      /\ lists (heap w) !! transactions b = Some txs
      /\ transaction_pool (self w') = transaction_pool (self w)
      /\ miner_reward (self w') = miner_reward (self w)
      /\ difficulty (self w') = difficulty (self w)
      /\ lists (heap w') = lists (heap w)
      /\ (forall r', r' <> r -> blocks (heap w') !! r' = blocks (heap w) !! r')
      /\ ((o = Returns tt
           /\ all_valid txs
           /\ chain (self w') = chain (self w) ++ [r]
           /\ exists b',
               blocks (heap w') !! r = Some b'
               /\ previous_hash b' = hash head
               /\ transactions b' = transactions b
               /\ timestamp b' = timestamp b
               /\ nonce b <= nonce b'
               /\ hash b' = Block.digest txs b'
               /\ difficulty (self w) <= Z.of_nat (leading_zeros (hash b')))
          \/ (exists e,
                 o = Raises e
                 /\ ~ all_valid txs
                 /\ (e = MissingSignatureError
                     \/ e = MiningInvalidTransactionError)
                 /\ chain (self w') = chain (self w)
                 /\ blocks (heap w') !! r
                    = Some (set_previous_hash b (hash head)))).
Proof.
  intros Hrun. apply add_block_to_chain_inv in Hrun.
  destruct Hrun as [Hempty | (latest & lb & b & txs & Hlatest & Hlb & Hb & Htxs
                              & Hcases)]; [left; exact Hempty|].
  right. exists lb, b, txs.
  split; [unfold block_at; rewrite Hlatest; exact Hlb|].
  split; [exact Hb|]. split; [exact Htxs|].
  destruct Hcases as [(e & -> & -> & He) | (-> & Hv & n & Hn & Hmeet & ->)].
  - do 4 (split; [reflexivity|]).
    split; [intros r' Hr'; apply with_block_lookup_ne; congruence|].
    right. exists e. split; [reflexivity|].
    split.
    { intros Hvalid. apply validate_loop_true_iff in Hvalid.
      destruct He as [He | (He & _)]; congruence. }
    split.
    { destruct He as [He | (_ & ->)];
        [left; exact (validate_loop_Raises txs e He) | right; reflexivity]. }
    split; [reflexivity|].
    exact (with_block_lookup (heap w) r b _ Hb).
  - do 4 (split; [reflexivity|]).
    split; [intros r' Hr'; apply with_block_lookup_ne; congruence|].
    left. split; [reflexivity|].
    split; [apply validate_loop_true_iff; exact Hv|].
    split; [reflexivity|].
    eexists. split; [exact (with_block_lookup (heap w) r b _ Hb)|].
    do 3 (split; [reflexivity|]).
    split; [exact Hn|].
    split; [simpl; apply digest_same_fields; reflexivity|].
    apply meets_target_leading_zeros. exact Hmeet.
Qed.

(** ** The pool *)

Lemma poisoned_pool_step (w w' : World) (tx : Transaction) :
  poisoned w tx -> pool_step w w' ->
  poisoned w' tx /\ chain (self w') = chain (self w).
Proof.
  intros (l & Hl & Hin & Hbad) Hstep.
  destruct Hstep as [w w' tx' o Hrun | w w' addr now fuel o Hrun].
  - split; [|rewrite (add_transaction_self tx' w o w' Hrun); reflexivity].
    rewrite add_transaction_eq in Hrun.
    assert (Hsame : w' = w -> poisoned w' tx).
    { intros ->. exists l. auto. }
    destruct (negb (Py.truthy_str (from_address tx'))
              || negb (Py.truthy_str (to_address tx')))%bool.
    { apply Hsame. congruence. }
    destruct (Transaction.is_valid tx') as [[|]|e];
      [|apply Hsame; congruence|apply Hsame; congruence].
    rewrite Hl in Hrun. injection Hrun as _ <-.
    exists (l ++ [tx']).
    split; [apply (pool_contents_appended w l _ Hl)|].
    split; [apply in_or_app; left; exact Hin | exact Hbad].
  - apply mine_transaction_pool_inv in Hrun.
    destruct Hrun as (l' & Hl' & Hcases).
    rewrite Hl in Hl'. injection Hl' as <-.
    assert (Hin' : In tx (l ++ [coinbase w addr]))
      by (apply in_or_app; left; exact Hin).
    assert (Hp : (transaction_pool (self w) < length (lists (heap w)))%nat)
      by (apply lookup_lt_Some in Hl; exact Hl).
    destruct Hcases as [(_ & _ & ->)
                       | (latest & lb & _ & _
                          & [(e & _ & -> & _) | (_ & Hv & _)])].
    + split; [|reflexivity].
      exists (l ++ [coinbase w addr]).
      split; [apply (pool_contents_appended w l _ Hl)|]. auto.
    + split; [|reflexivity].
      exists (l ++ [coinbase w addr]).
      split; [|auto].
      unfold pool_contents. simpl. apply list_lookup_insert_eq. exact Hp.
    + apply validate_loop_true_iff in Hv.
      unfold all_valid in Hv. rewrite Forall_forall in Hv.
      specialize (Hv tx Hin'). contradiction.
Qed.

Lemma poisoned_never_mined (w : World) (tx : Transaction) addr now fuel w' :
  poisoned w tx ->
  Chain.mine_transaction_pool addr now fuel w <> Some (Returns tt, w').
Proof.
  intros (l & Hl & Hin & Hbad) Hrun.
  apply mine_transaction_pool_inv in Hrun.
  destruct Hrun as (l' & Hl' & Hcases).
  rewrite Hl in Hl'. injection Hl' as <-.
  destruct Hcases as [(Ho & _)
                     | (latest & lb & _ & _ & [(e & Ho & _) | (_ & Hv & _)])];
    try discriminate Ho.
  apply validate_loop_true_iff in Hv.
  unfold all_valid in Hv. rewrite Forall_forall in Hv.
  apply Hbad, Hv, in_or_app. left. exact Hin.
Qed.

(** X11.  A transaction in the pool on which [is_valid] does not return
    true stays there: after every sequence of calls of [add_transaction]
    and [mine_transaction_pool], returning or raising, that same
    transaction is still in the pool, the chain is what it was, and
    [mine_transaction_pool] never returns again. *)
Theorem poisoned_pool_stays (w w' : World) (tx : Transaction) :
  poisoned w tx ->
  pool_steps w w' ->
  (exists l', pool_contents w' = Some l' /\ In tx l')
  /\ Transaction.is_valid tx <> Returns true
  /\ chain (self w') = chain (self w)
  /\ forall addr now fuel w'',
      Chain.mine_transaction_pool addr now fuel w' <> Some (Returns tt, w'').
Proof.
  intros Hbad Hsteps.
  assert (Hinv : poisoned w' tx /\ chain (self w') = chain (self w)).
  { induction Hsteps as [w | w w1 w2 _ IH Hstep]; [auto|].
    destruct (IH Hbad) as [Hbad1 Hchain1].
    destruct (poisoned_pool_step w1 w2 tx Hbad1 Hstep) as [Hbad2 Hchain2].
    split; [exact Hbad2 | congruence]. }
  destruct Hinv as [Hbad' Hchain].
  split; [destruct Hbad' as (l' & Hl' & Hin' & _); eauto|].
  split; [destruct Hbad' as (l' & _ & _ & Hno); exact Hno|].
  split; [exact Hchain|].
  intros addr now fuel w''. apply (poisoned_never_mined w' tx). exact Hbad'.
Qed.

(** X12.  [add_transaction] keeps no record of what it has accepted: its
    verdict depends on the transaction alone, so a transaction accepted
    once is accepted again, right away and in every state reached later,
    and the pool then holds it once more. *)
Theorem add_transaction_accepts_again (tx : Transaction) (w0 w1 : World) :
  Chain.add_transaction tx w0 = Some (Returns tt, w1) ->
  (exists l w2,
      pool_contents w0 = Some l
      /\ Chain.add_transaction tx w1 = Some (Returns tt, w2)
      /\ pool_contents w2 = Some (l ++ [tx; tx]))
  /\ (forall w l,
         pool_contents w = Some l ->
         exists w', Chain.add_transaction tx w = Some (Returns tt, w')
                    /\ pool_contents w' = Some (l ++ [tx]))
  /\ (forall w, reachable outside_block w ->
                exists w', Chain.add_transaction tx w = Some (Returns tt, w')).
Proof.
  intros Hrun.
  assert (Hany : forall w l,
             pool_contents w = Some l ->
             exists w', Chain.add_transaction tx w = Some (Returns tt, w')
                        /\ pool_contents w' = Some (l ++ [tx])).
  { intros w l Hl. rewrite add_transaction_eq in Hrun |- *.
    destruct (negb (Py.truthy_str (from_address tx))
              || negb (Py.truthy_str (to_address tx)))%bool;
      [discriminate Hrun|].
    destruct (Transaction.is_valid tx) as [[|]|e]; try discriminate Hrun.
    rewrite Hl. eexists. split; [reflexivity|].
    apply (pool_contents_appended w l _ Hl). }
  split; [|split; [exact Hany|]].
  - assert (Hl0 : exists l, pool_contents w0 = Some l).
    { rewrite add_transaction_eq in Hrun.
      destruct (negb (Py.truthy_str (from_address tx))
                || negb (Py.truthy_str (to_address tx)))%bool;
        [discriminate Hrun|].
      destruct (Transaction.is_valid tx) as [[|]|e]; try discriminate Hrun.
      destruct (pool_contents w0) as [l|]; [eauto | discriminate Hrun]. }
    destruct Hl0 as (l & Hl).
    destruct (Hany w0 l Hl) as (w1' & Hrun' & Hl1).
    assert (w1' = w1) as -> by congruence.
    destruct (Hany w1 _ Hl1) as (w2 & Hrun2 & Hl2).
    exists l, w2. split; [exact Hl|]. split; [exact Hrun2|].
    rewrite Hl2, <- app_assoc. reflexivity.
  - intros w Hreach.
    destruct (well_formed_reachable w Hreach) as (_ & _ & (l & Hl) & _).
    destruct (Hany w l Hl) as (w' & Hrun' & _). eauto.
Qed.

(** ** What the hashes do not bind *)

Lemma str_int_nonempty (a : Z) : Py.str_int a <> EmptyString.
Proof.
  unfold Py.str_int.
  destruct a as [|p|p]; simpl; try discriminate;
    destruct (Pos.to_uint p); simpl; discriminate.
Qed.

Lemma truthy_append (s t : string) :
  t <> EmptyString -> Py.truthy_str (Some (s ++ t)%string) = true.
Proof.
  intros Ht. destruct s; [|reflexivity].
  destruct t; [contradiction | reflexivity].
Qed.

(** X13.  [Transaction.compute_hash] joins sender, recipient and amount with
    nothing between them, so the end of the recipient and the start of the
    amount are not told apart: a transaction to [r] of amount [10 * a + d]
    and the transaction to [r] followed by the digits of [a], of amount [d],
    have the same hash; the signature of one is valid for the other, and
    [add_transaction] accepts the second whenever it accepts the first. *)
Theorem amount_digits_pass_for_recipient (tx : Transaction) (a d : Z) :
  1 <= a ->
  0 <= d <= 9 ->
  amount tx = 10 * a + d ->
  Transaction.compute_hash (shift_amount tx a d) = Transaction.compute_hash tx
  /\ Transaction.is_valid (shift_amount tx a d) = Transaction.is_valid tx
  /\ forall w w',
      Chain.add_transaction tx w = Some (Returns tt, w') ->
      exists l w'',
        pool_contents w = Some l
        /\ Chain.add_transaction (shift_amount tx a d) w = Some (Returns tt, w'')
        /\ pool_contents w'' = Some (l ++ [shift_amount tx a d]).
Proof.
  intros Ha Hd Hamount.
  assert (Hhash : Transaction.compute_hash (shift_amount tx a d)
                  = Transaction.compute_hash tx).
  { unfold Transaction.compute_hash, shift_amount. simpl.
    rewrite Hamount, (str_int_last_digit a d Ha Hd), append_assoc.
    reflexivity. }
  assert (Hvalid : Transaction.is_valid (shift_amount tx a d)
                   = Transaction.is_valid tx).
  { unfold Transaction.is_valid. rewrite Hhash. reflexivity. }
  split; [exact Hhash|]. split; [exact Hvalid|].
  intros w w' Hrun. rewrite add_transaction_eq in Hrun |- *.
  rewrite Hvalid.
  destruct (Py.truthy_str (from_address tx)) eqn:Hfrom;
    [|discriminate Hrun].
  destruct (Py.truthy_str (to_address tx)) eqn:Hto; [|discriminate Hrun].
  simpl in Hrun.
  change (from_address (shift_amount tx a d)) with (from_address tx).
  rewrite Hfrom.
  change (to_address (shift_amount tx a d))
    with (Some (Py.str_optional (to_address tx) ++ Py.str_int a)%string).
  rewrite (truthy_append _ _ (str_int_nonempty a)). simpl.
  destruct (Transaction.is_valid tx) as [[|]|e]; try discriminate Hrun.
  destruct (pool_contents w) as [l|] eqn:Hl; [|discriminate Hrun].
  exists l. eexists. split; [reflexivity|]. split; [reflexivity|].
  apply (pool_contents_appended w l _ Hl).
Qed.

Lemma check_block_replaced (w : World) (r : loc) (b b' : Block) (i : nat) :
  blocks (heap w) !! r = Some b ->
  transactions b' = transactions b ->
  previous_hash b' = previous_hash b ->
  hash b' = hash b ->
  (forall txs, Block.digest txs b' = Block.digest txs b) ->
  check_block (with_heap w (with_block (heap w) r b')) i = check_block w i.
Proof.
  intros Hb Ht Hp Hh Hd.
  assert (Hat : forall j,
             block_at (with_heap w (with_block (heap w) r b')) j = block_at w j
             \/ (block_at (with_heap w (with_block (heap w) r b')) j = Some b'
                 /\ block_at w j = Some b)).
  { intros j. unfold block_at. simpl.
    destruct (chain (self w) !! j) as [r'|]; [|left; reflexivity].
    destruct (Nat.eq_dec r r') as [<- | Hne].
    - right. split; [exact (with_block_lookup (heap w) r b b' Hb) | exact Hb].
    - left. apply with_block_lookup_ne. exact Hne. }
  unfold check_block.
  assert (Hprev : match block_at (with_heap w (with_block (heap w) r b')) (i - 1) with
                  | Some pb => Some (hash pb) | None => None end
                  = match block_at w (i - 1) with
                    | Some pb => Some (hash pb) | None => None end).
  { destruct (Hat (i - 1)%nat) as [-> | [-> ->]]; [reflexivity|].
    rewrite Hh. reflexivity. }
  change (lists (heap (with_heap w (with_block (heap w) r b'))))
    with (lists (heap w)).
  destruct (Hat i) as [-> | [-> ->]].
  - destruct (block_at w i) as [bi|]; [|reflexivity].
    destruct (lists (heap w) !! transactions bi) as [txs|]; [|reflexivity].
    destruct (Block.validate_transactions_loop txs) as [[|]|e]; try reflexivity.
    destruct (negb (String.eqb (hash bi) (Block.digest txs bi))); [reflexivity|].
    destruct (block_at (with_heap w (with_block (heap w) r b')) (i - 1)),
             (block_at w (i - 1)); try discriminate Hprev; [|reflexivity].
    injection Hprev as ->. reflexivity.
  - rewrite Ht.
    destruct (lists (heap w) !! transactions b) as [txs|]; [|reflexivity].
    destruct (Block.validate_transactions_loop txs) as [[|]|e]; try reflexivity.
    rewrite Hh, Hd, Hp.
    destruct (negb (String.eqb (hash b) (Block.digest txs b))); [reflexivity|].
    destruct (block_at (with_heap w (with_block (heap w) r b')) (i - 1)),
             (block_at w (i - 1)); try discriminate Hprev; [|reflexivity].
    injection Hprev as ->. reflexivity.
Qed.

Lemma validate_chain_replaced (w : World) (r : loc) (b b' : Block) :
  blocks (heap w) !! r = Some b ->
  transactions b' = transactions b ->
  previous_hash b' = previous_hash b ->
  hash b' = hash b ->
  (forall txs, Block.digest txs b' = Block.digest txs b) ->
  result_of (Chain.validate_chain (with_heap w (with_block (heap w) r b')))
  = result_of (Chain.validate_chain w).
Proof.
  intros Hb Ht Hp Hh Hd.
  set (w' := with_heap w (with_block (heap w) r b')).
  destruct (Nat.eq_dec (length (chain (self w))) 1%nat) as [Hone | Hmany].
  - rewrite (validate_chain_one w Hone), (validate_chain_one w' Hone).
    change (lists (heap w')) with (lists (heap w)).
    unfold block_at.
    change (chain (self w')) with (chain (self w)).
    change (blocks (heap w')) with (blocks (with_block (heap w) r b')).
    destruct (chain (self w) !! 0%nat) as [r'|]; [|reflexivity].
    destruct (Nat.eq_dec r r') as [<- | Hne].
    + rewrite (with_block_lookup (heap w) r b b' Hb), Hb, Ht.
      destruct (lists (heap w) !! transactions b); [|reflexivity].
      rewrite Hh, Hd. reflexivity.
    + rewrite (with_block_lookup_ne (heap w) r r' b' Hne).
      destruct (blocks (heap w) !! r') as [b1|]; [|reflexivity].
      destruct (lists (heap w) !! transactions b1); reflexivity.
  - rewrite (validate_chain_many w Hmany), (validate_chain_many w' Hmany).
    apply validate_chain_loop_result.
    intros i _. apply (check_block_replaced w r b b' i); assumption.
Qed.

(** X14.  [Block.compute_hash] joins the nonce and the timestamp with
    nothing between them, so the first digit of the timestamp passes for
    the last digit of the nonce: the block with nonce [10 * n + d] and
    timestamp [t] has the hash of the block with nonce [n] and timestamp
    [d] followed by the digits of [t].  Rewriting a block of the chain in
    this way leaves the result of [validate_chain] as it was. *)
Theorem timestamp_digit_passes_for_nonce (w : World) (r : loc) (b : Block)
    (d t : Z) (k : nat) :
  blocks (heap w) !! r = Some b ->
  1 <= nonce b ->
  1 <= d <= 9 ->
  10 ^ Z.of_nat k <= t < 10 ^ Z.of_nat (S k) ->
  timestamp b = d * 10 ^ Z.of_nat (S k) + t ->
  (forall txs, Block.digest txs (shift_timestamp b d t) = Block.digest txs b)
  /\ result_of (Chain.validate_chain
                  (with_heap w (with_block (heap w) r (shift_timestamp b d t))))
     = result_of (Chain.validate_chain w).
Proof.
  intros Hb Hn Hd Ht Hstamp.
  assert (Hdigest : forall txs,
             Block.digest txs (shift_timestamp b d t) = Block.digest txs b).
  { intros txs. unfold Block.digest, Block.block_string, shift_timestamp. simpl.
    rewrite Hstamp, (str_int_first_digit k d t Hd Ht).
    rewrite (str_int_last_digit (nonce b) d) by lia.
    rewrite append_assoc. reflexivity. }
  split; [exact Hdigest|].
  apply (validate_chain_replaced w r b); try reflexivity; assumption.
Qed.

(** The loop returns once some nonce from the current one upwards meets
    the target and the fuel covers the distance. *)
Lemma mine_loop_returns (r : loc) (d : Z) (txs : list Transaction) (k : nat) :
  forall (h : Heap) (b : Block),
    blocks h !! r = Some b ->
    lists h !! transactions b = Some txs ->
    meets_target (Block.digest txs (set_nonce b (nonce b + Z.of_nat k))) d = true ->
    exists h', Block.mine_loop r d (S k) h = Some (Returns tt, h').
Proof.
  induction k as [|k IH]; intros h b Hb Htxs Hmeet;
    rewrite (mine_loop_step h r d _ b txs Hb Htxs).
  - replace (nonce b + Z.of_nat 0) with (nonce b) in Hmeet by lia.
    rewrite digest_set_nonce_self in Hmeet. rewrite Hmeet. eauto.
  - destruct (meets_target (Block.digest txs b) d); [eauto|].
    set (b1 := mined txs b (nonce b + 1)).
    apply (IH _ b1).
    + exact (with_block_lookup h r b b1 Hb).
    + exact Htxs.
    + replace (nonce b1 + Z.of_nat k) with (nonce b + Z.of_nat (S k))
        by (simpl nonce; lia).
      rewrite <- Hmeet. reflexivity.
Qed.

(** X15.  Mining a mined block again changes nothing: after a call of
    [mine] that returned, every further call with the same difficulty
    returns after one turn of the loop and leaves the store as it is. *)
Theorem mine_again_changes_nothing (h : Heap) (r : loc) (d : Z) (fuel : nat)
    (h' : Heap) :
  Block.mine r d fuel h = Some (Returns tt, h') ->
  forall fuel', Block.mine r d (S fuel') h' = Some (Returns tt, h').
Proof.
  intros Hrun fuel'. apply mine_inv in Hrun.
  destruct Hrun as (b & txs & Hb & Htxs
                    & [(e & Ho & _) | (_ & Hv & n & Hn & -> & Hmeet & _)]);
    [discriminate Ho|].
  assert (Hb' : blocks (with_block h r (mined txs b n)) !! r
                = Some (mined txs b n)) by exact (with_block_lookup h r b _ Hb).
  assert (Hvalid : all_valid txs) by (apply validate_loop_true_iff; exact Hv).
  rewrite (mine_valid_eq _ r d (S fuel') _ txs Hb' Htxs Hvalid).
  rewrite (mine_loop_step _ r d fuel' _ txs Hb' Htxs).
  assert (Hd : Block.digest txs (mined txs b n) = hash (mined txs b n))
    by (simpl; apply digest_same_fields; reflexivity).
  rewrite Hd, Hmeet, with_block_twice.
  change (nonce (mined txs b n)) with n. rewrite mined_mined. reflexivity.
Qed.

(** ** Rewards *)



(** ** What no call changes *)

Lemma step_settings (allowed : World -> loc -> Prop) (w w' : World) :
  step allowed w w' ->
  miner_reward (self w') = miner_reward (self w)
  /\ difficulty (self w') = difficulty (self w)
  /\ (chain (self w') = chain (self w)
      \/ exists r, chain (self w') = chain (self w) ++ [r]).
Proof.
  intros Hstep.
  destruct Hstep as [w l | w w' p prev now o Hrun | w w' tx o Hrun
                     | w w' addr now fuel o Hrun | w w' r fuel o _ Hrun].
  - auto.
  - rewrite on_heap_eq in Hrun.
    destruct (Block.__init__ p prev now (heap w)) as [[o' h']|];
      [|discriminate Hrun].
    injection Hrun as _ <-. auto.
  - rewrite (add_transaction_self tx w o w' Hrun). auto.
  - apply mine_transaction_pool_inv in Hrun.
    destruct Hrun as (l & _ & [(_ & _ & ->)
                              | (latest & lb & _ & _ & [(e & _ & -> & _)
                                                       | (_ & _ & n & _ & _ & ->)])]).
    + auto.
    + auto.
    + split; [reflexivity|]. split; [reflexivity|]. right. eexists. reflexivity.
  - apply add_block_to_chain_inv in Hrun.
    destruct Hrun as [(_ & _ & ->)
                     | (latest & lb & b & txs & _ & _ & _ & _
                        & [(e & _ & -> & _) | (_ & _ & n & _ & _ & ->)])].
    + auto.
    + auto.
    + split; [reflexivity|]. split; [reflexivity|]. right. eexists. reflexivity.
Qed.

(** X17.  No call of [add_transaction], [mine_transaction_pool] or
    [add_block_to_chain], returning or raising, changes the reward or the
    difficulty, and each leaves the list of blocks as it was or longer by
    one reference at its end.  In every state reachable from a new chain
    the reward is therefore 50, and what [mine_transaction_pool] pays is
    50. *)
Theorem reward_and_difficulty_are_kept (allowed : World -> loc -> Prop)
    (w w' : World) :
  step allowed w w' ->
  miner_reward (self w') = miner_reward (self w)
  /\ difficulty (self w') = difficulty (self w)
  /\ (chain (self w') = chain (self w)
      \/ exists r, chain (self w') = chain (self w) ++ [r])
  /\ (reachable allowed w ->
      miner_reward (self w') = 50
      /\ forall addr, amount (coinbase w' addr) = 50).
Proof.
  intros Hstep.
  destruct (step_settings allowed w w' Hstep) as (Hreward & Hd & Hchain).
  split; [exact Hreward|]. split; [exact Hd|]. split; [exact Hchain|].
  intros Hreach.
  assert (H50 : miner_reward (self w) = 50).
  { clear Hstep Hreward Hd Hchain.
    induction Hreach as [w (d & now & h & c & h' & Hinit & ->)
                        | w0 w1 _ IH Hstep1].
    - rewrite chain_init_eq in Hinit. injection Hinit as <- _. reflexivity.
    - destruct (step_settings allowed w0 w1 Hstep1) as (-> & _). exact IH. }
  split; [congruence|]. intros addr. simpl. congruence.
Qed.

End FurtherProperties.

Section DemonstrationProperties.
Context `{KeyPairs}.

(** ** Key pairs *)

(** X18.  [is_valid] never takes an address that [generate_key_pair]
    returned for a malformed one: on a transaction sent from such an
    address, carrying a signature and an amount that the interpreter
    prints, the hexadecimal address is decoded to the encoded point of the
    generated public key, and the result is true exactly when the key
    library accepts that point and verifies the signature under the key it
    gives, false otherwise; no exception is raised. *)
Theorem generated_address_is_decoded (drawn : private_key)
    (tx : Transaction) (s : Py.bytes) :
  from_address tx = Some (snd (generate_key_pair drawn)) ->
  signature tx = Some s ->
  s <> [] ->
  Py.printable (amount tx) = true ->
  Transaction.is_valid tx
  = Returns
      match from_encoded_point (public_bytes (public_key_of drawn)) with
      | Some key => ecdsa_verify key s (Py.encode (Transaction.compute_hash tx))
      | None => false
      end.
Proof.
  intros Hfrom Hsig Hs _.
  unfold Transaction.is_valid. rewrite Hfrom, Hsig.
  destruct s as [|x s]; [contradiction|].
  change (snd (generate_key_pair drawn))
    with (Py.hex (public_bytes (public_key_of drawn))).
  rewrite fromhex_hex.
  destruct (from_encoded_point (public_bytes (public_key_of drawn))) as [key|];
    [|reflexivity].
  destruct (ecdsa_verify key (x :: s) (Py.encode (Transaction.compute_hash tx)));
    reflexivity.
Qed.

Lemma signed_with_own_key (drawn : private_key) (k : entropy)
    (recipient : option string) (amount : Z) :
  let tx0 := Transaction.__init__ (Some (snd (generate_key_pair drawn)))
               recipient amount in
  let data := Py.encode (Transaction.compute_hash tx0) in
  from_encoded_point (public_bytes (public_key_of drawn))
  = Some (public_key_of drawn) ->
  ecdsa_verify (public_key_of drawn) (ecdsa_sign drawn k data) data = true ->
  ecdsa_sign drawn k data <> [] ->
  Transaction.is_valid (set_signature tx0 (Some (ecdsa_sign drawn k data)))
  = Returns true.
Proof.
  intros tx0 data Hdecode Hverify Hsig.
  destruct (is_valid_signed
              (set_signature tx0 (Some (ecdsa_sign drawn k data)))
              (snd (generate_key_pair drawn)) (ecdsa_sign drawn k data)
              eq_refl eq_refl Hsig) as (v & Hv & Hiff).
  rewrite Hv. f_equal. apply Hiff.
  exists (public_bytes (public_key_of drawn)), (public_key_of drawn).
  split; [apply fromhex_hex|]. split; [exact Hdecode|].
  rewrite compute_hash_set_signature. exact Hverify.
Qed.

(** X19.  Where the key library decodes the encoded point of a key to that
    key and verifies the signatures that the key makes, a transaction sent
    from the address of a generated key pair and signed with its private
    key is valid, whatever the recipient and the amount, and
    [add_transaction] appends it to the pool when the recipient is not
    empty. *)
Theorem own_transaction_is_valid (drawn : private_key) (k : entropy)
    (recipient : option string) (amount : Z) :
  let tx0 := Transaction.__init__ (Some (snd (generate_key_pair drawn)))
               recipient amount in
  let data := Py.encode (Transaction.compute_hash tx0) in
  from_encoded_point (public_bytes (public_key_of drawn))
  = Some (public_key_of drawn) ->
  ecdsa_verify (public_key_of drawn) (ecdsa_sign drawn k data) data = true ->
  ecdsa_sign drawn k data <> [] ->
  exists tx,
    Transaction.sign (fst (generate_key_pair drawn)) k tx0
    = Some (Returns tt, tx)
    /\ Transaction.is_valid tx = Returns true
    /\ (public_bytes (public_key_of drawn) <> [] ->
        Py.truthy_str recipient = true ->
        forall w l,
          pool_contents w = Some l ->
          exists w', Chain.add_transaction tx w = Some (Returns tt, w')
                     /\ pool_contents w' = Some (l ++ [tx])).
Proof.
  intros tx0 data Hdecode Hverify Hsig.
  exists (set_signature tx0 (Some (ecdsa_sign drawn k data))).
  split; [apply sign_Returns|].
  pose proof (signed_with_own_key drawn k recipient amount
                Hdecode Hverify Hsig) as Hvalid.
  split; [exact Hvalid|].
  intros Hbytes Hrecipient w l Hl.
  rewrite add_transaction_eq.
  fold tx0 data in Hvalid. rewrite Hvalid.
  change (from_address (set_signature tx0 (Some (ecdsa_sign drawn k data))))
    with (Some (Py.hex (public_bytes (public_key_of drawn)))).
  change (to_address (set_signature tx0 (Some (ecdsa_sign drawn k data))))
    with recipient.
  rewrite (hex_truthy _ Hbytes), Hrecipient, Hl. simpl.
  eexists. split; [reflexivity|].
  apply (pool_contents_appended w l _ Hl).
Qed.

(** ** The demonstration *)

Lemma on_object_sign {W} (key : private_key) (k : entropy) (tx : Transaction)
    (w : W) :
  on_object (Transaction.sign key k) tx w
  = Some (Returns
            (set_signature tx
               (Some (ecdsa_sign key k
                        (Py.encode (Transaction.compute_hash tx))))),
          w).
Proof. unfold on_object. rewrite sign_Returns. reflexivity. Qed.

(** The demonstration up to the call of [mine_transaction_pool]: the world
    in which it mines, and what it does with the outcome. *)
Lemma demonstration_eq (d : Z) (drawn1 drawn2 drawn3 : private_key)
    (k : entropy) (now0 now1 : Z) (fuel : nat) (h : Heap) :
  let tx1 := demonstration_transaction drawn1 drawn2 k in
  Transaction.is_valid tx1 = Returns true ->
  public_bytes (public_key_of drawn1) <> [] ->
  public_bytes (public_key_of drawn2) <> [] ->
  exists w1,
    well_formed w1
    /\ pool_contents w1 = Some [tx1]
    /\ chain (self w1) = [length (blocks h)]
    /\ transaction_pool (self w1) = S (length (lists h))
    /\ miner_reward (self w1) = 50
    /\ difficulty (self w1) = d
    /\ length (blocks (heap w1)) = S (length (blocks h))
    /\ blocks (heap w1) !! length (blocks h)
       = Some (mined [] {| transactions := length (lists h);
                           previous_hash := EmptyString;
                           timestamp := now0; nonce := 1;
                           hash := EmptyString |} 1)
    /\ demonstration d drawn1 drawn2 drawn3 k now0 now1 fuel h
       = match Chain.mine_transaction_pool (snd (generate_key_pair drawn3))
                 now1 fuel w1 with
         | Some (Returns _, w2) =>
             with_chain (self w2)
               (is_valid <~ Chain.validate_chain ;;
                blockchain <~ get_self ;;
                latest <~ Chain.get_latest_block ;;
                latest_block <~ on_heap (load_block latest) ;;
                ret (is_valid, length (chain blockchain), hash latest_block))
               (heap w2)
         | Some (Raises e, w2) => Some (Raises e, heap w2)
         | None => None
         end.
Proof.
  intros tx1 Hvalid Hb1 Hb2.
  pose proof (chain_init_eq d now0 h) as Hinit.
  set (c0 := {| chain := [length (blocks h)];
                transaction_pool := S (length (lists h));
                miner_reward := 50; difficulty := d |}) in *.
  set (g := mined [] {| transactions := length (lists h);
                        previous_hash := EmptyString;
                        timestamp := now0; nonce := 1;
                        hash := EmptyString |} 1) in *.
  set (h0 := {| blocks := blocks h ++ [g];
                lists := (lists h ++ [[]]) ++ [[]] |}) in *.
  set (w0 := {| self := c0; heap := h0 |}).
  assert (Hwf0 : well_formed w0).
  { apply well_formed_fresh. exists d, now0, h, c0, h0. auto. }
  assert (Hpool0 : pool_contents w0 = Some []).
  { unfold pool_contents. simpl.
    rewrite lookup_app_r by (rewrite length_app; simpl; lia).
    rewrite length_app. simpl.
    replace (S (length (lists h)) - (length (lists h) + 1))%nat with 0%nat by lia.
    reflexivity. }
  set (w1 := with_heap w0 (with_list (heap w0) (transaction_pool (self w0))
                             ([] ++ [tx1]))).
  assert (Hadd : Chain.add_transaction tx1 w0 = Some (Returns tt, w1)).
  { rewrite add_transaction_eq, Hvalid, Hpool0.
    change (from_address tx1)
      with (Some (Py.hex (public_bytes (public_key_of drawn1)))).
    change (to_address tx1)
      with (Some (Py.hex (public_bytes (public_key_of drawn2)))).
    rewrite (hex_truthy _ Hb1), (hex_truthy _ Hb2). reflexivity. }
  exists w1.
  split; [exact (add_transaction_well_formed tx1 w0 _ w1 Hwf0 Hadd)|].
  split; [exact (pool_contents_appended w0 [] _ Hpool0)|].
  do 4 (split; [reflexivity|]).
  split; [simpl; rewrite length_app; simpl; lia|].
  split.
  { simpl. rewrite lookup_app_r by lia. rewrite Nat.sub_diag. reflexivity. }
  unfold demonstration.
  rewrite (bind_Returns _ _ h c0 h0 Hinit).
  unfold with_chain. fold w0.
  change (main_body drawn1 drawn2 drawn3 k now1 fuel)
    with (transaction1 <~ on_object (Transaction.sign drawn1 k)
                            (Transaction.__init__
                               (Some (snd (generate_key_pair drawn1)))
                               (Some (snd (generate_key_pair drawn2))) 100) ;;
          Chain.add_transaction transaction1 ;;;
          Chain.mine_transaction_pool (snd (generate_key_pair drawn3)) now1 fuel ;;;
          is_valid <~ Chain.validate_chain ;;
          blockchain <~ get_self ;;
          latest <~ Chain.get_latest_block ;;
          latest_block <~ on_heap (load_block latest) ;;
          ret (is_valid, length (chain blockchain), hash latest_block)).
  rewrite (bind_Returns _ _ w0 _ w0 (on_object_sign drawn1 k _ w0)).
  fold (demonstration_transaction drawn1 drawn2 k). fold tx1.
  rewrite (bind_Returns _ _ w0 tt w1 Hadd).
  destruct (Chain.mine_transaction_pool (snd (generate_key_pair drawn3))
              now1 fuel w1) as [[[[]|e] w2]|] eqn:Hmine.
  - rewrite (bind_Returns _ _ w1 tt w2 Hmine). destruct w2; reflexivity.
  - rewrite (bind_Raises _ _ w1 e w2 Hmine). reflexivity.
  - rewrite (bind_None _ _ w1 Hmine). reflexivity.
Qed.

(** The outcomes of the demonstration, by the outcome of its call of
    [mine_transaction_pool]. *)
Lemma demonstration_cases (d : Z) (drawn1 drawn2 drawn3 : private_key)
    (k : entropy) (now0 now1 : Z) (fuel : nat) (h : Heap) :
  let tx1 := demonstration_transaction drawn1 drawn2 k in
  Transaction.is_valid tx1 = Returns true ->
  public_bytes (public_key_of drawn1) <> [] ->
  public_bytes (public_key_of drawn2) <> [] ->
  exists w1,
    pool_contents w1 = Some [tx1]
    /\ chain (self w1) = [length (blocks h)]
    /\ transaction_pool (self w1) = S (length (lists h))
    /\ miner_reward (self w1) = 50
    /\ difficulty (self w1) = d
    /\ blocks (heap w1) !! length (blocks h)
       = Some (mined [] {| transactions := length (lists h);
                           previous_hash := EmptyString;
                           timestamp := now0; nonce := 1;
                           hash := EmptyString |} 1)
    /\ match Chain.mine_transaction_pool (snd (generate_key_pair drawn3))
               now1 fuel w1 with
       | None => demonstration d drawn1 drawn2 drawn3 k now0 now1 fuel h = None
       | Some (o, w2) =>
           exists n h',
             1 <= n
             /\ demonstration d drawn1 drawn2 drawn3 k now0 now1 fuel h
                = Some (Returns
                          (true, 2%nat,
                           demonstration_hash drawn1 drawn2 drawn3 k
                             now0 now1 h n),
                        h')
             /\ d <= Z.of_nat
                       (leading_zeros
                          (demonstration_hash drawn1 drawn2 drawn3 k
                             now0 now1 h n))
       end.
Proof.
  intros tx1 Hvalid Hb1 Hb2.
  assert (Hloop : Block.validate_transactions_loop
                    [tx1; Transaction.__init__ None
                            (Some (snd (generate_key_pair drawn3))) 50]
                  = Returns true).
  { simpl. fold tx1 in Hvalid. rewrite Hvalid. reflexivity. }
  destruct (demonstration_eq d drawn1 drawn2 drawn3 k now0 now1 fuel h
              Hvalid Hb1 Hb2)
    as (w1 & Hwf1 & Hpool1 & Hchain1 & Hp1 & Hreward1 & Hd1 & Hlen1 & Hg
        & ->).
  exists w1. do 6 (split; [assumption|]).
  destruct (Chain.mine_transaction_pool (snd (generate_key_pair drawn3))
              now1 fuel w1) as [[o w2]|] eqn:Hmine; [|reflexivity].
  pose proof (mine_transaction_pool_well_formed _ _ _ w1 o w2 Hwf1 Hmine)
    as Hwf2.
  apply mine_transaction_pool_inv in Hmine.
  destruct Hmine as (l & Hl & Hcases).
  fold tx1 in Hpool1.
  assert (l = [tx1]) as -> by congruence.
  destruct Hcases as [(_ & Hnil & _) | (latest & lb & Hlatest & Hlb & Hcases)].
  { rewrite Hchain1 in Hnil. discriminate Hnil. }
  rewrite Hchain1 in Hlatest. simpl in Hlatest.
  assert (latest = length (blocks h)) as -> by congruence.
  set (g := mined [] {| transactions := length (lists h);
                        previous_hash := EmptyString;
                        timestamp := now0; nonce := 1;
                        hash := EmptyString |} 1) in *.
  pose proof (eq_trans (eq_sym Hlb) Hg) as Hsame. injection Hsame as ->.
  unfold coinbase in Hcases. rewrite Hreward1 in Hcases.
  simpl app in Hcases.
  set (txs := [tx1; Transaction.__init__ None
                      (Some (snd (generate_key_pair drawn3))) 50]) in *.
  cbv zeta in Hcases.
  destruct Hcases as [(e & _ & _ & [He | (He & _)])
                     | (-> & _ & n & Hn & Hmeet & Hw2)];
    [pose proof (eq_trans (eq_sym He) Hloop) as Hno; discriminate Hno
    | pose proof (eq_trans (eq_sym He) Hloop) as Hno; discriminate Hno |].
  assert (Hhash : hash (mined txs (candidate w1 txs g now1) n)
                  = demonstration_hash drawn1 drawn2 drawn3 k now0 now1 h n).
  { unfold demonstration_hash, candidate. simpl hash. rewrite Hp1.
    apply digest_same_fields; reflexivity. }
  assert (Hmeet' : meets_target
                     (demonstration_hash drawn1 drawn2 drawn3 k now0 now1 h n) d
                   = true)
    by (rewrite <- Hhash, <- Hd1; exact Hmeet).
  exists n, (heap w2). split; [exact Hn|].
  split; [|apply meets_target_leading_zeros; exact Hmeet'].
  unfold with_chain.
  replace {| self := self w2; heap := heap w2 |} with w2
    by (destruct w2; reflexivity).
  rewrite (bind_Returns _ _ w2 true w2 (well_formed_validate_chain w2 Hwf2)).
  rewrite (bind_Returns _ _ w2 (self w2) w2 eq_refl).
  assert (Hlast : chain (self w2)
                  = [length (blocks h); length (blocks (heap w1))])
    by (rewrite Hw2; simpl; rewrite Hchain1; reflexivity).
  assert (Hlatest2 : Chain.get_latest_block w2
                     = Some (Returns (length (blocks (heap w1))), w2)).
  { rewrite get_latest_block_eq, Hlast. reflexivity. }
  rewrite (bind_Returns _ _ w2 _ w2 Hlatest2).
  assert (Hblock : blocks (heap w2) !! length (blocks (heap w1))
                   = Some (mined txs (candidate w1 txs g now1) n)).
  { rewrite Hw2. simpl. rewrite lookup_app_r by lia.
    rewrite Nat.sub_diag. reflexivity. }
  rewrite (bind_Returns _ _ w2 _ w2 (on_heap_load_block w2 _ _ Hblock)).
  unfold ret. rewrite Hlast, Hhash. reflexivity.
Qed.

(** X20.  The block under [if __name__ == "__main__"], where the key
    library decodes the encoded point of the first key to that key and
    verifies the signature the key made: no exception is raised; when mining has found its nonce the three
    values printed are [True], the length 2 and a hash with at least as many
    leading zeros as the difficulty (4 in the source), which is the hash of
    the mined block at that nonce; and the program does end whenever some
    nonce gives that block a hash meeting the difficulty. *)
Theorem demonstration_prints_valid_chain (d : Z)
    (drawn1 drawn2 drawn3 : private_key) (k : entropy) (now0 now1 : Z)
    (h : Heap) :
  let data :=
    Py.encode
      (Transaction.compute_hash
         (Transaction.__init__ (Some (snd (generate_key_pair drawn1)))
                               (Some (snd (generate_key_pair drawn2))) 100)) in
  from_encoded_point (public_bytes (public_key_of drawn1))
  = Some (public_key_of drawn1) ->
  ecdsa_verify (public_key_of drawn1) (ecdsa_sign drawn1 k data) data = true ->
  ecdsa_sign drawn1 k data <> [] ->
  public_bytes (public_key_of drawn1) <> [] ->
  public_bytes (public_key_of drawn2) <> [] ->
  (forall fuel,
      demonstration d drawn1 drawn2 drawn3 k now0 now1 fuel h = None
      \/ exists n h',
          1 <= n
          /\ demonstration d drawn1 drawn2 drawn3 k now0 now1 fuel h
             = Some (Returns
                       (true, 2%nat,
                        demonstration_hash drawn1 drawn2 drawn3 k
                          now0 now1 h n),
                     h')
          /\ d <= Z.of_nat
                    (leading_zeros
                       (demonstration_hash drawn1 drawn2 drawn3 k
                          now0 now1 h n)))
  /\ (forall n,
         1 <= n ->
         meets_target
           (demonstration_hash drawn1 drawn2 drawn3 k now0 now1 h n) d = true ->
         exists fuel v h',
           demonstration d drawn1 drawn2 drawn3 k now0 now1 fuel h
           = Some (Returns v, h')).
Proof.
  intros data Hdecode Hverify Hsig Hb1 Hb2.
  pose proof (signed_with_own_key drawn1 k
                (Some (snd (generate_key_pair drawn2))) 100
                Hdecode Hverify Hsig) as Hvalid.
  change (Transaction.is_valid (demonstration_transaction drawn1 drawn2 k)
          = Returns true) in Hvalid.
  split.
  - intros fuel.
    destruct (demonstration_cases d drawn1 drawn2 drawn3 k now0 now1 fuel h
                Hvalid Hb1 Hb2) as (w1 & _ & _ & _ & _ & _ & _ & Hcases).
    destruct (Chain.mine_transaction_pool (snd (generate_key_pair drawn3))
                now1 fuel w1) as [[o w2]|]; [right | left]; exact Hcases.
  - intros n Hn Hmeet.
    exists (S (Z.to_nat (n - 1))).
    destruct (demonstration_cases d drawn1 drawn2 drawn3 k now0 now1
                (S (Z.to_nat (n - 1))) h Hvalid Hb1 Hb2)
      as (w1 & Hpool1 & Hchain1 & Hp1 & Hreward1 & Hd1 & Hg & Hcases).
    assert (Hlatest : chain (self w1) !! (length (chain (self w1)) - 1)%nat
                      = Some (length (blocks h)))
      by (rewrite Hchain1; reflexivity).
    pose proof (mine_transaction_pool_eq (snd (generate_key_pair drawn3)) now1
                  (S (Z.to_nat (n - 1))) w1 _ _ _ Hpool1 Hlatest Hg) as Hmine.
    cbv zeta in Hmine.
    unfold coinbase in Hmine. rewrite Hreward1 in Hmine. simpl app in Hmine.
    set (txs := [demonstration_transaction drawn1 drawn2 k;
                 Transaction.__init__ None
                   (Some (snd (generate_key_pair drawn3))) 50]) in *.
    set (g := mined [] {| transactions := length (lists h);
                          previous_hash := EmptyString;
                          timestamp := now0; nonce := 1;
                          hash := EmptyString |} 1) in *.
    set (h3 := {| blocks := blocks (heap w1) ++ [candidate w1 txs g now1];
                  lists := <[transaction_pool (self w1) := txs]>
                             (lists (heap w1)) |}) in *.
    assert (Hb : blocks h3 !! length (blocks (heap w1))
                 = Some (candidate w1 txs g now1)).
    { simpl. rewrite lookup_app_r by lia. rewrite Nat.sub_diag. reflexivity. }
    assert (Htxs : lists h3 !! transactions (candidate w1 txs g now1) = Some txs).
    { simpl. apply list_lookup_insert_eq.
      unfold pool_contents in Hpool1. apply lookup_lt_Some in Hpool1.
      exact Hpool1. }
    assert (Hall : all_valid txs).
    { apply validate_loop_true_iff. simpl. rewrite Hvalid. reflexivity. }
    rewrite (mine_valid_eq h3 _ _ _ _ txs Hb Htxs Hall) in Hmine.
    destruct (mine_loop_returns (length (blocks (heap w1))) (difficulty (self w1))
                txs (Z.to_nat (n - 1)) h3 _ Hb Htxs) as (h4 & Hrun).
    { rewrite Hd1. rewrite <- Hmeet. f_equal.
      unfold demonstration_hash. fold txs.
      apply digest_same_fields; simpl; try reflexivity; lia. }
    rewrite Hrun in Hmine. rewrite Hmine in Hcases.
    destruct Hcases as (n' & h' & _ & Hdem & _). eauto.
Qed.

End DemonstrationProperties.

(** * Examples of the further properties *)

Section FurtherExamples.
Local Existing Instance Example.crypto.
Local Existing Instance example_key_pairs.


Lemma block_init_holds_list_by_reference_witness :
  lists (heap Demo.c1) !! 2%nat = Some [Demo.transfer]
  /\ exists b h',
      Block.__init__ 2%nat EmptyString Demo.t3 (heap Demo.c1)
      = Some (Returns 1%nat, h')
      /\ blocks h' !! 1%nat = Some b
      /\ nonce b = 1
      /\ hash b = Block.digest [Demo.transfer] b
      /\ exists h'',
          list_append 2%nat Demo.refund h' = Some (Returns tt, h'')
          /\ blocks h'' !! 1%nat = Some b
          /\ Block.compute_hash 1%nat h''
             = Some (Returns (Block.digest ([Demo.transfer] ++ [Demo.refund]) b),
                     h'').
Proof.
  assert (Hl : lists (heap Demo.c1) !! 2%nat = Some [Demo.transfer])
    by (vm_compute; reflexivity).
  split; [exact Hl|].
  destruct (block_init_holds_list_by_reference (heap Demo.c1) 2%nat EmptyString
              Demo.t3 [Demo.transfer] Hl)
    as (b & h' & Hinit & _ & Hb & _ & _ & _ & Hn & Hh & _ & _ & _ & Happend).
  exists b, h'. split; [exact Hinit|]. split; [exact Hb|].
  split; [exact Hn|]. split; [exact Hh|].
  exact (Happend Demo.refund).
Defined.




Lemma amount_digits_pass_for_recipient_witness :
  amount Demo.transfer = 10 * 10 + 0
  /\ to_address Scenario.shifted = Some (Demo.address2 ++ "10")%string
  /\ amount Scenario.shifted = 0
  /\ Transaction.compute_hash Scenario.shifted
     = Transaction.compute_hash Demo.transfer
  /\ Transaction.is_valid Scenario.shifted = Returns true
  /\ exists w'',
      Chain.add_transaction Scenario.shifted Demo.w0 = Some (Returns tt, w'')
      /\ pool_contents w'' = Some ([] ++ [Scenario.shifted]).
Proof.
  assert (Hamount : amount Demo.transfer = 10 * 10 + 0)
    by (vm_compute; reflexivity).
  destruct (amount_digits_pass_for_recipient Demo.transfer 10 0
              ltac:(lia) ltac:(lia) Hamount) as (Hhash & Hvalid & Hadd).
  split; [exact Hamount|].
  split; [vm_compute; reflexivity|].
  split; [reflexivity|].
  split; [exact Hhash|].
  split.
  { unfold Scenario.shifted. rewrite Hvalid. vm_compute. reflexivity. }
  assert (Hrun : Chain.add_transaction Demo.transfer Demo.w0
                 = Some (Returns tt, Demo.w1)) by (vm_compute; reflexivity).
  destruct (Hadd Demo.w0 Demo.w1 Hrun) as (l & w'' & Hl & Hrun' & Hpool).
  assert (l = []) as ->.
  { assert (Hl0 : pool_contents Demo.w0 = Some []) by (vm_compute; reflexivity).
    congruence. }
  exists w''. split; [exact Hrun' | exact Hpool].
Defined.

(** [bytes.hex] and [bytes.fromhex] on a few byte strings, as the
    interpreter gives them. *)
Lemma hex_examples :
  Py.hex [x00; x0f; xa5; xff] = "000fa5ff"
  /\ Py.hex [] = EmptyString
  /\ Py.fromhex "000FA5ff" = Some [x00; x0f; xa5; xff]
  /\ Py.fromhex "00 0f" = Some [x00; x0f]
  /\ Py.fromhex "0" = None
  /\ Py.fromhex "0g" = None.
Proof. repeat split; vm_compute; reflexivity. Qed.

Lemma generated_address_is_decoded_witness :
  from_address Demo.transfer = Some (snd (generate_key_pair Scenario.drawn1))
  /\ from_address Demo.resigned = Some (snd (generate_key_pair Scenario.drawn1))
  /\ Py.printable (amount Demo.transfer) = true
  /\ Py.printable (amount Demo.resigned) = true
  /\ Transaction.is_valid Demo.transfer = Returns true
  /\ Transaction.is_valid Demo.resigned = Returns false.
Proof.
  assert (Hfrom1 : from_address Demo.transfer
                   = Some (snd (generate_key_pair Scenario.drawn1)))
    by (vm_compute; reflexivity).
  assert (Hfrom2 : from_address Demo.resigned
                   = Some (snd (generate_key_pair Scenario.drawn1)))
    by (vm_compute; reflexivity).
  split; [exact Hfrom1|]. split; [exact Hfrom2|].
  split; [vm_compute; reflexivity|]. split; [vm_compute; reflexivity|].
  split.
  - rewrite (generated_address_is_decoded Scenario.drawn1 Demo.transfer
               (Example.tag (Example.point_of Demo.key1)
                  (Py.encode (Transaction.compute_hash Demo.unsigned)))
               Hfrom1).
    + vm_compute. reflexivity.
    + vm_compute. reflexivity.
    + vm_compute. discriminate.
    + vm_compute. reflexivity.
  - rewrite (generated_address_is_decoded Scenario.drawn1 Demo.resigned
               (Example.tag (Example.point_of Demo.key2)
                  (Py.encode (Transaction.compute_hash Demo.unsigned)))
               Hfrom2).
    + vm_compute. reflexivity.
    + vm_compute. reflexivity.
    + vm_compute. discriminate.
    + vm_compute. reflexivity.
Defined.

Lemma own_transaction_is_valid_witness :
  Transaction.sign Demo.key1 tt Demo.unsigned = Some (Returns tt, Demo.transfer)
  /\ Demo.unsigned
     = Transaction.__init__ (Some (snd (generate_key_pair Scenario.drawn1)))
         (Some Demo.address2) 100
  /\ exists tx,
      Transaction.sign (fst (generate_key_pair Scenario.drawn1)) tt Demo.unsigned
      = Some (Returns tt, tx)
      /\ Transaction.is_valid tx = Returns true
      /\ exists w',
          Chain.add_transaction tx Demo.w0 = Some (Returns tt, w')
          /\ pool_contents w' = Some ([] ++ [tx]).
Proof.
  split; [vm_compute; reflexivity|].
  split; [reflexivity|].
  destruct (own_transaction_is_valid Scenario.drawn1 tt (Some Demo.address2) 100)
    as (tx & Hsign & Hvalid & Hadd).
  - vm_compute. reflexivity.
  - vm_compute. reflexivity.
  - vm_compute. discriminate.
  - exists tx. split; [exact Hsign|]. split; [exact Hvalid|].
    apply Hadd.
    + vm_compute. discriminate.
    + reflexivity.
    + vm_compute. reflexivity.
Defined.

Lemma demonstration_prints_valid_chain_witness :
  Transaction.is_valid (demonstration_transaction Scenario.drawn1 Scenario.drawn2 tt)
  = Returns true
  /\ meets_target
       (demonstration_hash Scenario.drawn1 Scenario.drawn2 Scenario.drawn3 tt Demo.t0 Demo.t1
          Demo.empty_heap 2) 1 = true
  /\ demonstration 1 Scenario.drawn1 Scenario.drawn2 Scenario.drawn3 tt Demo.t0 Demo.t1 1
       Demo.empty_heap = None
  /\ (forall fuel,
         main Scenario.drawn1 Scenario.drawn2 Scenario.drawn3 tt Demo.t0 Demo.t1 fuel
           Demo.empty_heap = None
         \/ exists n h',
             1 <= n
             /\ main Scenario.drawn1 Scenario.drawn2 Scenario.drawn3 tt Demo.t0 Demo.t1 fuel
                  Demo.empty_heap
                = Some (Returns
                          (true, 2%nat,
                           demonstration_hash Scenario.drawn1 Scenario.drawn2 Scenario.drawn3 tt
                             Demo.t0 Demo.t1 Demo.empty_heap n),
                        h')
             /\ 4 <= Z.of_nat
                       (leading_zeros
                          (demonstration_hash Scenario.drawn1 Scenario.drawn2 Scenario.drawn3 tt
                             Demo.t0 Demo.t1 Demo.empty_heap n)))
  /\ exists fuel v h',
      demonstration 1 Scenario.drawn1 Scenario.drawn2 Scenario.drawn3 tt Demo.t0 Demo.t1 fuel
        Demo.empty_heap
      = Some (Returns v, h').
Proof.
  assert (Hvalid : Transaction.is_valid
                     (demonstration_transaction Scenario.drawn1 Scenario.drawn2 tt)
                   = Returns true) by (vm_compute; reflexivity).
  assert (Hdecode : from_encoded_point
                      (public_bytes (public_key_of Scenario.drawn1))
                    = Some (public_key_of Scenario.drawn1))
    by (vm_compute; reflexivity).
  assert (Hverify :
            let data :=
              Py.encode
                (Transaction.compute_hash
                   (Transaction.__init__
                      (Some (snd (generate_key_pair Scenario.drawn1)))
                      (Some (snd (generate_key_pair Scenario.drawn2))) 100)) in
            ecdsa_verify (public_key_of Scenario.drawn1)
              (ecdsa_sign Scenario.drawn1 tt data) data = true)
    by (vm_compute; reflexivity).
  assert (Hsig :
            let data :=
              Py.encode
                (Transaction.compute_hash
                   (Transaction.__init__
                      (Some (snd (generate_key_pair Scenario.drawn1)))
                      (Some (snd (generate_key_pair Scenario.drawn2))) 100)) in
            ecdsa_sign Scenario.drawn1 tt data <> [])
    by (vm_compute; discriminate).
  assert (Hb1 : public_bytes (public_key_of Scenario.drawn1) <> [])
    by (vm_compute; discriminate).
  assert (Hb2 : public_bytes (public_key_of Scenario.drawn2) <> [])
    by (vm_compute; discriminate).
  assert (Hmeet : meets_target
                    (demonstration_hash Scenario.drawn1 Scenario.drawn2 Scenario.drawn3 tt
                       Demo.t0 Demo.t1 Demo.empty_heap 2) 1 = true)
    by (vm_compute; reflexivity).
  split; [exact Hvalid|]. split; [exact Hmeet|].
  split; [vm_compute; reflexivity|].
  split.
  - exact (proj1 (demonstration_prints_valid_chain 4 Scenario.drawn1 Scenario.drawn2
                    Scenario.drawn3 tt Demo.t0 Demo.t1 Demo.empty_heap
                    Hdecode Hverify Hsig Hb1 Hb2)).
  - exact (proj2 (demonstration_prints_valid_chain 1 Scenario.drawn1 Scenario.drawn2
                    Scenario.drawn3 tt Demo.t0 Demo.t1 Demo.empty_heap
                    Hdecode Hverify Hsig Hb1 Hb2) 2 ltac:(lia) Hmeet).
Defined.

Lemma validate_chain_reads_only_witness :
  printable_store (heap Demo.unsigned_block) = true
  /\ printable_store (heap Demo.w0) = true
  /\ length (chain (self Demo.w0)) = 1%nat
  /\ (exists e w',
         Chain.validate_chain Demo.unsigned_block = Some (Raises e, w')
         /\ w' = Demo.unsigned_block
         /\ e = MissingSignatureError)
  /\ exists v w',
      Chain.validate_chain Demo.w0 = Some (Returns v, w')
      /\ w' = Demo.w0.
Proof.
  assert (Hstore1 : printable_store (heap Demo.unsigned_block) = true)
    by (vm_compute; reflexivity).
  assert (Hstore0 : printable_store (heap Demo.w0) = true)
    by (vm_compute; reflexivity).
  assert (Hone : length (chain (self Demo.w0)) = 1%nat) by reflexivity.
  split; [exact Hstore1|]. split; [exact Hstore0|]. split; [exact Hone|].
  split.
  - assert (Hrun : Chain.validate_chain Demo.unsigned_block
                   = Some (Raises MissingSignatureError, Demo.unsigned_block))
      by (vm_compute; reflexivity).
    destruct (validate_chain_reads_only Demo.unsigned_block _ _ Hrun)
      as (Hw & Hclauses).
    exists MissingSignatureError, Demo.unsigned_block.
    split; [exact Hrun|]. split; [exact Hw|].
    exact (proj1 (Hclauses Hstore1) MissingSignatureError eq_refl).
  - destruct (Chain.validate_chain Demo.w0) as [[o w']|] eqn:Hrun;
      [|vm_compute in Hrun; discriminate Hrun].
    destruct (validate_chain_reads_only Demo.w0 o w' Hrun) as (Hw & Hclauses).
    destruct (proj2 (Hclauses Hstore0) Hone) as (v & ->).
    exists v, w'. split; [reflexivity | exact Hw].
Defined.

Lemma add_block_to_chain_effects_witness :
  Chain.add_block_to_chain 1%nat Demo.fuel Demo.c2 = Some (Returns tt, Demo.c3)
  /\ exists head b txs,
      block_at Demo.c2 (length (chain (self Demo.c2)) - 1) = Some head
      /\ blocks (heap Demo.c2) !! 1%nat = Some b
      /\ lists (heap Demo.c2) !! transactions b = Some txs
      /\ transaction_pool (self Demo.c3) = transaction_pool (self Demo.c2)
      /\ lists (heap Demo.c3) = lists (heap Demo.c2)
      /\ chain (self Demo.c3) = chain (self Demo.c2) ++ [1%nat]
      /\ exists b',
          blocks (heap Demo.c3) !! 1%nat = Some b'
          /\ previous_hash b' = hash head
          /\ nonce b <= nonce b'
          /\ hash b' = Block.digest txs b'
          /\ difficulty (self Demo.c2) <= Z.of_nat (leading_zeros (hash b')).
Proof.
  assert (Hrun : Chain.add_block_to_chain 1%nat Demo.fuel Demo.c2
                 = Some (Returns tt, Demo.c3)) by (vm_compute; reflexivity).
  split; [exact Hrun|].
  destruct (add_block_to_chain_effects Demo.c2 1%nat Demo.fuel _ _ Hrun)
    as [(Ho & _) | (head & b & txs & Hhead & Hb & Htxs & Hpool & _ & _ & Hlists
                    & _ & Hcases)]; [discriminate Ho|].
  exists head, b, txs.
  split; [exact Hhead|]. split; [exact Hb|]. split; [exact Htxs|].
  split; [exact Hpool|]. split; [exact Hlists|].
  destruct Hcases as [(_ & _ & Hchain & b' & Hb' & Hprev & _ & _ & Hn & Hh & Hz)
                     | (e & Ho & _)]; [|discriminate Ho].
  split; [exact Hchain|].
  exists b'. split; [exact Hb'|]. split; [exact Hprev|]. split; [exact Hn|].
  split; [exact Hh | exact Hz].
Defined.

Lemma poisoned_pool_stays_witness :
  poisoned Demo.bad_pool Demo.malformed
  /\ pool_steps Demo.bad_pool Demo.bad_pool_mined
  /\ (exists l', pool_contents Demo.bad_pool_mined = Some l'
                 /\ In Demo.malformed l')
  /\ chain (self Demo.bad_pool_mined) = chain (self Demo.bad_pool)
  /\ forall addr now fuel w'',
      Chain.mine_transaction_pool addr now fuel Demo.bad_pool_mined
      <> Some (Returns tt, w'').
Proof.
  assert (Hbad : poisoned Demo.bad_pool Demo.malformed).
  { exists [Demo.malformed].
    split; [vm_compute; reflexivity|].
    split; [left; reflexivity|].
    vm_compute. discriminate. }
  assert (Hsteps : pool_steps Demo.bad_pool Demo.bad_pool_mined).
  { apply (pool_steps_step Demo.bad_pool Demo.bad_pool Demo.bad_pool_mined).
    - apply pool_steps_refl.
    - apply (pool_step_mine Demo.bad_pool Demo.bad_pool_mined
               Demo.miner_address Demo.t1 Demo.fuel
               (Raises MiningInvalidTransactionError)).
      vm_compute. reflexivity. }
  split; [exact Hbad|]. split; [exact Hsteps|].
  destruct (poisoned_pool_stays Demo.bad_pool Demo.bad_pool_mined
              Demo.malformed Hbad Hsteps) as (Hin & _ & Hchain & Hnever).
  split; [exact Hin|]. split; [exact Hchain | exact Hnever].
Defined.

Lemma timestamp_digit_passes_for_nonce_witness :
  blocks (heap Demo.w2) !! 1%nat = Some Scenario.mined_block
  /\ nonce Scenario.mined_block = 2
  /\ timestamp Scenario.mined_block = 1700000000521
  /\ nonce (shift_timestamp Scenario.mined_block 1 700000000521) = 21
  /\ timestamp (shift_timestamp Scenario.mined_block 1 700000000521)
     = 700000000521
  /\ (forall txs,
         Block.digest txs (shift_timestamp Scenario.mined_block 1 700000000521)
         = Block.digest txs Scenario.mined_block)
  /\ result_of
       (Chain.validate_chain
          (with_heap Demo.w2
             (with_block (heap Demo.w2) 1%nat
                (shift_timestamp Scenario.mined_block 1 700000000521))))
     = Some (Returns true).
Proof.
  assert (Hb : blocks (heap Demo.w2) !! 1%nat = Some Scenario.mined_block)
    by (vm_compute; reflexivity).
  assert (Hn : 1 <= nonce Scenario.mined_block) by (vm_compute; discriminate).
  assert (Ht : 10 ^ Z.of_nat 11 <= 700000000521 < 10 ^ Z.of_nat 12)
    by (vm_compute; split; [discriminate | reflexivity]).
  assert (Hstamp : timestamp Scenario.mined_block
                   = 1 * 10 ^ Z.of_nat 12 + 700000000521)
    by (vm_compute; reflexivity).
  destruct (timestamp_digit_passes_for_nonce Demo.w2 1%nat Scenario.mined_block
              1 700000000521 11 Hb Hn ltac:(lia) Ht Hstamp) as (Hd & Hv).
  split; [exact Hb|].
  split; [vm_compute; reflexivity|].
  split; [vm_compute; reflexivity|].
  split; [vm_compute; reflexivity|].
  split; [reflexivity|].
  split; [exact Hd|].
  rewrite Hv. vm_compute. reflexivity.
Defined.

Lemma add_transaction_accepts_again_witness :
  Chain.add_transaction Demo.transfer Demo.w0 = Some (Returns tt, Demo.w1)
  /\ (exists w2,
         Chain.add_transaction Demo.transfer Demo.w1 = Some (Returns tt, w2)
         /\ pool_contents w2 = Some ([] ++ [Demo.transfer; Demo.transfer]))
  /\ exists w',
      Chain.add_transaction Demo.transfer Demo.w2 = Some (Returns tt, w')
      /\ pool_contents w' = Some ([] ++ [Demo.transfer]).
Proof.
  assert (Hrun : Chain.add_transaction Demo.transfer Demo.w0
                 = Some (Returns tt, Demo.w1)) by (vm_compute; reflexivity).
  destruct (add_transaction_accepts_again Demo.transfer Demo.w0 Demo.w1 Hrun)
    as ((l & w2 & Hl & Hagain & Hpool) & Hany & _).
  split; [exact Hrun|].
  split.
  - assert (l = []) as ->.
    { assert (Hl0 : pool_contents Demo.w0 = Some [])
        by (vm_compute; reflexivity).
      congruence. }
    exists w2. split; [exact Hagain | exact Hpool].
  - apply Hany. vm_compute. reflexivity.
Defined.


Lemma mine_again_changes_nothing_witness :
  Block.mine 0%nat 1 Demo.fuel Demo.caller_heap
  = Some (Returns tt, Demo.caller_heap_mined)
  /\ forall fuel',
      Block.mine 0%nat 1 (S fuel') Demo.caller_heap_mined
      = Some (Returns tt, Demo.caller_heap_mined).
Proof.
  assert (Hrun : Block.mine 0%nat 1 Demo.fuel Demo.caller_heap
                 = Some (Returns tt, Demo.caller_heap_mined))
    by (vm_compute; reflexivity).
  split; [exact Hrun|].
  exact (mine_again_changes_nothing _ _ _ _ _ Hrun).
Defined.

Lemma reward_and_difficulty_are_kept_witness :
  step any_block Demo.w1 Demo.w2
  /\ miner_reward (self Demo.w2) = miner_reward (self Demo.w1)
  /\ difficulty (self Demo.w2) = difficulty (self Demo.w1)
  /\ (chain (self Demo.w2) = chain (self Demo.w1)
      \/ exists r, chain (self Demo.w2) = chain (self Demo.w1) ++ [r]).
Proof.
  assert (Hstep : step any_block Demo.w1 Demo.w2).
  { apply (step_mine_transaction_pool any_block Demo.w1 Demo.w2
             Demo.miner_address Demo.t1 Demo.fuel (Returns tt)).
    vm_compute. reflexivity. }
  split; [exact Hstep|].
  destruct (reward_and_difficulty_are_kept any_block Demo.w1 Demo.w2 Hstep)
    as (Hreward & Hd & Hchain & _).
  split; [exact Hreward|]. split; [exact Hd | exact Hchain].
Defined.

End FurtherExamples.
